(** * The oscillo driver (lase/drivers/oscillo.py)

    A shallow embedding of the [Oscillo] class: the acquisition pipeline
    [get_adc], the white-noise probe generator, the transfer-function
    estimator, the correction filter and the spectrum helpers, together with
    the properties the design document states about them.

    Numbers.  The driver computes on numpy [float64] and complex arrays.  The
    embedding keeps the IEEE special values (not-a-number, the two
    infinities) as constructors of their own and takes every finite value as
    an exact real number: rounding, overflow and the sign of zero are not
    modelled.  Python [int]s are [Z] (or [nat] where they are sizes), and
    [/] between two of them is Python 2's floor division.

    Objects.  An [Oscillo] instance is a record of the attributes [__init__]
    creates; the attributes a method reads although the class never creates
    them are optional fields.  Methods run in a state-and-exception monad over
    the instance and numpy's global random generator; an exception leaves the
    mutations made before it in place, as in Python. *)

From Stdlib Require Import Reals Lra Lia ZArith List Bool String.
From stdpp Require Import base gmap.
Import ListNotations.

#[local] Open Scope Z_scope.
#[local] Open Scope R_scope.

(** ** Idealised [float64] *)

Inductive float64 : Type :=
| NaN
| Inf (negative : bool)
| Fin (x : R).

Definition Rzerob (x : R) : bool := if Req_dec_T x 0 then true else false.
Definition Rnegb (x : R) : bool := if Rlt_dec x 0 then true else false.

Definition isnan (a : float64) : bool :=
  match a with NaN => true | _ => false end.

Definition isfinite (a : float64) : bool :=
  match a with Fin _ => true | _ => false end.

Definition fneg (a : float64) : float64 :=
  match a with
  | NaN => NaN
  | Inf s => Inf (negb s)
  | Fin x => Fin (- x)
  end.

Definition fadd (a b : float64) : float64 :=
  match a, b with
  | NaN, _ | _, NaN => NaN
  | Inf s, Inf t => if Bool.eqb s t then Inf s else NaN
  | Inf s, Fin _ => Inf s
  | Fin _, Inf t => Inf t
  | Fin x, Fin y => Fin (x + y)
  end.

Definition fsub (a b : float64) : float64 :=
  match a, b with
  | NaN, _ | _, NaN => NaN
  | Inf s, Inf t => if Bool.eqb s t then NaN else Inf s
  | Inf s, Fin _ => Inf s
  | Fin _, Inf t => Inf (negb t)
  | Fin x, Fin y => Fin (x - y)
  end.

Definition fmul (a b : float64) : float64 :=
  match a, b with
  | NaN, _ | _, NaN => NaN
  | Inf s, Inf t => Inf (xorb s t)
  | Inf s, Fin y => if Rzerob y then NaN else Inf (xorb s (Rnegb y))
  | Fin x, Inf t => if Rzerob x then NaN else Inf (xorb (Rnegb x) t)
  | Fin x, Fin y => Fin (x * y)
  end.

(** Division by a zero follows IEEE: a non-zero finite dividend gives an
    infinity of its sign, [0 / 0] gives not-a-number; numpy warns and does not
    raise. *)
Definition fdiv (a b : float64) : float64 :=
  match a, b with
  | NaN, _ | _, NaN => NaN
  | Inf _, Inf _ => NaN
  | Inf s, Fin y => Inf (xorb s (Rnegb y))
  | Fin _, Inf _ => Fin 0
  | Fin x, Fin y =>
      if Rzerob y then (if Rzerob x then NaN else Inf (Rnegb x))
      else Fin (x / y)
  end.

(** [np.mod]: the floored remainder, which takes the sign of the divisor. *)
Definition np_mod (a b : float64) : float64 :=
  match a, b with
  | Fin x, Fin y =>
      if Rzerob y then NaN else Fin (x - y * IZR (Int_part (x / y)))
  | Fin x, Inf t =>
      if Rzerob x then Fin 0
      else if Bool.eqb (Rnegb x) t then Fin x else Inf t
  | _, _ => NaN
  end.

Definition fabs (a : float64) : float64 :=
  match a with
  | NaN => NaN
  | Inf _ => Inf false
  | Fin x => Fin (Rabs x)
  end.

Definition fexp (a : float64) : float64 :=
  match a with
  | NaN => NaN
  | Inf true => Fin 0
  | Inf false => Inf false
  | Fin x => Fin (exp x)
  end.

Definition fcos (a : float64) : float64 :=
  match a with Fin x => Fin (cos x) | _ => NaN end.

Definition fsin (a : float64) : float64 :=
  match a with Fin x => Fin (sin x) | _ => NaN end.

(** The larger of two values, not-a-number winning as in [np.max]. *)
Definition fmax (a b : float64) : float64 :=
  match a, b with
  | NaN, _ | _, NaN => NaN
  | Inf false, _ | _, Inf false => Inf false
  | Inf true, c | c, Inf true => c
  | Fin x, Fin y => Fin (Rmax x y)
  end.

Definition of_int (z : Z) : float64 := Fin (IZR z).
Definition of_nat (k : nat) : float64 := Fin (INR k).

(** The signed 32-bit remap of line 72: [np.mod(x - 2**31, 2**32) - 2**31]. *)
Definition unwrap (x : float64) : float64 :=
  fsub (np_mod (fsub x (of_int (2 ^ 31))) (of_int (2 ^ 32))) (of_int (2 ^ 31)).

(** ** Complex numbers *)

Definition complex : Type := (float64 * float64)%type.

Definition RtoC (a : float64) : complex := (a, Fin 0).
Definition czero : complex := (Fin 0, Fin 0).
Definition cone : complex := (Fin 1, Fin 0).
Definition cre (z : complex) : float64 := fst z.
Definition cconj (z : complex) : complex := (fst z, fneg (snd z)).

Definition cadd (z w : complex) : complex :=
  (fadd (fst z) (fst w), fadd (snd z) (snd w)).

Definition cmul (z w : complex) : complex :=
  (fsub (fmul (fst z) (fst w)) (fmul (snd z) (snd w)),
   fadd (fmul (fst z) (snd w)) (fmul (snd z) (fst w))).

Definition cdiv (z w : complex) : complex :=
  let den := fadd (fmul (fst w) (fst w)) (fmul (snd w) (snd w)) in
  (fdiv (fadd (fmul (fst z) (fst w)) (fmul (snd z) (snd w))) den,
   fdiv (fsub (fmul (snd z) (fst w)) (fmul (fst z) (snd w))) den).

Definition cscale (f : float64) (z : complex) : complex :=
  (fmul f (fst z), fmul f (snd z)).

(** [np.abs] of a complex number ([hypot]: an infinite part wins over a
    not-a-number one). *)
Definition cabs (z : complex) : float64 :=
  match fst z, snd z with
  | Inf _, _ | _, Inf _ => Inf false
  | NaN, _ | _, NaN => NaN
  | Fin x, Fin y => Fin (sqrt (x * x + y * y))
  end.

Definition cexp (z : complex) : complex :=
  (fmul (fexp (fst z)) (fcos (snd z)), fmul (fexp (fst z)) (fsin (snd z))).

Definition fsum (l : list float64) : float64 := fold_right fadd (Fin 0) l.
Definition csum (l : list complex) : complex := fold_right cadd czero l.

(** ** Python and numpy helpers *)

Inductive exn : Type :=
| AttributeError (attr : string)
| IndexError
| ValueError.

Inductive outcome (A : Type) : Type :=
| Ret (a : A)
| Raise (e : exn).
Arguments Ret {A} a.
Arguments Raise {A} e.

Definition obind {A B : Type} (o : outcome A) (k : A -> outcome B) : outcome B :=
  match o with Ret a => k a | Raise e => Raise e end.

(** A Python index into a sequence of [len] items: negative indices count
    from the end, anything else out of range is an [IndexError]. *)
Definition py_index (len : nat) (i : Z) : outcome nat :=
  if (0 <=? i)%Z && (i <? Z.of_nat len)%Z then Ret (Z.to_nat i)
  else if (- Z.of_nat len <=? i)%Z && (i <? 0)%Z then Ret (Z.to_nat (Z.of_nat len + i))
  else Raise IndexError.

Definition getitem {A : Type} (l : list A) (i : Z) : outcome A :=
  obind (py_index (length l) i) (fun k =>
    match nth_error l k with Some a => Ret a | None => Raise IndexError end).

Definition setitem {A : Type} (l : list A) (i : Z) (v : A) : outcome (list A) :=
  obind (py_index (length l) i) (fun k => Ret (<[k := v]> l)).

(** The end of the slice [0:stop] of a sequence of [len] items. *)
Definition slice_stop (len : nat) (stop : Z) : nat :=
  if (stop <? 0)%Z then Z.to_nat (Z.of_nat len + stop)
  else Nat.min (Z.to_nat stop) len.

(** [a[0:stop] = v] on a one-dimensional array, [v] a scalar. *)
Definition fill_slice {A : Type} (l : list A) (stop : Z) (v : A) : list A :=
  let k := slice_stop (length l) stop in
  repeat v (Nat.min k (length l)) ++ drop k l.

(** Broadcasting a one-dimensional value to [len] items. *)
Definition broadcast_to {A : Type} (len : nat) (v : list A) : outcome (list A) :=
  if Nat.eqb (length v) len then Ret v
  else match v with
       | [a] => Ret (repeat a len)
       | _ => Raise ValueError
       end.

(** An elementwise binary operation on two one-dimensional arrays. *)
Definition broadcast2 {A B C : Type} (f : A -> B -> C) (a : list A) (b : list B)
  : outcome (list C) :=
  if Nat.eqb (length a) (length b) then Ret (zip_with f a b)
  else match a, b with
       | _, [y] => Ret (map (fun x => f x y) a)
       | [x], _ => Ret (map (f x) b)
       | _, _ => Raise ValueError
       end.

(** An in-place operation [a op= b]: [b] is broadcast to the shape of [a]. *)
Definition inplace {A B : Type} (f : A -> B -> A) (a : list A) (b : list B)
  : outcome (list A) :=
  obind (broadcast_to (length a) b) (fun b' => Ret (zip_with f a b')).

(** The same on two-dimensional arrays, row by row. *)
Fixpoint inplace_rows {A B : Type} (f : A -> B -> A)
  (a : list (list A)) (b : list (list B)) : outcome (list (list A)) :=
  match a, b with
  | [], [] => Ret []
  | ra :: a', rb :: b' =>
      obind (inplace f ra rb) (fun r =>
      obind (inplace_rows f a' b') (fun rs => Ret (r :: rs)))
  | _, _ => Raise ValueError
  end.

Definition inplace2 {A B : Type} (f : A -> B -> A)
  (a : list (list A)) (b : list (list B)) : outcome (list (list A)) :=
  obind (broadcast_to (length a) b) (inplace_rows f a).

(** An array of [r] rows of [c] items each. *)
Definition has_shape {A : Type} (r c : nat) (a : list (list A)) : Prop :=
  length a = r /\ Forall (fun row => length row = c) a.

(** [a[i,:]] and [a[i,:] = v] on a two-dimensional array. *)
Definition getrow {A : Type} (a : list (list A)) (i : Z) : outcome (list A) :=
  getitem a i.

Definition setrow {A : Type} (a : list (list A)) (i : Z) (v : list A)
  : outcome (list (list A)) :=
  obind (py_index (length a) i) (fun k =>
    match nth_error a k with
    | Some row => obind (broadcast_to (length row) v) (fun v' => Ret (<[k := v']> a))
    | None => Raise IndexError
    end).

(** [a[i,j]]. *)
Definition getitem2 {A : Type} (a : list (list A)) (i j : Z) : outcome A :=
  obind (getitem a i) (fun row => getitem row j).

Fixpoint mapM {A B : Type} (f : A -> outcome B) (l : list A) : outcome (list B) :=
  match l with
  | [] => Ret []
  | a :: l' => obind (f a) (fun b => obind (mapM f l') (fun bs => Ret (b :: bs)))
  end.

Definition np_zeros (k : nat) : list float64 := repeat (Fin 0) k.
Definition np_zeros2 (r c : nat) : list (list float64) := repeat (np_zeros c) r.

(** [np.mean]: the mean of no items is not-a-number (numpy warns). *)
Definition np_mean (l : list float64) : float64 :=
  fdiv (fsum l) (of_nat (length l)).

(** [np.max]: of no items it raises. *)
Definition np_max (l : list float64) : outcome float64 :=
  match l with
  | [] => Raise ValueError
  | a :: l' => Ret (fold_left fmax l' a)
  end.

(** ** The discrete Fourier transform of [np.fft] *)

(** The transform is written as the defining sum.  On finite samples this is
    what [np.fft] computes, up to rounding; on infinite or not-a-number
    samples the two may differ in which parts come out infinite and which
    not-a-number. *)

Definition twiddle (sgn : R) (N k j : nat) : complex :=
  (Fin (cos (2 * PI * INR k * INR j / INR N)),
   Fin (sgn * sin (2 * PI * INR k * INR j / INR N))).

Definition dft_bin (sgn : R) (x : list complex) (k : nat) : complex :=
  csum (imap (fun j xj => cmul xj (twiddle sgn (length x) k j)) x).

Definition dft (sgn : R) (x : list complex) : list complex :=
  map (dft_bin sgn x) (seq 0 (length x)).

(** [np.fft.fft] and [np.fft.ifft] refuse an empty input. *)
Definition np_fft_fft (x : list complex) : outcome (list complex) :=
  match x with
  | [] => Raise ValueError
  | _ => Ret (dft (-1) x)
  end.

Definition np_fft_ifft (x : list complex) : outcome (list complex) :=
  match x with
  | [] => Raise ValueError
  | _ => Ret (map (cscale (Fin (/ INR (length x)))) (dft 1 x))
  end.

(** The Hermitian extension [np.fft.irfft] inverts: the imaginary parts of
    the first and the last bin are dropped, the bins between them are
    mirrored as conjugates. *)
Definition hermitian_ext (x : list complex) : list complex :=
  match x with
  | [] => []
  | x0 :: rest =>
      RtoC (fst x0) :: removelast rest ++
      [RtoC (fst (List.last rest czero))] ++
      rev (map cconj (removelast rest))
  end.

(** [np.fft.irfft(x)]: [2 * (len(x) - 1)] real samples; no samples is an
    error. *)
Definition np_fft_irfft (x : list complex) : outcome (list float64) :=
  match x with
  | [] | [_] => Raise ValueError
  | _ => obind (np_fft_ifft (hermitian_ext x)) (fun y => Ret (map cre y))
  end.

(** ** The device register interface *)

Module DevMem.

(** Modelled from the spec: the device register interface ([lase_base.dvm])
    is an external collaborator that is not among the sources.  It exposes bit
    set and clear on a word of a mapped register bank, scalar reads of such a
    word, buffered sample reads from a mapped memory window, and the mapping
    of a window.  [words] holds the register words by (bank, offset), an
    unwritten word reading as 0; [samples] is what the hardware presents in a
    window at each successive buffer read, [reads] counting them. *)
Record t : Type := mk {
  words : gmap (Z * Z) Z;
  samples : nat -> Z -> nat -> float64;
  reads : nat;
}.

Definition word (d : t) (bank off : Z) : Z :=
  default 0%Z (words d !! (bank, off)).

Definition set_bit (d : t) (bank off bit : Z) : t :=
  mk (<[(bank, off) := Z.setbit (word d bank off) bit]> (words d))
     (samples d) (reads d).

Definition clear_bit (d : t) (bank off bit : Z) : t :=
  mk (<[(bank, off) := Z.clearbit (word d bank off) bit]> (words d))
     (samples d) (reads d).

Definition read (d : t) (bank off : Z) : Z := word d bank off.

Definition read_buffer (d : t) (window : Z) (off len : nat) : list float64 * t :=
  (map (fun i => samples d (reads d) window (off + i)%nat) (seq 0 len),
   mk (words d) (samples d) (S (reads d))).

(** A deterministic source: the sample memory is the same at every read. *)
Definition deterministic (d : t) : Prop :=
  forall t1 t2 window i, samples d t1 window i = samples d t2 window i.

(** Mapping a window hands back its base address as the handle. *)
Definition add_memory_map (d : t) (addr size : Z) : Z * t := (addr, d).

End DevMem.

(** ** The base driver *)

Module Sampling.

(** Modelled from the spec: the sampling grid of the base driver, of which
    the oscillo driver reads the number of points [n] and the frequency grid
    [f_fft]. *)
Record t : Type := mk {
  n : nat;
  f_fft : list float64;
}.

End Sampling.

Module Lase.

(** Modelled from the spec: the base driver [Lase] is imported from a module
    that is not among the sources.  The oscillo driver reads from it the
    sample depth [n], the sampling grid, the device register interface and
    the register banks and offsets (device constants). *)
Record t : Type := mk {
  n : nat;
  sampling : Sampling.t;
  dvm : DevMem.t;
  _config : Z;
  _status : Z;
  _addr_off : Z;
  _avg1_off : Z;
  _avg2_off : Z;
  _n_avg1_off : Z;
}.

Definition with_dvm (d : DevMem.t) (l : t) : t :=
  mk (n l) (sampling l) d (_config l) (_status l) (_addr_off l)
     (_avg1_off l) (_avg2_off l) (_n_avg1_off l).

End Lase.

(** ** The oscillo driver *)

Module Oscillo.

(** The instance attributes.  The first fourteen are created by [__init__].
    [_is_failed] is created by [get_adc] on a reception fault and
    [amplitude_error] by [optimize_amplitude]; [sampling], [dac] and [set_dac]
    are read by methods of the class but created by none of them, so they
    exist only when something outside the class has attached them ([set_dac]
    then being a callable acting on the device). *)
Record t : Type := mk {
  lase_base : Lase.t;
  _avg_off : Z;
  _adc_1 : Z;
  _adc_2 : Z;
  avg_on : bool;
  adc : list (list float64);
  spectrum : list (list complex);
  avg_spectrum : list (list float64);
  ideal_amplitude_waveform : list float64;
  amplitude_transfer_function : list complex;
  gaussian_filter : list float64;
  adc_offset : list float64;
  optical_power : list float64;
  power : list float64;
  _is_failed : option bool;
  amplitude_error : option (list float64);
  sampling : option Sampling.t;
  dac : option (list (list float64));
  set_dac : option (DevMem.t -> DevMem.t);
}.

Definition with_lase_base (v : Lase.t) (s : t) : t :=
  mk v (_avg_off s) (_adc_1 s) (_adc_2 s) (avg_on s) (adc s) (spectrum s)
    (avg_spectrum s) (ideal_amplitude_waveform s)
    (amplitude_transfer_function s) (gaussian_filter s) (adc_offset s)
    (optical_power s) (power s) (_is_failed s) (amplitude_error s)
    (sampling s) (dac s) (set_dac s).

Definition with_avg_on (v : bool) (s : t) : t :=
  mk (lase_base s) (_avg_off s) (_adc_1 s) (_adc_2 s) v (adc s) (spectrum s)
    (avg_spectrum s) (ideal_amplitude_waveform s)
    (amplitude_transfer_function s) (gaussian_filter s) (adc_offset s)
    (optical_power s) (power s) (_is_failed s) (amplitude_error s)
    (sampling s) (dac s) (set_dac s).

Definition with_adc (v : list (list float64)) (s : t) : t :=
  mk (lase_base s) (_avg_off s) (_adc_1 s) (_adc_2 s) (avg_on s) v
    (spectrum s) (avg_spectrum s) (ideal_amplitude_waveform s)
    (amplitude_transfer_function s) (gaussian_filter s) (adc_offset s)
    (optical_power s) (power s) (_is_failed s) (amplitude_error s)
    (sampling s) (dac s) (set_dac s).

Definition with_spectrum (v : list (list complex)) (s : t) : t :=
  mk (lase_base s) (_avg_off s) (_adc_1 s) (_adc_2 s) (avg_on s) (adc s) v
    (avg_spectrum s) (ideal_amplitude_waveform s)
    (amplitude_transfer_function s) (gaussian_filter s) (adc_offset s)
    (optical_power s) (power s) (_is_failed s) (amplitude_error s)
    (sampling s) (dac s) (set_dac s).

Definition with_avg_spectrum (v : list (list float64)) (s : t) : t :=
  mk (lase_base s) (_avg_off s) (_adc_1 s) (_adc_2 s) (avg_on s) (adc s)
    (spectrum s) v (ideal_amplitude_waveform s)
    (amplitude_transfer_function s) (gaussian_filter s) (adc_offset s)
    (optical_power s) (power s) (_is_failed s) (amplitude_error s)
    (sampling s) (dac s) (set_dac s).

Definition with_amplitude_transfer_function (v : list complex) (s : t) : t :=
  mk (lase_base s) (_avg_off s) (_adc_1 s) (_adc_2 s) (avg_on s) (adc s)
    (spectrum s) (avg_spectrum s) (ideal_amplitude_waveform s) v
    (gaussian_filter s) (adc_offset s) (optical_power s) (power s)
    (_is_failed s) (amplitude_error s) (sampling s) (dac s) (set_dac s).

Definition with_is_failed (v : option bool) (s : t) : t :=
  mk (lase_base s) (_avg_off s) (_adc_1 s) (_adc_2 s) (avg_on s) (adc s)
    (spectrum s) (avg_spectrum s) (ideal_amplitude_waveform s)
    (amplitude_transfer_function s) (gaussian_filter s) (adc_offset s)
    (optical_power s) (power s) v (amplitude_error s) (sampling s) (dac s)
    (set_dac s).

Definition with_amplitude_error (v : option (list float64)) (s : t) : t :=
  mk (lase_base s) (_avg_off s) (_adc_1 s) (_adc_2 s) (avg_on s) (adc s)
    (spectrum s) (avg_spectrum s) (ideal_amplitude_waveform s)
    (amplitude_transfer_function s) (gaussian_filter s) (adc_offset s)
    (optical_power s) (power s) (_is_failed s) v (sampling s) (dac s)
    (set_dac s).

Definition with_sampling (v : option Sampling.t) (s : t) : t :=
  mk (lase_base s) (_avg_off s) (_adc_1 s) (_adc_2 s) (avg_on s) (adc s)
    (spectrum s) (avg_spectrum s) (ideal_amplitude_waveform s)
    (amplitude_transfer_function s) (gaussian_filter s) (adc_offset s)
    (optical_power s) (power s) (_is_failed s) (amplitude_error s) v (dac s)
    (set_dac s).

Definition with_dac (v : option (list (list float64))) (s : t) : t :=
  mk (lase_base s) (_avg_off s) (_adc_1 s) (_adc_2 s) (avg_on s) (adc s)
    (spectrum s) (avg_spectrum s) (ideal_amplitude_waveform s)
    (amplitude_transfer_function s) (gaussian_filter s) (adc_offset s)
    (optical_power s) (power s) (_is_failed s) (amplitude_error s)
    (sampling s) v (set_dac s).

Definition with_set_dac (v : option (DevMem.t -> DevMem.t)) (s : t) : t :=
  mk (lase_base s) (_avg_off s) (_adc_1 s) (_adc_2 s) (avg_on s) (adc s)
    (spectrum s) (avg_spectrum s) (ideal_amplitude_waveform s)
    (amplitude_transfer_function s) (gaussian_filter s) (adc_offset s)
    (optical_power s) (power s) (_is_failed s) (amplitude_error s)
    (sampling s) (dac s) v.

(** The interpreter state a method runs in: the instance and numpy's global
    random generator (the stream of its draws and the position in it). *)
Record World : Type := mkWorld {
  self : t;
  np_random : nat -> R;
  np_random_pos : nat;
}.

(** *** State and exceptions *)

Definition M (A : Type) : Type := World -> outcome A * World.

Definition ret {A : Type} (a : A) : M A := fun w => (Ret a, w).

Definition raise {A : Type} (e : exn) : M A := fun w => (Raise e, w).

Definition bind {A B : Type} (m : M A) (k : A -> M B) : M B :=
  fun w =>
    match m w with
    | (Ret a, w') => k a w'
    | (Raise e, w') => (Raise e, w')
    end.

Notation "x <- m ;; k" := (bind m (fun x => k))
  (at level 100, m at next level, right associativity).
Notation "m ;; k" := (bind m (fun _ => k))
  (at level 100, right associativity).

Definition lift {A : Type} (o : outcome A) : M A := fun w => (o, w).

(** Reading an attribute [__init__] creates. *)
Definition attr {A : Type} (f : t -> A) : M A := fun w => (Ret (f (self w)), w).

(** Reading an attribute that may not exist. *)
Definition getattr {A : Type} (name : string) (f : t -> option A) : M A :=
  fun w =>
    match f (self w) with
    | Some a => (Ret a, w)
    | None => (Raise (AttributeError name), w)
    end.

Definition update (f : t -> t) : M unit :=
  fun w => (Ret tt, mkWorld (f (self w)) (np_random w) (np_random_pos w)).

Definition dvm_do (f : DevMem.t -> DevMem.t) : M unit :=
  update (fun s =>
    with_lase_base (Lase.with_dvm (f (Lase.dvm (lase_base s))) (lase_base s)) s).

Fixpoint for_range (k : nat) (body : M unit) : M unit :=
  match k with
  | O => ret tt
  | S k' => body ;; for_range k' body
  end.

(** [np.random.rand(k)]: the next [k] draws. *)
Definition np_random_rand (k : nat) : M (list float64) :=
  fun w =>
    (Ret (map (fun i => Fin (np_random w (np_random_pos w + i)%nat)) (seq 0 k)),
     mkWorld (self w) (np_random w) (np_random_pos w + k)%nat).

(** *** Methods *)

Definition set_averaging (on : bool) : M unit :=
  update (with_avg_on on) ;;
  on' <- attr avg_on ;;
  if on' then
    lb <- attr lase_base ;;
    dvm_do (fun d => DevMem.clear_bit d (Lase._config lb) (Lase._avg1_off lb) 0) ;;
    lb <- attr lase_base ;;
    dvm_do (fun d => DevMem.clear_bit d (Lase._config lb) (Lase._avg2_off lb) 0)
  else
    lb <- attr lase_base ;;
    dvm_do (fun d => DevMem.set_bit d (Lase._config lb) (Lase._avg1_off lb) 0) ;;
    lb <- attr lase_base ;;
    dvm_do (fun d => DevMem.set_bit d (Lase._config lb) (Lase._avg2_off lb) 0).

(** [self.adc[c,:] = self.lase_base.dvm.read_buffer(window, 0, self.lase_base.n)] *)
Definition read_channel (c : Z) (window : t -> Z) : M unit :=
  lb <- attr lase_base ;;
  win <- attr window ;;
  let '(buf, d) := DevMem.read_buffer (Lase.dvm lb) win 0 (Lase.n lb) in
  dvm_do (fun _ => d) ;;
  a <- attr adc ;;
  a' <- lift (setrow a c buf) ;;
  update (with_adc a').

(** [self.adc[c,:] -= self.adc_offset[c]] *)
Definition subtract_offset (c : Z) : M unit :=
  a <- attr adc ;;
  row <- lift (getrow a c) ;;
  o <- attr adc_offset ;;
  off <- lift (getitem o c) ;;
  a' <- lift (setrow a c (map (fun x => fsub x off) row)) ;;
  update (with_adc a').

(** [self.adc[c,:] *= self.optical_power[c] / self.power[c]] *)
Definition apply_gain (c : Z) : M unit :=
  a <- attr adc ;;
  row <- lift (getrow a c) ;;
  op <- attr optical_power ;;
  num <- lift (getitem op c) ;;
  pw <- attr power ;;
  den <- lift (getitem pw c) ;;
  a' <- lift (setrow a c (map (fun x => fmul x (fdiv num den)) row)) ;;
  update (with_adc a').

Definition get_adc : M unit :=
  lb <- attr lase_base ;;
  dvm_do (fun d => DevMem.set_bit d (Lase._config lb) (Lase._addr_off lb) 1) ;;
  (* time.sleep(0.001) *)
  read_channel 0 _adc_1 ;;
  read_channel 1 _adc_2 ;;
  (* Check reception *)
  a <- attr adc ;;
  x0 <- lift (getitem2 a 0 0) ;;
  failed <- (if isnan x0 then ret true
             else a <- attr adc ;;
                  x1 <- lift (getitem2 a 1 0) ;;
                  ret (isnan x1)) ;;
  if failed : bool then
    update (with_is_failed (Some true))
  else
    a <- attr adc ;;
    update (with_adc (map (map unwrap) a)) ;;
    on <- attr avg_on ;;
    (if on : bool then
       lb <- attr lase_base ;;
       let n_avg1 := DevMem.read (Lase.dvm lb) (Lase._status lb) (Lase._n_avg1_off lb) in
       a <- attr adc ;;
       update (with_adc (map (map (fun x => fdiv x (of_int n_avg1))) a))
     else ret tt) ;;
    lb <- attr lase_base ;;
    dvm_do (fun d => DevMem.clear_bit d (Lase._config lb) (Lase._addr_off lb) 1) ;;
    subtract_offset 0 ;;
    subtract_offset 1 ;;
    apply_gain 0 ;;
    apply_gain 1.

(** The spectrum of lines 88-94 of [_white_noise]: flat amplitudes with
    random phases, through [irfft] and [fft], with two bins pinned. *)
Definition _white_noise_spectrum (n_freqs : Z) (n_stop : option Z) : M (list complex) :=
  let n_stop := match n_stop with None => n_freqs | Some k => k end in
  amplitudes <- lift (if (n_freqs <? 0)%Z then Raise ValueError
                      else Ret (np_zeros (Z.to_nat n_freqs))) ;;
  let amplitudes := fill_slice amplitudes n_stop (Fin 1) in
  u <- np_random_rand (Z.to_nat n_freqs) ;;
  let random_phases := map (fun x => fmul (Fin (2 * PI)) x) u in
  white_noise <- lift (np_fft_irfft
    (zip_with (fun a p => cmul (RtoC a) (cexp (cmul (Fin 0, Fin 1) (RtoC p))))
       amplitudes random_phases)) ;;
  white_noise <- lift (np_fft_fft (map RtoC white_noise)) ;;
  white_noise <- lift (setitem white_noise 0 (RtoC (Fin 0.01))) ;;
  s <- getattr "sampling" sampling ;;
  lift (setitem white_noise (Z.of_nat (Sampling.n s / 2)) (RtoC (Fin 1))).

(** The flat spectrum with the random phases of the generator (lines 88-91),
    for [k] bins and the default [n_stop]. *)
Definition phased (w : World) (k : nat) : list complex :=
  zip_with (fun a p => cmul (RtoC a) (cexp (cmul (Fin 0, Fin 1) (RtoC p))))
    (fill_slice (np_zeros k) (Z.of_nat k) (Fin 1))
    (map (fun x => fmul (Fin (2 * PI)) x)
       (map (fun i => Fin (np_random w (np_random_pos w + i)%nat)) (seq 0 k))).

(** The spectrum after [irfft] and [fft] (lines 91-92), before the two bins
    are pinned. *)
Definition respectrum (w : World) (k : nat) : list complex :=
  dft (-1)
    (map RtoC
       (map cre
          (map (cscale (Fin (/ INR (length (hermitian_ext (phased w k))))))
             (dft 1 (hermitian_ext (phased w k)))))).

Definition _white_noise (n_freqs : Z) (n_stop : option Z) : M (list float64) :=
  white_noise <- _white_noise_spectrum n_freqs n_stop ;;
  y <- lift (np_fft_ifft white_noise) ;;
  let white_noise := map cre y in
  peak <- lift (np_max (map fabs white_noise)) ;;
  ret (map (fun x => fdiv x (fmul (Fin 1.7) peak)) white_noise).

(** [self.set_dac()] *)
Definition call_set_dac : M unit :=
  f <- getattr "set_dac" set_dac ;;
  dvm_do f.

(** One trial of the estimator (the body of the loop of lines 104-110). *)
Definition transfer_trial (n_freqs channel_dac channel_adc : Z) : M unit :=
  white_noise <- _white_noise n_freqs None ;;
  d <- getattr "dac" dac ;;
  d' <- lift (setrow d channel_dac white_noise) ;;
  update (with_dac (Some d')) ;;
  call_set_dac ;;
  (* time.sleep(0.01) *)
  get_adc ;;
  tf <- attr amplitude_transfer_function ;;
  a <- attr adc ;;
  row <- lift (getrow a channel_adc) ;;
  num <- lift (np_fft_fft (map RtoC row)) ;;
  den <- lift (np_fft_fft (map RtoC white_noise)) ;;
  ratio <- lift (broadcast2 cdiv num den) ;;
  tf' <- lift (inplace cadd tf ratio) ;;
  update (with_amplitude_transfer_function tf').

Definition get_amplitude_transfer_function
  (channel_dac channel_adc transfer_avg : Z) : M unit :=
  s <- getattr "sampling" sampling ;;
  let n_freqs := (Z.of_nat (Sampling.n s / 2) + 1)%Z in
  tf <- attr amplitude_transfer_function ;;
  update (with_amplitude_transfer_function
            (map (fun z => cmul z (RtoC (of_int 0))) tf)) ;;
  for_range (Z.to_nat transfer_avg)
    (transfer_trial n_freqs channel_dac channel_adc) ;;
  tf <- attr amplitude_transfer_function ;;
  update (with_amplitude_transfer_function
            (map (fun z => cdiv z (RtoC (of_int transfer_avg))) tf)) ;;
  tf <- attr amplitude_transfer_function ;;
  tf' <- lift (setitem tf 0 (RtoC (of_int 1))) ;;
  update (with_amplitude_transfer_function tf') ;;
  s <- getattr "sampling" sampling ;;
  d <- getattr "dac" dac ;;
  d' <- lift (setrow d channel_dac (np_zeros (Sampling.n s))) ;;
  update (with_dac (Some d')) ;;
  call_set_dac.

Definition get_correction : M (list float64) :=
  err <- getattr "amplitude_error" amplitude_error ;;
  f <- lift (np_fft_fft (map RtoC err)) ;;
  tf <- attr amplitude_transfer_function ;;
  tmp <- lift (broadcast2 cdiv f tf) ;;
  tmp <- lift (setitem tmp 0 (RtoC (of_int 0))) ;;
  g <- attr gaussian_filter ;;
  tmp <- lift (broadcast2 (fun x z => cmul (RtoC x) z) g tmp) ;;
  y <- lift (np_fft_ifft tmp) ;;
  ret (map cre y).

Definition optimize_amplitude (alpha : float64) (channel : Z) : M unit :=
  a <- attr adc ;;
  row <- lift (getrow a 0) ;;
  a <- attr adc ;;
  row' <- lift (getrow a 0) ;;
  ideal <- attr ideal_amplitude_waveform ;;
  err <- lift (broadcast2 fsub (map (fun x => fsub x (np_mean row')) row) ideal) ;;
  update (with_amplitude_error (Some err)) ;;
  d <- getattr "dac" dac ;;
  out <- lift (getrow d channel) ;;
  correction <- get_correction ;;
  out' <- lift (inplace fsub out (map (fun c => fmul alpha c) correction)) ;;
  d' <- lift (setrow d channel out') ;;
  update (with_dac (Some d')).

(** The amplitude error computed from the captured buffer of channel [c]:
    the buffer minus its own mean, minus the ideal waveform (arrays of one
    length). *)
Definition amplitude_error_from (s : t) (c : nat) : list float64 :=
  let row := nth c (adc s) [] in
  zip_with fsub (map (fun x => fsub x (np_mean row)) row) (ideal_amplitude_waveform s).

(** The amplitude error [optimize_amplitude] stores (line 123): the one from
    channel 0. *)
Definition amplitude_error_of (s : t) : list float64 := amplitude_error_from s 0.

(** The correction waveform [get_correction] returns for the error [err],
    written out for arrays of one length. *)
Definition correction_of (s : t) (err : list float64) : list float64 :=
  let tmp :=
    zip_with (fun x z => cmul (RtoC x) z) (gaussian_filter s)
      (<[0%nat := RtoC (of_int 0)]>
         (zip_with cdiv (dft (-1) (map RtoC err)) (amplitude_transfer_function s))) in
  map cre (map (cscale (Fin (/ INR (length tmp)))) (dft 1 tmp)).

(** [np.fft.fft(self.adc, axis=1)] *)
Definition fft_rows (a : list (list float64)) : outcome (list (list complex)) :=
  mapM (fun row => np_fft_fft (map RtoC row)) a.

Definition get_spectrum : M unit :=
  a <- attr adc ;;
  fft_adc <- lift (fft_rows a) ;;
  s <- getattr "sampling" sampling ;;
  update (with_spectrum (map (take (Sampling.n s / 2)) fft_adc)).

(** One acquisition of [get_avg_spectrum] (the body of its loop). *)
Definition avg_spectrum_step : M unit :=
  get_adc ;;
  a <- attr adc ;;
  fft_adc <- lift (fft_rows a) ;;
  let fft_adc := map (map cabs) fft_adc in
  acc <- attr avg_spectrum ;;
  s <- getattr "sampling" sampling ;;
  acc' <- lift (inplace2 fadd acc (map (take (Sampling.n s / 2)) fft_adc)) ;;
  update (with_avg_spectrum acc').

Definition get_avg_spectrum (n_avg : Z) : M unit :=
  s <- getattr "sampling" sampling ;;
  update (with_avg_spectrum (np_zeros2 2 (Sampling.n s / 2))) ;;
  for_range (Z.to_nat n_avg) avg_spectrum_step ;;
  acc <- attr avg_spectrum ;;
  update (with_avg_spectrum (map (map (fun x => fdiv x (of_int n_avg))) acc)).

Definition set_amplitude_transfer_function (v : list complex) : M unit :=
  update (with_amplitude_transfer_function v).

(** What the two buffer reads of the next [get_adc] return: channel 0 from the
    first window at this read, channel 1 from the second at the following. *)
Definition capture (w : World) (c : nat) : list float64 :=
  let s := self w in
  let d := Lase.dvm (lase_base s) in
  map (fun i => DevMem.samples d (c + DevMem.reads d)%nat
                  (match c with O => _adc_1 s | _ => _adc_2 s end) i)
    (seq 0 (Lase.n (lase_base s))).

(** The validation of line 68 on those buffers. *)
Definition reception_fault (w : World) : bool :=
  isnan (nth 0 (capture w 0) (Fin 0)) || isnan (nth 0 (capture w 1) (Fin 0)).

(** The device once [get_adc] has set the strobe and read both buffers. *)
Definition strobed (lb : Lase.t) : DevMem.t :=
  let d := DevMem.set_bit (Lase.dvm lb) (Lase._config lb) (Lase._addr_off lb) 1 in
  DevMem.mk (DevMem.words d) (DevMem.samples d) (S (S (DevMem.reads d))).

(** The averaging count [get_adc] reads (line 75), the strobe being set. *)
Definition averaging_count (s : t) : Z :=
  let lb := lase_base s in
  DevMem.read (strobed lb) (Lase._status lb) (Lase._n_avg1_off lb).

(** What lines 72-83 make of one raw sample of channel [c]: the signed remap,
    the division by the averaging count when averaging is on, the offset
    and the gain. *)
Definition calibrated (s : t) (c : nat) (x : float64) : float64 :=
  let y := unwrap x in
  let y := if avg_on s then fdiv y (of_int (averaging_count s)) else y in
  fmul (fsub y (nth c (adc_offset s) NaN))
       (fdiv (nth c (optical_power s) NaN) (nth c (power s) NaN)).

(** The state [get_adc] leaves, written out: on a reception fault the raw
    buffers and the flag, the strobe still set; otherwise the calibrated
    buffers, the strobe cleared. *)
Definition acquired (w : World) : World :=
  let s := self w in
  let lb := lase_base s in
  if reception_fault w then
    mkWorld
      (with_is_failed (Some true)
         (with_adc [capture w 0; capture w 1]
            (with_lase_base (Lase.with_dvm (strobed lb) lb) s)))
      (np_random w) (np_random_pos w)
  else
    mkWorld
      (with_adc [map (calibrated s 0) (capture w 0); map (calibrated s 1) (capture w 1)]
         (with_lase_base
            (Lase.with_dvm
               (DevMem.clear_bit (strobed lb) (Lase._config lb) (Lase._addr_off lb) 1)
               lb) s))
      (np_random w) (np_random_pos w).

(** The address-strobe bit, as the config word holds it. *)
Definition strobe (w : World) : bool :=
  let lb := lase_base (self w) in
  Z.testbit (DevMem.read (Lase.dvm lb) (Lase._config lb) (Lase._addr_off lb)) 1.

(** The shapes [__init__] gives the capture buffers and the calibration
    vectors, with a sample depth of at least one. *)
Definition ready (s : t) : Prop :=
  has_shape 2 (Lase.n (lase_base s)) (adc s) /\
  (0 < Lase.n (lase_base s))%nat /\
  length (adc_offset s) = 2%nat /\
  length (optical_power s) = 2%nat /\
  length (power s) = 2%nat.

Section Base.

(** The parts of the base driver the sources do not hold: its constructor
    [Lase(n, client, map_size = 4096, current_mode = 'pwm')], with the client
    bound, and its [reset()]. *)
Variable Lase_new : nat -> Lase.t.
Variable Lase_reset : Lase.t -> Lase.t.

Definition reset : M unit :=
  update (fun s => with_lase_base (Lase_reset (lase_base s)) s) ;;
  update (with_avg_on false) ;;
  on <- attr avg_on ;;
  set_averaging on.

(** The constructor: the attributes as [__init__] creates them, then
    [self.reset()].  [g] and [pos] are the state of numpy's generator. *)
Definition __init__ (map_size : Z) (g : nat -> R) (pos : nat) : outcome unit * World :=
  let n := Z.to_nat 8192 in
  let lase_base := Lase_new n in
  let _adc_1_addr := 0x42000000%Z in
  let _adc_2_addr := 0x44000000%Z in
  let '(adc1, d) :=
    DevMem.add_memory_map (Lase.dvm lase_base) _adc_1_addr
      (Z.of_nat (Lase.n lase_base) / 1024 * map_size)%Z in
  let lase_base := Lase.with_dvm d lase_base in
  let '(adc2, d) :=
    DevMem.add_memory_map (Lase.dvm lase_base) _adc_2_addr
      (Z.of_nat (Lase.n lase_base) / 1024 * map_size)%Z in
  let lase_base := Lase.with_dvm d lase_base in
  let sigma_freq := 5e6 in
  reset
    (mkWorld
       (mk lase_base 24 adc1 adc2 false
          (np_zeros2 2 (Lase.n lase_base))
          (repeat (repeat czero (Lase.n lase_base / 2)) 2)
          (np_zeros2 2 (Lase.n lase_base / 2))
          (np_zeros (Lase.n lase_base))
          (repeat cone (Sampling.n (Lase.sampling lase_base)))
          (map (fun f =>
                  fmul (Fin 1)
                    (fexp (fdiv (fmul (Fin (-1)) (fmul f f))
                             (Fin (2 * (sigma_freq * sigma_freq))))))
             (Sampling.f_fft (Lase.sampling lase_base)))
          (np_zeros 2) (repeat (Fin 1) 2) (repeat (Fin 1) 2)
          None None None None None)
       g pos).

(** The operations of the controller. *)
Inductive call : Type :=
| Reset
| SetAveraging (avg_on : bool)
| GetAdc
| WhiteNoise (n_freqs : Z) (n_stop : option Z)
| GetAmplitudeTransferFunction (channel_dac channel_adc transfer_avg : Z)
| GetCorrection
| OptimizeAmplitude (alpha : float64) (channel : Z)
| GetSpectrum
| GetAvgSpectrum (n_avg : Z)
| SetAmplitudeTransferFunction (v : list complex).

Definition exec (c : call) : M unit :=
  match c with
  | Reset => reset
  | SetAveraging on => set_averaging on
  | GetAdc => get_adc
  | WhiteNoise n_freqs n_stop => _white_noise n_freqs n_stop ;; ret tt
  | GetAmplitudeTransferFunction cd ca k => get_amplitude_transfer_function cd ca k
  | GetCorrection => get_correction ;; ret tt
  | OptimizeAmplitude alpha ch => optimize_amplitude alpha ch
  | GetSpectrum => get_spectrum
  | GetAvgSpectrum k => get_avg_spectrum k
  | SetAmplitudeTransferFunction v => set_amplitude_transfer_function v
  end.

(** The state after a sequence of operations; an operation that raises keeps
    the mutations it made, and the caller goes on. *)
Definition run (cs : list call) (w : World) : World :=
  fold_left (fun w c => snd (exec c w)) cs w.

End Base.

End Oscillo.

(** ** A simulated device *)

Module Sim.

(** A device whose sample memory holds [raw] at every read (a deterministic
    source) and whose averaging-count register holds [count]. *)
Definition device (raw : Z -> nat -> float64) (count : Z) : DevMem.t :=
  DevMem.mk {[ (0x50000000, 12)%Z := count ]} (fun _ => raw) 0.

(** Modelled from the spec: the frequency grid of a sampling of [n] points at
    rate [fs] ([np.fft.fftfreq(n) * fs]). *)
Definition f_fft (n : nat) (fs : R) : list float64 :=
  map (fun k => Fin ((if (k <? (n + 1) / 2)%nat then INR k else INR k - INR n)
                       * fs / INR n))
    (seq 0 n).

(** Modelled from the spec: the base driver over a device, with a sample
    depth of [n], a sampling grid of [n] points at 125 MHz, and the register
    banks and offsets as device constants. *)
Definition Lase_new (d : DevMem.t) (n : nat) : Lase.t :=
  Lase.mk n (Sampling.mk n (f_fft n 125e6)) d 0x60000000 0x50000000 20 24 28 12.

(** Modelled from the spec: [Lase.reset()] leaves the registers the oscillo
    driver reads as they are. *)
Definition Lase_reset (l : Lase.t) : Lase.t := l.

(** The controller as constructed over such a device. *)
Definition fresh (raw : Z -> nat -> float64) (count : Z) : Oscillo.World :=
  snd (Oscillo.__init__ (Lase_new (device raw count)) Lase_reset 4096 (fun _ => 0) 0).

(** The same once a caller has attached the base driver's sampling grid, a
    zeroed output buffer and an output routine to the instance. *)
Definition attach (w : Oscillo.World) : Oscillo.World :=
  let s := Oscillo.self w in
  let lb := Oscillo.lase_base s in
  Oscillo.mkWorld
    (Oscillo.with_set_dac (Some (fun d => d))
       (Oscillo.with_dac (Some (np_zeros2 2 (Lase.n lb)))
          (Oscillo.with_sampling (Some (Lase.sampling lb)) s)))
    (Oscillo.np_random w) (Oscillo.np_random_pos w).

(** The controller with averaging switched on. *)
Definition averaging (raw : Z -> nat -> float64) (count : Z) : Oscillo.World :=
  snd (Oscillo.set_averaging true (fresh raw count)).

(** Sample memories: all zeros; every word equal to [v]; a single 1 as the
    first sample of the first window; not-a-number as the first sample of the
    first window. *)
Definition zeros : Z -> nat -> float64 := fun _ _ => Fin 0.
Definition constant (v : R) : Z -> nat -> float64 := fun _ _ => Fin v.
Definition pulse : Z -> nat -> float64 :=
  fun window i =>
    if (window =? 0x42000000)%Z && (i =? 0)%nat then Fin 1 else Fin 0.
Definition lost : Z -> nat -> float64 :=
  fun window i =>
    if (window =? 0x42000000)%Z && (i =? 0)%nat then NaN else Fin 0.

End Sim.

(** ** Predicates and sums of the statements *)

(** A predicate on the state that a computation keeps, whether it returns or
    raises. *)
Definition stable (I : Oscillo.World -> Prop) {A : Type} (m : Oscillo.M A) : Prop :=
  forall w, I w -> I (snd (m w)).

(** The updates that keep a predicate which reads one attribute only. *)
Definition frames {X : Type} (p : Oscillo.t -> X) (f : Oscillo.t -> Oscillo.t) : Prop :=
  forall s, p (f s) = p s.

(** The failure flag is as it was ([b]) or true. *)
Definition flag_kept (b : option bool) (w : Oscillo.World) : Prop :=
  Oscillo._is_failed (Oscillo.self w) = b \/
  Oscillo._is_failed (Oscillo.self w) = Some true.

(** The transfer function has [L] entries. *)
Definition tf_length (L : nat) (w : Oscillo.World) : Prop :=
  length (Oscillo.amplitude_transfer_function (Oscillo.self w)) = L.

(** The instance has no attribute [sampling]. *)
Definition no_sampling (w : Oscillo.World) : Prop :=
  Oscillo.sampling (Oscillo.self w) = None.

(** The state the estimator works on: the shapes of construction, with the
    sampling grid, a two-row output buffer and the output routine attached,
    the sample depth, the grid and the transfer function all of [N] points. *)
Definition estimable (samp : Sampling.t) (f : DevMem.t -> DevMem.t) (N : nat)
  (w : Oscillo.World) : Prop :=
  Oscillo.ready (Oscillo.self w) /\
  Lase.n (Oscillo.lase_base (Oscillo.self w)) = N /\
  Oscillo.sampling (Oscillo.self w) = Some samp /\
  Sampling.n samp = N /\
  (exists d, Oscillo.dac (Oscillo.self w) = Some d /\ has_shape 2 N d) /\
  Oscillo.set_dac (Oscillo.self w) = Some f /\
  length (Oscillo.amplitude_transfer_function (Oscillo.self w)) = N.

(** [f off + f (off + 1) + ... + f (off + n - 1)]. *)
Fixpoint Rsum_from (f : nat -> R) (off n : nat) : R :=
  match n with
  | O => 0
  | S n' => f off + Rsum_from f (S off) n'
  end.

(** The angle [2 pi t k / N]. *)
Definition angle (N t k : nat) : R := 2 * PI * INR t * INR k / INR N.

(** The real number a finite value holds, and the complex numbers with both
    parts finite. *)
Definition Rof (x : float64) : R := match x with Fin r => r | _ => 0 end.

Definition cfin (z : complex) : Prop :=
  isfinite (fst z) = true /\ isfinite (snd z) = true.

(** The remap as the specification words it,
    [((x - 2^31) mod 2^32) - 2^31], on the reals: [mod] is the floored
    remainder [a - b * floor (a / b)]. *)
Definition floored_mod (a b : R) : R := a - b * IZR (Int_part (a / b)).

Definition signed_remap (x : R) : R :=
  floored_mod (x - 2147483648) 4294967296 - 2147483648.

(** ** Definitions for the further properties *)

(** The attributes no method of the class assigns after construction. *)
Definition constants (s : Oscillo.t) :=
  (Oscillo.adc_offset s, Oscillo.optical_power s, Oscillo.power s,
   Oscillo.gaussian_filter s, Oscillo.ideal_amplitude_waveform s,
   (Oscillo._adc_1 s, Oscillo._adc_2 s, Oscillo._avg_off s),
   (Oscillo.sampling s, Oscillo.set_dac s)).

(** The attributes the shapes of an acquisition depend on. *)
Definition shapes (s : Oscillo.t) :=
  (Lase.n (Oscillo.lase_base s), Oscillo.adc s, Oscillo.adc_offset s,
   Oscillo.optical_power s, Oscillo.power s).

(** The instance is ready for an acquisition, at a sample depth of [N]. *)
Definition ready_at (N : nat) (w : Oscillo.World) : Prop :=
  Oscillo.ready (Oscillo.self w) /\ Lase.n (Oscillo.lase_base (Oscillo.self w)) = N.

(** What the acquisitions of an operation depend on, together with the
    failure flag: the shapes, the sample memory of the device, and the
    output routine. *)
Definition acquisition_view (s : Oscillo.t) :=
  (shapes s, DevMem.samples (Lase.dvm (Oscillo.lase_base s)), Oscillo.set_dac s,
   Oscillo._is_failed s).

(** An instance on which no acquisition can take the fault path: it is ready,
    its device never presents a not-a-number as the first sample of a window,
    and its output routine, when there is one, leaves the sample memory
    alone. *)
Definition quiet (s : Oscillo.t) : Prop :=
  Oscillo.ready s /\
  (forall t window,
     isnan (DevMem.samples (Lase.dvm (Oscillo.lase_base s)) t window 0) = false) /\
  (forall f, Oscillo.set_dac s = Some f ->
             forall d, DevMem.samples (f d) = DevMem.samples d).

(** Whether a sequence of operations run from [w] holds a [get_adc] that is
    called on a state with a reception fault. *)
Fixpoint fault_seen (Lase_reset : Lase.t -> Lase.t) (cs : list Oscillo.call)
  (w : Oscillo.World) : bool :=
  match cs with
  | [] => false
  | c :: cs' =>
      (match c with Oscillo.GetAdc => Oscillo.reception_fault w | _ => false end)
      || fault_seen Lase_reset cs' (snd (Oscillo.exec Lase_reset c w))
  end.

(** Bit 0 of an averaging word as [set_averaging] writes it (lines 54-59):
    cleared to switch the averaging on, set to switch it off. *)
Definition averaging_bit (on : bool) (x : Z) : Z :=
  if on then Z.clearbit x 0 else Z.setbit x 0.

(** The register words once [set_averaging] has written the word at
    [_avg1_off] and then the word at [_avg2_off] of the config bank. *)
Definition averaging_words (on : bool) (lb : Lase.t) (m : gmap (Z * Z) Z)
  : gmap (Z * Z) Z :=
  let m1 :=
    <[(Lase._config lb, Lase._avg1_off lb) :=
        averaging_bit on (default 0%Z (m !! (Lase._config lb, Lase._avg1_off lb)))]> m in
  <[(Lase._config lb, Lase._avg2_off lb) :=
      averaging_bit on (default 0%Z (m1 !! (Lase._config lb, Lase._avg2_off lb)))]> m1.

(** A sample memory with a not-a-number in the second sample of every
    window and zeros elsewhere. *)
Definition glitch : Z -> nat -> float64 :=
  fun _ i => if (i =? 1)%nat then NaN else Fin 0.

(** ** The example bootstrap (examples/init_example.py) *)

Module InitExample.

(** What the script reads from the interpreter and the file system:
    [hasattr(sys, 'frozen')], [__file__], [os.getcwd()], the composition
    [os.path.abspath(os.path.join(os.path.dirname(__file__), '..'))] as a
    function of [__file__], and [os.listdir], which raises [OSError] on a
    path that cannot be listed. *)
Record Env : Type := mkEnv {
  frozen : bool;
  file : string;
  getcwd : string;
  parent_of : string -> string;
  listdir : string -> option (list string);
}.

(** How the script ends: with [sys.path] as it leaves it, or with the
    exception that escapes. *)
Inductive result : Type :=
| Done (sys_path : list string)
| OSError
| ValueError.

(** [l.remove(p)]: the first item equal to [p] goes; none is an error. *)
Fixpoint list_remove (p : string) (l : list string) : option (list string) :=
  match l with
  | [] => None
  | x :: l' =>
      if String.eqb x p then Some l'
      else match list_remove p l' with
           | Some r => Some (x :: r)
           | None => None
           end
  end.

(** The test of lines 19-21 on an entry of [sys.path]: at least three
    characters, and a prefix of [path]. *)
Definition promoted (path p : string) : bool :=
  negb (String.length p <? 3)%nat && String.prefix p path.

(** The loop of lines 18-24.  The iterator of a list holds an index into the
    list as it is at each step, and stops when the index reaches its end; the
    body mutates the list while the loop runs.  [fuel] bounds the number of
    steps ([None]: not enough of it). *)
Fixpoint promote_from (fuel : nat) (path : string) (i : nat) (l : list string)
  : option result :=
  match fuel with
  | O => None
  | S fuel' =>
      match nth_error l i with
      | None => Some (Done l)
      | Some p =>
          if (String.length p <? 3)%nat then promote_from fuel' path (S i) l
          else if String.prefix p path then
            match list_remove p l with
            | Some l' => promote_from fuel' path (S i) (p :: l')
            | None => Some ValueError
            end
          else promote_from fuel' path (S i) l
      end
  end.

(** [path] as lines 9-12 compute it; the [rstrip] of line 13 is dropped with
    its result, as in the script. *)
Definition search_path (e : Env) : string :=
  if String.eqb (file e) "<stdin>" then getcwd e else parent_of e (file e).

(** The script, on [sys.path]. *)
Definition main (fuel : nat) (e : Env) (sys_path : list string) : option result :=
  if frozen e then Some (Done sys_path)
  else
    let path := search_path e in
    match listdir e path with
    | None => Some OSError
    | Some names =>
        if existsb (String.eqb "ldk") names then Some (Done (path :: sys_path))
        else promote_from fuel path 0 sys_path
    end.

(** One step of the loop on the entries seen so far ([pre]) and the entry
    under the iterator. *)
Definition step (path : string) (pre : list string) (p : string) : list string :=
  if promoted path p then
    match list_remove p (pre ++ [p]) with
    | Some r => p :: r
    | None => pre ++ [p]
    end
  else pre ++ [p].

(** A sample run: the script [/opt/ldk-src/examples/blink.py], whose parent
    directory holds no [ldk], started with four entries in [sys.path]. *)
Definition sample_listing : list string :=
  ["examples"; "lase"; "README.md"]%string.

Definition sample_env : Env :=
  mkEnv false "/opt/ldk-src/examples/blink.py" "/home/user"
    (fun _ => "/opt/ldk-src"%string) (fun _ => Some sample_listing).

Definition sample_sys_path : list string :=
  [""; "/usr/lib/python2.7"; "/opt/ldk-src"; "/opt"]%string.

End InitExample.

(** ** Lemmas on the numbers *)

Lemma Int_part_bounds (r : R) : IZR (Int_part r) <= r < IZR (Int_part r) + 1.
Proof. destruct (base_Int_part r) as [H1 H2]. lra. Qed.

Lemma unwrap_Fin (x : R) :
  unwrap (Fin x) =
  Fin (x - 2147483648
       - 4294967296 * IZR (Int_part ((x - 2147483648) / 4294967296))
       - 2147483648).
Proof.
  unfold unwrap, of_int. cbn [fsub np_mod].
  unfold Rzerob. destruct (Req_dec_T (IZR (2 ^ 32)) 0) as [E | _].
  - exfalso. apply eq_IZR_R0 in E. discriminate E.
  - change (2 ^ 31)%Z with 2147483648%Z. change (2 ^ 32)%Z with 4294967296%Z.
    reflexivity.
Qed.

Lemma unwrap_range (x : R) :
  exists r, unwrap (Fin x) = Fin r /\ - 2147483648 <= r < 2147483648.
Proof.
  rewrite unwrap_Fin. eexists; split; [reflexivity |].
  pose proof (Int_part_bounds ((x - 2147483648) / 4294967296)) as [H1 H2].
  set (k := IZR (Int_part ((x - 2147483648) / 4294967296))) in *.
  assert (E : x - 2147483648 = (x - 2147483648) / 4294967296 * 4294967296)
    by (field; lra).
  split; nra.
Qed.

Lemma Rzerob_true (x : R) : x = 0%R -> Rzerob x = true.
Proof. intros H. unfold Rzerob. destruct (Req_dec_T x 0); [reflexivity | contradiction]. Qed.

Lemma Rzerob_false (x : R) : x <> 0%R -> Rzerob x = false.
Proof. intros H. unfold Rzerob. destruct (Req_dec_T x 0); [contradiction | reflexivity]. Qed.

Lemma Rnegb_true (x : R) : (x < 0)%R -> Rnegb x = true.
Proof. intros H. unfold Rnegb. destruct (Rlt_dec x 0); [reflexivity | contradiction]. Qed.

Lemma Rnegb_false (x : R) : (0 <= x)%R -> Rnegb x = false.
Proof. intros H. unfold Rnegb. destruct (Rlt_dec x 0); [lra | reflexivity]. Qed.

Lemma Int_part_unique (r : R) (z : Z) :
  (IZR z <= r < IZR z + 1)%R -> Int_part r = z.
Proof.
  intros [H1 H2]. destruct (Int_part_bounds r) as [H3 H4].
  assert (z < Int_part r + 1)%Z by (apply lt_IZR; rewrite plus_IZR; simpl; lra).
  assert (Int_part r < z + 1)%Z by (apply lt_IZR; rewrite plus_IZR; simpl; lra).
  lia.
Qed.

(** A value already in the signed range is left as it is. *)
Lemma unwrap_signed (x : R) :
  (- 2147483648 <= x < 2147483648)%R -> unwrap (Fin x) = Fin x.
Proof.
  intros H. rewrite unwrap_Fin.
  rewrite (Int_part_unique _ (-1)%Z) by (simpl; lra).
  f_equal. simpl. lra.
Qed.

(** An unsigned register word in the upper half maps to its negative. *)
Lemma unwrap_unsigned (x : R) :
  (2147483648 <= x < 4294967296)%R -> unwrap (Fin x) = Fin (x - 4294967296).
Proof.
  intros H. rewrite unwrap_Fin.
  rewrite (Int_part_unique _ 0%Z) by (simpl; lra).
  f_equal. simpl. lra.
Qed.

(** Nothing divided by zero is finite. *)
Lemma fdiv_zero_not_finite (y : float64) : isfinite (fdiv y (Fin 0)) = false.
Proof.
  destruct y as [| s | x]; try reflexivity.
  unfold fdiv. rewrite (Rzerob_true 0) by reflexivity.
  destruct (Rzerob x); reflexivity.
Qed.

Lemma fdiv_pos_zero (x : R) : (0 < x)%R -> fdiv (Fin x) (Fin 0) = Inf false.
Proof.
  intros H. unfold fdiv. rewrite (Rzerob_true 0) by reflexivity.
  rewrite Rzerob_false by lra. rewrite Rnegb_false by lra. reflexivity.
Qed.

Lemma fdiv_Fin (x y : R) : y <> 0%R -> fdiv (Fin x) (Fin y) = Fin (x / y).
Proof. intros H. unfold fdiv. rewrite Rzerob_false by exact H. reflexivity. Qed.

(** ** Lists, indices and shapes *)

Import Oscillo.

Lemma broadcast_to_same {A : Type} (v : list A) (len : nat) :
  length v = len -> broadcast_to len v = Ret v.
Proof. intros H. unfold broadcast_to. rewrite H, Nat.eqb_refl. reflexivity. Qed.

Lemma has_shape_2 {A : Type} (c : nat) (a : list (list A)) :
  has_shape 2 c a ->
  exists r0 r1, a = [r0; r1] /\ length r0 = c /\ length r1 = c.
Proof.
  intros [Hl Hf]. destruct a as [| r0 [| r1 [| ? ?]]]; try discriminate Hl.
  inversion Hf as [| ? ? H0 Hf']; subst. inversion Hf' as [| ? ? H1 _]; subst.
  exists r0, r1. auto.
Qed.

Lemma length_2 {A : Type} (l : list A) :
  length l = 2%nat -> exists a b, l = [a; b].
Proof. destruct l as [| a [| b [| ? ?]]]; try discriminate. eauto. Qed.

Lemma capture_length (w : World) (c : nat) :
  length (capture w c) = Lase.n (lase_base (self w)).
Proof. unfold capture. rewrite length_map, length_seq. reflexivity. Qed.

Lemma setrow_0 {A : Type} (r0 r1 v : list A) :
  length v = length r0 -> setrow [r0; r1] 0 v = Ret [v; r1].
Proof.
  intros H. unfold setrow.
  change (py_index (length [r0; r1]) 0) with (@Ret nat 0%nat).
  cbn [obind nth_error]. rewrite broadcast_to_same by exact H. reflexivity.
Qed.

Lemma setrow_1 {A : Type} (r0 r1 v : list A) :
  length v = length r1 -> setrow [r0; r1] 1 v = Ret [r0; v].
Proof.
  intros H. unfold setrow.
  change (py_index (length [r0; r1]) 1) with (@Ret nat 1%nat).
  cbn [obind nth_error]. rewrite broadcast_to_same by exact H. reflexivity.
Qed.

Lemma py_index_0 (len : nat) : (0 < len)%nat -> py_index len 0 = Ret 0%nat.
Proof.
  intros H. unfold py_index.
  replace (0 <? Z.of_nat len)%Z with true by (symmetry; apply Z.ltb_lt; lia).
  reflexivity.
Qed.

Lemma getitem_0 {A : Type} (l : list A) (d : A) :
  (0 < length l)%nat -> getitem l 0 = Ret (nth 0 l d).
Proof.
  intros H. unfold getitem. rewrite py_index_0 by exact H.
  destruct l as [| x l]; [inversion H | reflexivity].
Qed.

Lemma getitem2_00 {A : Type} (r0 r1 : list A) (d : A) :
  (0 < length r0)%nat -> getitem2 [r0; r1] 0 0 = Ret (nth 0 r0 d).
Proof.
  intros H. unfold getitem2. change (getitem [r0; r1] 0) with (Ret r0).
  cbn [obind]. apply getitem_0, H.
Qed.

Lemma getitem2_10 {A : Type} (r0 r1 : list A) (d : A) :
  (0 < length r1)%nat -> getitem2 [r0; r1] 1 0 = Ret (nth 0 r1 d).
Proof.
  intros H. unfold getitem2. change (getitem [r0; r1] 1) with (Ret r1).
  cbn [obind]. apply getitem_0, H.
Qed.

Lemma getrow_0 {A : Type} (r0 r1 : list A) : getrow [r0; r1] 0 = Ret r0.
Proof. reflexivity. Qed.

Lemma getrow_1 {A : Type} (r0 r1 : list A) : getrow [r0; r1] 1 = Ret r1.
Proof. reflexivity. Qed.

Lemma getitem_pair_0 {A : Type} (a b : A) : getitem [a; b] 0 = Ret a.
Proof. reflexivity. Qed.

Lemma getitem_pair_1 {A : Type} (a b : A) : getitem [a; b] 1 = Ret b.
Proof. reflexivity. Qed.

(** ** Running the monad *)

#[local] Arguments unwrap : simpl never.
#[local] Arguments fsub : simpl never.
#[local] Arguments fadd : simpl never.
#[local] Arguments fmul : simpl never.
#[local] Arguments fdiv : simpl never.
#[local] Arguments of_int : simpl never.
#[local] Arguments setrow : simpl never.
#[local] Arguments getrow : simpl never.
#[local] Arguments getitem : simpl never.
#[local] Arguments getitem2 : simpl never.
#[local] Arguments Z.setbit : simpl never.
#[local] Arguments Z.clearbit : simpl never.
#[local] Arguments Z.testbit : simpl never.
#[local] Arguments DevMem.word : simpl never.
#[local] Arguments capture : simpl never.

Ltac mstep := cbv [bind attr update lift ret dvm_do getattr raise]; cbn.

Ltac open_world w :=
  let s := fresh "s" in
  destruct w as [s ? ?];
  destruct s as [[? ? [? ? ?] ? ? ? ? ? ?] ? ? ? ? ? ? ? ? ? ? ? ? ? ? ? ? ? ?].

Ltac len := repeat rewrite ?length_map, ?length_seq; lia.

Ltac rows :=
  repeat (first [ rewrite getrow_0 | rewrite getrow_1
                | rewrite getitem_pair_0 | rewrite getitem_pair_1
                | rewrite setrow_0 by len | rewrite setrow_1 by len ]; mstep).

(** ** The acquisition pipeline *)

(** On a controller with the shapes of construction, [get_adc] returns
    normally and leaves the state [acquired] writes out. *)
Lemma get_adc_acquired (w : World) :
  ready (self w) -> get_adc w = (Ret tt, acquired w).
Proof.
  intros (Hs & Hn & Ho & Hp & Hq).
  destruct (has_shape_2 _ _ Hs) as (r0 & r1 & Ea & H0 & H1).
  destruct (length_2 _ Ho) as (o0 & o1 & Eo).
  destruct (length_2 _ Hp) as (p0 & p1 & Ep).
  destruct (length_2 _ Hq) as (q0 & q1 & Eq).
  unfold acquired, reception_fault, calibrated, averaging_count, strobed.
  open_world w. cbn in *. subst.
  unfold capture. cbn.
  unfold get_adc, read_channel. mstep.
  rewrite setrow_0 by len. mstep.
  rewrite setrow_1 by len. mstep.
  rewrite (getitem2_00 _ _ (Fin 0)) by len. mstep.
  match goal with |- context [isnan ?x] => destruct (isnan x) eqn:N0 end.
  - mstep. reflexivity.
  - mstep. rewrite (getitem2_10 _ _ (Fin 0)) by len. mstep.
    match goal with |- context [isnan ?x] => destruct (isnan x) eqn:N1 end.
    + mstep. reflexivity.
    + mstep. unfold subtract_offset, apply_gain.
      match goal with |- context [if ?b then _ else _] => destruct b end;
        mstep; rows; rewrite !map_map; reflexivity.
Qed.

Lemma unwrap_signed_remap (x : R) : unwrap (Fin x) = Fin (signed_remap x).
Proof. rewrite unwrap_Fin. unfold signed_remap, floored_mod. reflexivity. Qed.

Lemma signed_remap_range (x : R) :
  - 2147483648 <= signed_remap x < 2147483648.
Proof.
  destruct (unwrap_range x) as (r & E & Hr).
  rewrite unwrap_signed_remap in E. injection E as E. rewrite E. exact Hr.
Qed.

Lemma signed_remap_congruent (x : R) :
  signed_remap x
  = x - 4294967296 * IZR (Int_part ((x - 2147483648) / 4294967296) + 1).
Proof. unfold signed_remap, floored_mod. rewrite plus_IZR. lra. Qed.

(** C1.  A capture that does not take the not-a-number path, with averaging
    off: [get_adc] returns, and each sample of channel [c] is
    [(unwrap x - offset_c) * (optical_power_c / power_c)] of the raw sample
    [x].  The [unwrap] of line 72 is the remap the specification gives: on
    every real [x] it is [((x - 2^31) mod 2^32) - 2^31], which lies in
    [[-2^31, 2^31)] and differs from [x] by a multiple of [2^32]; so it keeps
    the values of the signed range and takes [2^32] off the upper half of the
    unsigned one. *)
Theorem get_adc_calibration (w : World) :
  ready (self w) ->
  avg_on (self w) = false ->
  reception_fault w = false ->
  fst (get_adc w) = Ret tt /\
  (forall c : nat, (c < 2)%nat ->
     nth c (adc (self (snd (get_adc w)))) [] =
     map (fun x => fmul (fsub (unwrap x) (nth c (adc_offset (self w)) NaN))
                     (fdiv (nth c (optical_power (self w)) NaN)
                           (nth c (power (self w)) NaN)))
       (capture w c)) /\
  (forall x : R,
     exists r, unwrap (Fin x) = Fin r /\ (- 2147483648 <= r < 2147483648)%R) /\
  (forall x : R,
     unwrap (Fin x) = Fin (signed_remap x) /\
     (- 2147483648 <= signed_remap x < 2147483648)%R /\
     exists k : Z, signed_remap x = (x - 4294967296 * IZR k)%R) /\
  (forall x : R, (- 2147483648 <= x < 2147483648)%R -> unwrap (Fin x) = Fin x) /\
  (forall x : R, (2147483648 <= x < 4294967296)%R ->
     unwrap (Fin x) = Fin (x - 4294967296)).
Proof.
  intros Hr Ha Hf. rewrite (get_adc_acquired w Hr).
  split; [reflexivity |]. split.
  { intros c Hc. cbn [snd]. unfold acquired. rewrite Hf. cbn [self].
    unfold calibrated. rewrite Ha.
    destruct c as [| [| c]]; [reflexivity | reflexivity | lia]. }
  split; [exact unwrap_range |]. split.
  { intros x. split; [apply unwrap_signed_remap |].
    split; [apply signed_remap_range |].
    eexists. apply signed_remap_congruent. }
  split; [exact unwrap_signed | exact unwrap_unsigned].
Qed.

Lemma fresh_ready (raw : Z -> nat -> float64) (count : Z) :
  ready (self (Sim.fresh raw count)).
Proof.
  unfold ready. repeat split.
  - repeat constructor.
  - cbn. lia.
Qed.

(** The theorem on the simulated controller over a device whose every raw
    word is [2^32 - 1]: the acquisition returns, and the word is read as -1. *)
Lemma get_adc_calibration_witness :
  ready (self (Sim.fresh (Sim.constant 4294967295) 0)) /\
  avg_on (self (Sim.fresh (Sim.constant 4294967295) 0)) = false /\
  reception_fault (Sim.fresh (Sim.constant 4294967295) 0) = false /\
  fst (get_adc (Sim.fresh (Sim.constant 4294967295) 0)) = Ret tt /\
  unwrap (Fin 4294967295) = Fin (4294967295 - 4294967296).
Proof.
  assert (Hr : ready (self (Sim.fresh (Sim.constant 4294967295) 0)))
    by apply fresh_ready.
  assert (Ha : avg_on (self (Sim.fresh (Sim.constant 4294967295) 0)) = false)
    by reflexivity.
  assert (Hf : reception_fault (Sim.fresh (Sim.constant 4294967295) 0) = false)
    by reflexivity.
  assert (Hx : (2147483648 <= 4294967295 < 4294967296)%R) by lra.
  split; [exact Hr |]. split; [exact Ha |]. split; [exact Hf |].
  split.
  - exact (proj1 (get_adc_calibration _ Hr Ha Hf)).
  - exact (proj2 (proj2 (proj2 (proj2 (proj2 (get_adc_calibration _ Hr Ha Hf)))))
             4294967295 Hx).
Defined.

(** C2.  When the first sample of either channel reads as not-a-number,
    [get_adc] returns with the failure flag true and both buffers as read:
    no remap, no division by the averaging count, no offset and no gain. *)
Theorem get_adc_reception_fault (w : World) :
  has_shape 2 (Lase.n (lase_base (self w))) (adc (self w)) ->
  (0 < Lase.n (lase_base (self w)))%nat ->
  reception_fault w = true ->
  fst (get_adc w) = Ret tt /\
  _is_failed (self (snd (get_adc w))) = Some true /\
  adc (self (snd (get_adc w))) = [capture w 0; capture w 1].
Proof.
  intros Hs Hn Hf.
  destruct (has_shape_2 _ _ Hs) as (r0 & r1 & Ea & H0 & H1).
  unfold reception_fault in Hf.
  remember (capture w 0) as b0 eqn:E0. remember (capture w 1) as b1 eqn:E1.
  open_world w. cbn in *. subst.
  unfold get_adc, read_channel. mstep.
  rewrite setrow_0 by len. mstep.
  rewrite setrow_1 by len. mstep.
  rewrite (getitem2_00 _ _ (Fin 0)) by len. mstep.
  unfold capture in Hf. cbn in Hf.
  match goal with |- context [isnan ?x] => destruct (isnan x) eqn:N0 end.
  - mstep. auto.
  - mstep. rewrite (getitem2_10 _ _ (Fin 0)) by len.
    mstep. cbn in Hf. rewrite Hf. mstep. auto.
Qed.

(** The theorem on a device that presents not-a-number as the first sample
    of the first channel. *)
Lemma get_adc_reception_fault_witness :
  has_shape 2 (Lase.n (lase_base (self (Sim.fresh Sim.lost 0))))
    (adc (self (Sim.fresh Sim.lost 0))) /\
  (0 < Lase.n (lase_base (self (Sim.fresh Sim.lost 0))))%nat /\
  reception_fault (Sim.fresh Sim.lost 0) = true /\
  _is_failed (self (snd (get_adc (Sim.fresh Sim.lost 0)))) = Some true.
Proof.
  assert (Hs : has_shape 2 (Lase.n (lase_base (self (Sim.fresh Sim.lost 0))))
                 (adc (self (Sim.fresh Sim.lost 0))))
    by apply (fresh_ready Sim.lost 0).
  assert (Hn : (0 < Lase.n (lase_base (self (Sim.fresh Sim.lost 0))))%nat)
    by apply (fresh_ready Sim.lost 0).
  assert (Hf : reception_fault (Sim.fresh Sim.lost 0) = true) by reflexivity.
  split; [exact Hs |]. split; [exact Hn |]. split; [exact Hf |].
  exact (proj1 (proj2 (get_adc_reception_fault (Sim.fresh Sim.lost 0) Hs Hn Hf))).
Defined.

(** After [get_adc] the strobe bit is set exactly when the call took the
    reception-fault path. *)
Lemma strobe_after_get_adc (w : World) :
  ready (self w) -> strobe (snd (get_adc w)) = reception_fault w.
Proof.
  intros Hr. rewrite (get_adc_acquired w Hr). cbn [snd].
  unfold acquired, strobe, strobed.
  destruct (reception_fault w); cbn; unfold DevMem.read, DevMem.word; cbn;
    rewrite lookup_insert_eq; cbn; unfold Datatypes.id.
  - apply Z.setbit_eq. lia.
  - apply Z.clearbit_eq.
Qed.

(** C3, at a reception fault: the strobe bit, clear before the call, is still
    set when [get_adc] has returned. *)
Theorem get_adc_fault_leaves_strobe_set :
  strobe (Sim.fresh Sim.lost 0) = false /\
  fst (get_adc (Sim.fresh Sim.lost 0)) = Ret tt /\
  _is_failed (self (snd (get_adc (Sim.fresh Sim.lost 0)))) = Some true /\
  strobe (snd (get_adc (Sim.fresh Sim.lost 0))) = true.
Proof.
  split; [reflexivity |].
  split; [rewrite (get_adc_acquired _ (fresh_ready Sim.lost 0)); reflexivity |].
  split; [rewrite (get_adc_acquired _ (fresh_ready Sim.lost 0)); reflexivity |].
  rewrite strobe_after_get_adc by apply fresh_ready. reflexivity.
Qed.

Lemma averaging_ready (raw : Z -> nat -> float64) (count : Z) :
  ready (self (Sim.averaging raw count)).
Proof.
  unfold ready. repeat split.
  - repeat constructor.
  - cbn. lia.
Qed.

Lemma fsub_not_finite (a b : float64) :
  isfinite a = false -> isfinite (fsub a b) = false.
Proof.
  destruct a as [| s | x]; [| | discriminate]; intros _;
    destruct b as [| t | y]; try reflexivity.
  unfold fsub. destruct (Bool.eqb s t); reflexivity.
Qed.

Lemma fmul_not_finite (a b : float64) :
  isfinite a = false -> isfinite (fmul a b) = false.
Proof.
  destruct a as [| s | x]; [| | discriminate]; intros _;
    destruct b as [| t | y]; try reflexivity.
  unfold fmul. destruct (Rzerob y); reflexivity.
Qed.

(** C4, as the code has it.  With averaging on and the count register reading
    zero, [get_adc] raises nothing and leaves the failure flag as it was: it
    divides every remapped sample by zero as IEEE arithmetic does, clears the
    strobe and applies offset and gain, so that every sample of both buffers
    ends up infinite or not-a-number. *)
Theorem get_adc_zero_count (w : World) :
  ready (self w) ->
  avg_on (self w) = true ->
  reception_fault w = false ->
  averaging_count (self w) = 0%Z ->
  fst (get_adc w) = Ret tt /\
  _is_failed (self (snd (get_adc w))) = _is_failed (self w) /\
  strobe (snd (get_adc w)) = false /\
  (forall c : nat, (c < 2)%nat ->
     nth c (adc (self (snd (get_adc w)))) [] =
     map (fun x => fmul (fsub (fdiv (unwrap x) (Fin 0))
                               (nth c (adc_offset (self w)) NaN))
                     (fdiv (nth c (optical_power (self w)) NaN)
                           (nth c (power (self w)) NaN)))
       (capture w c) /\
     Forall (fun y => isfinite y = false) (nth c (adc (self (snd (get_adc w)))) [])).
Proof.
  intros Hr Ha Hf Hc.
  assert (Hs : strobe (snd (get_adc w)) = false)
    by (rewrite strobe_after_get_adc by exact Hr; exact Hf).
  rewrite (get_adc_acquired w Hr) in *. cbn [fst snd].
  split; [reflexivity |].
  split; [unfold acquired; rewrite Hf; reflexivity |].
  split; [exact Hs |].
  intros c Hlt.
  assert (E : nth c (adc (self (acquired w))) [] =
     map (fun x => fmul (fsub (fdiv (unwrap x) (Fin 0))
                               (nth c (adc_offset (self w)) NaN))
                     (fdiv (nth c (optical_power (self w)) NaN)
                           (nth c (power (self w)) NaN)))
       (capture w c)).
  { unfold acquired. rewrite Hf. cbn [self]. unfold calibrated.
    rewrite Ha, Hc.
    destruct c as [| [| c]]; [reflexivity | reflexivity | lia]. }
  split; [exact E |].
  rewrite E. apply List.Forall_map, Forall_true. intros x.
  apply fmul_not_finite, fsub_not_finite, fdiv_zero_not_finite.
Qed.

(** The theorem on the simulated controller, averaging on, the count register
    at zero and every raw word equal to 8. *)
Lemma get_adc_zero_count_witness :
  ready (self (Sim.averaging (Sim.constant 8) 0)) /\
  avg_on (self (Sim.averaging (Sim.constant 8) 0)) = true /\
  reception_fault (Sim.averaging (Sim.constant 8) 0) = false /\
  averaging_count (self (Sim.averaging (Sim.constant 8) 0)) = 0%Z /\
  fst (get_adc (Sim.averaging (Sim.constant 8) 0)) = Ret tt.
Proof.
  assert (Hr : ready (self (Sim.averaging (Sim.constant 8) 0)))
    by apply averaging_ready.
  assert (Ha : avg_on (self (Sim.averaging (Sim.constant 8) 0)) = true)
    by reflexivity.
  assert (Hf : reception_fault (Sim.averaging (Sim.constant 8) 0) = false)
    by reflexivity.
  assert (Hc : averaging_count (self (Sim.averaging (Sim.constant 8) 0)) = 0%Z)
    by reflexivity.
  split; [exact Hr |]. split; [exact Ha |]. split; [exact Hf |].
  split; [exact Hc |].
  exact (proj1 (get_adc_zero_count _ Hr Ha Hf Hc)).
Defined.

(** C4 refuted.  Averaging on, the count register at zero, every raw word
    equal to 8: [get_adc] returns normally, no failure flag exists afterwards,
    and the first sample of channel 0 is plus infinity. *)
Lemma get_adc_zero_count_counterexample :
  avg_on (self (Sim.averaging (Sim.constant 8) 0)) = true /\
  averaging_count (self (Sim.averaging (Sim.constant 8) 0)) = 0%Z /\
  fst (get_adc (Sim.averaging (Sim.constant 8) 0)) = Ret tt /\
  _is_failed (self (snd (get_adc (Sim.averaging (Sim.constant 8) 0)))) = None /\
  nth 0 (nth 0 (adc (self (snd (get_adc (Sim.averaging (Sim.constant 8) 0))))) []) NaN
  = Inf false.
Proof.
  split; [reflexivity |]. split; [reflexivity |].
  rewrite (get_adc_acquired _ (averaging_ready (Sim.constant 8) 0)).
  split; [reflexivity |]. split; [reflexivity |].
  change (fmul (fsub (fdiv (unwrap (Fin 8)) (Fin 0)) (Fin 0)) (fdiv (Fin 1) (Fin 1))
          = Inf false).
  rewrite unwrap_signed by lra. rewrite fdiv_pos_zero by lra.
  rewrite fdiv_Fin by lra.
  unfold fsub, fmul. rewrite Rzerob_false by lra. rewrite Rnegb_false by lra.
  reflexivity.
Qed.

(** ** Invariants of the methods *)

Section Stable.

Variable I : World -> Prop.

Lemma stable_ret {A : Type} (a : A) : stable I (ret a).
Proof. intros w H. exact H. Qed.

Lemma stable_raise {A : Type} (e : exn) : stable I (@raise A e).
Proof. intros w H. exact H. Qed.

Lemma stable_lift {A : Type} (o : outcome A) : stable I (lift o).
Proof. intros w H. exact H. Qed.

Lemma stable_attr {A : Type} (f : t -> A) : stable I (attr f).
Proof. intros w H. exact H. Qed.

Lemma stable_getattr {A : Type} (name : string) (f : t -> option A) :
  stable I (getattr name f).
Proof. intros w H. unfold getattr. destruct (f (self w)); exact H. Qed.

Lemma stable_bind {A B : Type} (m : M A) (k : A -> M B) :
  stable I m -> (forall a, stable I (k a)) -> stable I (bind m k).
Proof.
  intros Hm Hk w H. unfold bind. specialize (Hm w H).
  destruct (m w) as [[a | e] w']; cbn in *; [apply Hk, Hm | exact Hm].
Qed.

Lemma stable_for_range (k : nat) (body : M unit) :
  stable I body -> stable I (for_range k body).
Proof.
  intros Hb. induction k as [| k IH]; cbn [for_range].
  - apply stable_ret.
  - apply stable_bind; [exact Hb | intros _; exact IH].
Qed.

(** Reading an attribute and going on with its value. *)
Lemma stable_attr_bind {A B : Type} (f : t -> A) (k : A -> M B) :
  (forall w, I w -> I (snd (k (f (self w)) w))) -> stable I (bind (attr f) k).
Proof. intros Hk w H. exact (Hk w H). Qed.

Lemma stable_lift_bind {A B : Type} (o : outcome A) (k : A -> M B) :
  (forall a, o = Ret a -> stable I (k a)) -> stable I (bind (lift o) k).
Proof.
  intros Hk w H. unfold bind, lift. destruct o as [a | e]; [| exact H].
  exact (Hk a eq_refl w H).
Qed.

End Stable.

Lemma stable_update_frame {X : Type} (p : t -> X) (P : X -> Prop) (f : t -> t) :
  frames p f -> stable (fun w => P (p (self w))) (update f).
Proof. intros Hf w H. cbn. rewrite Hf. exact H. Qed.

Lemma stable_dvm_do {X : Type} (p : t -> X) (P : X -> Prop) (f : DevMem.t -> DevMem.t) :
  frames p (fun s => with_lase_base (Lase.with_dvm (f (Lase.dvm (lase_base s))) (lase_base s)) s) ->
  stable (fun w => P (p (self w))) (dvm_do f).
Proof. intros Hf. apply (stable_update_frame p P), Hf. Qed.

Lemma stable_rand_frame {X : Type} (p : t -> X) (P : X -> Prop) (k : nat) :
  stable (fun w => P (p (self w))) (np_random_rand k).
Proof. intros w H. exact H. Qed.

Ltac frame := intros ?; reflexivity.

(** One step of a proof that a method keeps [P (p (self w))]. *)
Ltac stable_step p P :=
  first
    [ apply stable_ret | apply stable_raise | apply stable_lift
    | apply stable_attr | apply stable_getattr
    | apply (stable_rand_frame p P)
    | apply stable_for_range
    | apply (stable_dvm_do p P); frame
    | apply (stable_update_frame p P); frame
    | apply stable_bind; [| intros ?]
    | match goal with
      | |- stable _ (if ?b then _ else _) => destruct b
      | |- stable _ (match ?x with _ => _ end) => destruct x
      | |- stable _ (let '(_, _) := ?x in _) => destruct x
      end ].

Section FailureFlag.

Variable b : option bool.

Ltac flag_step := stable_step _is_failed (fun x : option bool => x = b \/ x = Some true).

Lemma set_averaging_flag (on : bool) : stable (flag_kept b) (set_averaging on).
Proof. unfold set_averaging. repeat flag_step. Qed.

Lemma read_channel_flag (c : Z) (window : t -> Z) :
  stable (flag_kept b) (read_channel c window).
Proof. unfold read_channel, DevMem.read_buffer. repeat flag_step. Qed.

Lemma subtract_offset_flag (c : Z) : stable (flag_kept b) (subtract_offset c).
Proof. unfold subtract_offset. repeat flag_step. Qed.

Lemma apply_gain_flag (c : Z) : stable (flag_kept b) (apply_gain c).
Proof. unfold apply_gain. repeat flag_step. Qed.

Lemma get_adc_flag : stable (flag_kept b) get_adc.
Proof.
  unfold get_adc.
  repeat first
    [ apply read_channel_flag | apply subtract_offset_flag | apply apply_gain_flag
    | (intros w _; right; reflexivity)
    | flag_step ].
Qed.

Lemma white_noise_spectrum_flag (n_freqs : Z) (n_stop : option Z) :
  stable (flag_kept b) (_white_noise_spectrum n_freqs n_stop).
Proof. unfold _white_noise_spectrum. repeat flag_step. Qed.

Lemma white_noise_flag (n_freqs : Z) (n_stop : option Z) :
  stable (flag_kept b) (_white_noise n_freqs n_stop).
Proof.
  unfold _white_noise.
  repeat first [ apply white_noise_spectrum_flag | flag_step ].
Qed.

Lemma call_set_dac_flag : stable (flag_kept b) call_set_dac.
Proof. unfold call_set_dac. repeat flag_step. Qed.

Lemma transfer_trial_flag (n_freqs cd ca : Z) :
  stable (flag_kept b) (transfer_trial n_freqs cd ca).
Proof.
  unfold transfer_trial.
  repeat first [ apply white_noise_flag | apply call_set_dac_flag
               | apply get_adc_flag | flag_step ].
Qed.

Lemma get_amplitude_transfer_function_flag (cd ca k : Z) :
  stable (flag_kept b) (get_amplitude_transfer_function cd ca k).
Proof.
  unfold get_amplitude_transfer_function.
  repeat first [ apply transfer_trial_flag | apply call_set_dac_flag | flag_step ].
Qed.

Lemma get_correction_flag : stable (flag_kept b) get_correction.
Proof. unfold get_correction. repeat flag_step. Qed.

Lemma optimize_amplitude_flag (alpha : float64) (channel : Z) :
  stable (flag_kept b) (optimize_amplitude alpha channel).
Proof.
  unfold optimize_amplitude. repeat first [ apply get_correction_flag | flag_step ].
Qed.

Lemma get_spectrum_flag : stable (flag_kept b) get_spectrum.
Proof. unfold get_spectrum. repeat flag_step. Qed.

Lemma avg_spectrum_step_flag : stable (flag_kept b) avg_spectrum_step.
Proof. unfold avg_spectrum_step. repeat first [ apply get_adc_flag | flag_step ]. Qed.

Lemma get_avg_spectrum_flag (k : Z) : stable (flag_kept b) (get_avg_spectrum k).
Proof.
  unfold get_avg_spectrum. repeat first [ apply avg_spectrum_step_flag | flag_step ].
Qed.

Lemma reset_flag (Lase_reset : Lase.t -> Lase.t) : stable (flag_kept b) (reset Lase_reset).
Proof. unfold reset. repeat first [ apply set_averaging_flag | flag_step ]. Qed.

Lemma exec_flag (Lase_reset : Lase.t -> Lase.t) (c : call) :
  stable (flag_kept b) (exec Lase_reset c).
Proof.
  destruct c; cbn [exec].
  - apply reset_flag.
  - apply set_averaging_flag.
  - apply get_adc_flag.
  - apply stable_bind; [apply white_noise_flag | intros _; apply stable_ret].
  - apply get_amplitude_transfer_function_flag.
  - apply stable_bind; [apply get_correction_flag | intros _; apply stable_ret].
  - apply optimize_amplitude_flag.
  - apply get_spectrum_flag.
  - apply get_avg_spectrum_flag.
  - unfold set_amplitude_transfer_function. flag_step.
Qed.

End FailureFlag.

(** The flag after construction. *)
Lemma init_flag (Lase_new : nat -> Lase.t) (Lase_reset : Lase.t -> Lase.t)
  (map_size : Z) (g : nat -> R) (pos : nat) :
  _is_failed (self (snd (__init__ Lase_new Lase_reset map_size g pos))) = None.
Proof.
  unfold __init__, DevMem.add_memory_map.
  match goal with |- _is_failed (self (snd (reset _ ?w))) = None =>
    destruct (reset_flag None Lase_reset w (or_introl eq_refl)) as [H | H];
      [exact H | ]
  end.
  exfalso. revert H. unfold reset, set_averaging. mstep. discriminate.
Qed.

(** ** The length of the transfer function *)

Lemma setitem_length {A : Type} (l l' : list A) (i : Z) (v : A) :
  setitem l i v = Ret l' -> length l' = length l.
Proof.
  unfold setitem. destruct (py_index (length l) i) as [k | e]; cbn [obind];
    [| discriminate].
  intros [= <-]. apply length_insert.
Qed.

Lemma broadcast_to_length {A : Type} (len : nat) (v v' : list A) :
  broadcast_to len v = Ret v' -> length v' = len.
Proof.
  unfold broadcast_to. destruct (Nat.eqb (length v) len) eqn:E.
  - intros [= <-]. apply Nat.eqb_eq, E.
  - destruct v as [| a [| b v]]; try discriminate.
    intros [= <-]. apply repeat_length.
Qed.

Lemma inplace_length {A B : Type} (f : A -> B -> A) (a r : list A) (b : list B) :
  inplace f a b = Ret r -> length r = length a.
Proof.
  unfold inplace. destruct (broadcast_to (length a) b) as [b' | e] eqn:E;
    cbn [obind]; [| discriminate].
  intros [= <-]. apply broadcast_to_length in E.
  rewrite length_zip_with. lia.
Qed.

Lemma stable_bind_at (I : World -> Prop) {A B : Type} (m : M A) (k : A -> M B)
  (w : World) :
  I (snd (m w)) -> (forall a, stable I (k a)) -> I (snd (bind m k w)).
Proof.
  intros Hm Hk. unfold bind.
  destruct (m w) as [[a | e] w']; cbn in *; [apply Hk, Hm | exact Hm].
Qed.

Section TransferLength.

Variable L : nat.

Ltac len_step :=
  stable_step amplitude_transfer_function (fun x : list complex => length x = L).

Lemma set_averaging_tf (on : bool) : stable (tf_length L) (set_averaging on).
Proof. unfold set_averaging. repeat len_step. Qed.

Lemma read_channel_tf (c : Z) (window : t -> Z) :
  stable (tf_length L) (read_channel c window).
Proof. unfold read_channel, DevMem.read_buffer. repeat len_step. Qed.

Lemma subtract_offset_tf (c : Z) : stable (tf_length L) (subtract_offset c).
Proof. unfold subtract_offset. repeat len_step. Qed.

Lemma apply_gain_tf (c : Z) : stable (tf_length L) (apply_gain c).
Proof. unfold apply_gain. repeat len_step. Qed.

Lemma get_adc_tf : stable (tf_length L) get_adc.
Proof.
  unfold get_adc.
  repeat first
    [ apply read_channel_tf | apply subtract_offset_tf | apply apply_gain_tf
    | len_step ].
Qed.

Lemma white_noise_spectrum_tf (n_freqs : Z) (n_stop : option Z) :
  stable (tf_length L) (_white_noise_spectrum n_freqs n_stop).
Proof. unfold _white_noise_spectrum. repeat len_step. Qed.

Lemma white_noise_tf (n_freqs : Z) (n_stop : option Z) :
  stable (tf_length L) (_white_noise n_freqs n_stop).
Proof.
  unfold _white_noise. repeat first [ apply white_noise_spectrum_tf | len_step ].
Qed.

Lemma call_set_dac_tf : stable (tf_length L) call_set_dac.
Proof. unfold call_set_dac. repeat len_step. Qed.

Lemma transfer_trial_tf (n_freqs cd ca : Z) :
  stable (tf_length L) (transfer_trial n_freqs cd ca).
Proof.
  unfold transfer_trial.
  apply stable_bind; [apply white_noise_tf | intros white_noise].
  apply stable_bind; [len_step | intros d].
  apply stable_bind; [len_step | intros d'].
  apply stable_bind; [len_step | intros _].
  apply stable_bind; [apply call_set_dac_tf | intros _].
  apply stable_bind; [apply get_adc_tf | intros _].
  apply stable_attr_bind. intros w H.
  unfold bind, attr, lift, update. cbn [fst snd].
  repeat match goal with
         | |- context [match ?o with Ret _ => _ | Raise _ => _ end] =>
             destruct o eqn:?; cbn [fst snd]
         end; try exact H.
  unfold tf_length in *. cbn.
  match goal with E : inplace _ _ _ = Ret _ |- _ => apply inplace_length in E end.
  congruence.
Qed.

Lemma get_amplitude_transfer_function_tf (cd ca k : Z) :
  stable (tf_length L) (get_amplitude_transfer_function cd ca k).
Proof.
  unfold get_amplitude_transfer_function.
  apply stable_bind; [len_step | intros s].
  apply stable_attr_bind. intros w H.
  apply stable_bind_at.
  { unfold tf_length in *. cbn. rewrite length_map. exact H. }
  intros _.
  apply stable_bind; [apply stable_for_range, transfer_trial_tf | intros _].
  apply stable_attr_bind. intros w1 H1.
  apply stable_bind_at.
  { unfold tf_length in *. cbn. rewrite length_map. exact H1. }
  intros _.
  apply stable_attr_bind. intros w2 H2.
  unfold bind at 1, lift at 1.
  destruct (setitem _ _ _) as [tf' | e] eqn:E; [| exact H2].
  apply stable_bind_at.
  { unfold tf_length in *. cbn. apply setitem_length in E. congruence. }
  intros _.
  repeat first [ apply call_set_dac_tf | len_step ].
Qed.

Lemma get_correction_tf : stable (tf_length L) get_correction.
Proof. unfold get_correction. repeat len_step. Qed.

Lemma optimize_amplitude_tf (alpha : float64) (channel : Z) :
  stable (tf_length L) (optimize_amplitude alpha channel).
Proof.
  unfold optimize_amplitude. repeat first [ apply get_correction_tf | len_step ].
Qed.

Lemma get_spectrum_tf : stable (tf_length L) get_spectrum.
Proof. unfold get_spectrum. repeat len_step. Qed.

Lemma avg_spectrum_step_tf : stable (tf_length L) avg_spectrum_step.
Proof. unfold avg_spectrum_step. repeat first [ apply get_adc_tf | len_step ]. Qed.

Lemma get_avg_spectrum_tf (k : Z) : stable (tf_length L) (get_avg_spectrum k).
Proof.
  unfold get_avg_spectrum. repeat first [ apply avg_spectrum_step_tf | len_step ].
Qed.

Lemma reset_tf (Lase_reset : Lase.t -> Lase.t) : stable (tf_length L) (reset Lase_reset).
Proof. unfold reset. repeat first [ apply set_averaging_tf | len_step ]. Qed.

End TransferLength.

Lemma init_transfer_function (Lase_new : nat -> Lase.t) (Lase_reset : Lase.t -> Lase.t)
  (map_size : Z) (g : nat -> R) (pos : nat) :
  amplitude_transfer_function (self (snd (__init__ Lase_new Lase_reset map_size g pos)))
  = repeat cone (Sampling.n (Lase.sampling (Lase_new (Z.to_nat 8192)))).
Proof. reflexivity. Qed.

(** C9, as the code has it.  Construction gives the transfer function one
    entry, equal to 1, per point of the base driver's sampling grid;
    [set_amplitude_transfer_function] installs the array it is given, whatever
    its length; every other operation, the estimation included, leaves the
    length as it is, whether it returns or raises. *)
Theorem transfer_function_length
  (Lase_new : nat -> Lase.t) (Lase_reset : Lase.t -> Lase.t) :
  (forall map_size g pos,
     length (amplitude_transfer_function
               (self (snd (__init__ Lase_new Lase_reset map_size g pos))))
     = Sampling.n (Lase.sampling (Lase_new (Z.to_nat 8192)))) /\
  (forall c w,
     length (amplitude_transfer_function (self (snd (exec Lase_reset c w)))) =
     match c with
     | SetAmplitudeTransferFunction v => length v
     | _ => length (amplitude_transfer_function (self w))
     end).
Proof.
  split.
  - intros. rewrite init_transfer_function. apply repeat_length.
  - intros c w.
    assert (H : tf_length (length (amplitude_transfer_function (self w))) w)
      by reflexivity.
    destruct c; cbn [exec].
    + apply reset_tf, H.
    + apply set_averaging_tf, H.
    + apply get_adc_tf, H.
    + exact (stable_bind (tf_length _) _ _ (white_noise_tf _ _ _)
               (fun _ => stable_ret _ _) w H).
    + apply get_amplitude_transfer_function_tf, H.
    + exact (stable_bind (tf_length _) _ _ (get_correction_tf _)
               (fun _ => stable_ret _ _) w H).
    + apply optimize_amplitude_tf, H.
    + apply get_spectrum_tf, H.
    + apply get_avg_spectrum_tf, H.
    + reflexivity.
Qed.

(** C9 refuted.  On the simulated base driver (sample depth and sampling grid
    of 8192 points) the transfer function has 8192 entries after construction,
    not 8192/2+1, and none after the caller has installed an empty array. *)
Lemma transfer_function_length_counterexample :
  Lase.n (lase_base (self (Sim.fresh Sim.zeros 0))) = Z.to_nat 8192 /\
  length (amplitude_transfer_function (self (Sim.fresh Sim.zeros 0)))
  = Z.to_nat 8192 /\
  length (amplitude_transfer_function (self (Sim.fresh Sim.zeros 0)))
  <> (Lase.n (lase_base (self (Sim.fresh Sim.zeros 0))) / 2 + 1)%nat /\
  length (amplitude_transfer_function
            (self (snd (set_amplitude_transfer_function [] (Sim.fresh Sim.zeros 0)))))
  = 0%nat.
Proof.
  assert (En : Lase.n (lase_base (self (Sim.fresh Sim.zeros 0))) = Z.to_nat 8192)
    by reflexivity.
  assert (El : length (amplitude_transfer_function (self (Sim.fresh Sim.zeros 0)))
               = Z.to_nat 8192).
  { unfold Sim.fresh. rewrite init_transfer_function. apply repeat_length. }
  split; [exact En |]. split; [exact El |]. split; [| reflexivity].
  rewrite El, En. intros E. apply (f_equal Z.of_nat) in E.
  rewrite Nat2Z.inj_add, Nat2Z.inj_div, Z2Nat.id in E by lia.
  discriminate E.
Qed.

(** ** The transforms *)

Lemma length_dft (sgn : R) (x : list complex) : length (dft sgn x) = length x.
Proof. unfold dft. rewrite length_map, length_seq. reflexivity. Qed.

Lemma np_fft_fft_ok (x : list complex) :
  (0 < length x)%nat -> np_fft_fft x = Ret (dft (-1) x).
Proof. destruct x; cbn [length]; [lia | reflexivity]. Qed.

Lemma np_fft_ifft_ok (x : list complex) :
  (0 < length x)%nat ->
  np_fft_ifft x = Ret (map (cscale (Fin (/ INR (length x)))) (dft 1 x)).
Proof. destruct x; cbn [length]; [lia | reflexivity]. Qed.

Lemma length_hermitian_ext (x : list complex) :
  (2 <= length x)%nat -> length (hermitian_ext x) = (2 * (length x - 1))%nat.
Proof.
  destruct x as [| x0 rest]; cbn [length]; [lia |]. intros H.
  unfold hermitian_ext. cbn [length].
  rewrite !length_app, length_rev, length_map. cbn [length].
  assert (E : length (removelast rest) = (length rest - 1)%nat).
  { destruct rest as [| y rest] using rev_ind; [cbn in H; lia |].
    rewrite removelast_last, length_app. cbn. lia. }
  rewrite E. lia.
Qed.

Lemma np_fft_irfft_ok (x : list complex) :
  (2 <= length x)%nat ->
  np_fft_irfft x =
  Ret (map cre (map (cscale (Fin (/ INR (length (hermitian_ext x)))))
                  (dft 1 (hermitian_ext x)))).
Proof.
  intros H. pose proof (length_hermitian_ext x H) as E.
  destruct x as [| a [| b x]]; cbn [length] in H; try lia.
  unfold np_fft_irfft. rewrite np_fft_ifft_ok by (rewrite E; cbn [length]; lia).
  reflexivity.
Qed.

Lemma setitem_ok {A : Type} (l : list A) (i : nat) (v : A) :
  (i < length l)%nat -> setitem l (Z.of_nat i) v = Ret (<[i := v]> l).
Proof.
  intros H. unfold setitem, py_index.
  replace (0 <=? Z.of_nat i)%Z with true by (symmetry; apply Z.leb_le; lia).
  replace (Z.of_nat i <? Z.of_nat (length l))%Z with true
    by (symmetry; apply Z.ltb_lt; lia).
  cbn [andb obind]. rewrite Nat2Z.id. reflexivity.
Qed.

Lemma length_fill_slice {A : Type} (l : list A) (stop : Z) (v : A) :
  length (fill_slice l stop v) = length l.
Proof.
  unfold fill_slice. rewrite length_app, repeat_length, length_drop. lia.
Qed.

(** ** The probe generator *)

#[local] Arguments np_fft_fft : simpl never.
#[local] Arguments np_fft_ifft : simpl never.
#[local] Arguments np_fft_irfft : simpl never.
#[local] Arguments setitem : simpl never.
#[local] Arguments np_max : simpl never.
#[local] Arguments fill_slice : simpl never.
#[local] Arguments np_zeros : simpl never.
#[local] Arguments dft : simpl never.
#[local] Arguments hermitian_ext : simpl never.
#[local] Arguments Z.of_nat : simpl never.
#[local] Arguments Z.to_nat : simpl never.
#[local] Arguments Nat.div : simpl never.

Lemma length_phased (w : World) (k : nat) : length (phased w k) = k.
Proof.
  unfold phased. rewrite length_zip_with, length_fill_slice, !length_map, length_seq.
  unfold np_zeros. rewrite repeat_length. lia.
Qed.

Lemma length_respectrum (w : World) (k : nat) :
  (2 <= k)%nat -> length (respectrum w k) = (2 * (k - 1))%nat.
Proof.
  intros H. unfold respectrum.
  rewrite length_dft, !length_map, length_dft, length_hermitian_ext;
    rewrite length_phased; lia.
Qed.

(** With the [sampling] attribute in place and bin [n/2] within the
    [2 * (n_freqs - 1)] bins of the spectrum, the spectrum of the generator is
    computed, with bin 0 and then bin [n/2] written. *)
Lemma white_noise_spectrum_ok (w : World) (samp : Sampling.t) (m : nat) :
  sampling (self w) = Some samp ->
  (1 <= m)%nat ->
  let p := (Sampling.n samp / 2)%nat in
  (p < 2 * m)%nat ->
  _white_noise_spectrum (Z.of_nat m + 1) None w =
  (Ret (<[p := RtoC (Fin 1)]> (<[0%nat := RtoC (Fin 0.01)]> (respectrum w (S m)))),
   mkWorld (self w) (np_random w) (np_random_pos w + S m)%nat).
Proof.
  intros Hs Hm p Hp.
  assert (Ek : Z.to_nat (Z.of_nat m + 1) = S m) by lia.
  unfold _white_noise_spectrum.
  replace (Z.of_nat m + 1 <? 0)%Z with false by (symmetry; apply Z.ltb_ge; lia).
  rewrite Ek.
  replace (Z.of_nat m + 1)%Z with (Z.of_nat (S m)) by lia.
  cbv [bind lift np_random_rand]. cbn [fst snd].
  fold (phased w (S m)).
  rewrite np_fft_irfft_ok by (rewrite length_phased; lia).
  cbv beta iota.
  rewrite np_fft_fft_ok
    by (rewrite !length_map, length_dft, length_hermitian_ext;
        rewrite length_phased; lia).
  cbv beta iota. fold (respectrum w (S m)).
  rewrite (setitem_ok _ 0) by (rewrite length_respectrum; lia).
  cbv beta iota. unfold getattr. cbn [self]. rewrite Hs.
  rewrite setitem_ok
    by (rewrite length_insert, length_respectrum by lia; fold p; lia).
  reflexivity.
Qed.

(** ** Sums of reals and the roots of unity *)

Lemma Rsum_from_ext (f g : nat -> R) (off n : nat) :
  (forall i, (off <= i < off + n)%nat -> f i = g i) ->
  Rsum_from f off n = Rsum_from g off n.
Proof.
  revert off. induction n as [| n IH]; intros off H; cbn [Rsum_from]; [reflexivity |].
  rewrite (H off) by lia. rewrite (IH (S off)); [reflexivity |].
  intros i Hi. apply H. lia.
Qed.

Lemma Rsum_from_plus (f g : nat -> R) (off n : nat) :
  Rsum_from (fun i => f i + g i) off n = Rsum_from f off n + Rsum_from g off n.
Proof.
  revert off. induction n as [| n IH]; intros off; cbn [Rsum_from]; [lra |].
  rewrite IH. lra.
Qed.

Lemma Rsum_from_scal (c : R) (f : nat -> R) (off n : nat) :
  Rsum_from (fun i => c * f i) off n = c * Rsum_from f off n.
Proof.
  revert off. induction n as [| n IH]; intros off; cbn [Rsum_from]; [lra |].
  rewrite IH. lra.
Qed.

Lemma Rsum_from_zero (off n : nat) : Rsum_from (fun _ => 0) off n = 0.
Proof.
  revert off. induction n as [| n IH]; intros off; cbn [Rsum_from]; [lra |].
  rewrite IH. lra.
Qed.

Lemma Rsum_from_last (f : nat -> R) (off n : nat) :
  Rsum_from f off (S n) = Rsum_from f off n + f (off + n)%nat.
Proof.
  revert off. induction n as [| n IH]; intros off.
  - cbn [Rsum_from]. rewrite Nat.add_0_r. lra.
  - change (Rsum_from f off (S (S n))) with (f off + Rsum_from f (S off) (S n)).
    rewrite IH. cbn [Rsum_from].
    replace (S off + n)%nat with (off + S n)%nat by lia. lra.
Qed.

Lemma Rsum_from_shift (f : nat -> R) (off n : nat) :
  Rsum_from f (S off) n = Rsum_from (fun i => f (S i)) off n.
Proof.
  revert off. induction n as [| n IH]; intros off; cbn [Rsum_from]; [reflexivity |].
  rewrite IH. reflexivity.
Qed.

Lemma Rsum_from_swap (F : nat -> nat -> R) (n m : nat) :
  Rsum_from (fun t => Rsum_from (fun k => F t k) 0 m) 0 n =
  Rsum_from (fun k => Rsum_from (fun t => F t k) 0 n) 0 m.
Proof.
  generalize 0%nat at 2 3 as off. induction n as [| n IH]; intros off.
  - cbn [Rsum_from]. symmetry. apply Rsum_from_zero.
  - cbn [Rsum_from]. rewrite IH.
    rewrite <- Rsum_from_plus. reflexivity.
Qed.

Lemma Rsum_from_all_zero (f : nat -> R) (off n : nat) :
  (forall i, (off <= i < off + n)%nat -> f i = 0) -> Rsum_from f off n = 0.
Proof.
  intros H. rewrite (Rsum_from_ext f (fun _ => 0) off n H). apply Rsum_from_zero.
Qed.

Lemma cos_2PI_nat (k : nat) : cos (2 * INR k * PI) = 1.
Proof.
  replace (2 * INR k * PI) with (0 + 2 * INR k * PI) by lra.
  rewrite cos_period. apply cos_0.
Qed.

Lemma sin_2PI_nat (k : nat) : sin (2 * INR k * PI) = 0.
Proof.
  replace (2 * INR k * PI) with (0 + 2 * INR k * PI) by lra.
  rewrite sin_period. apply sin_0.
Qed.

Lemma cos_lt_1 (x : R) : 0 < x < 2 * PI -> cos x < 1.
Proof.
  intros [H0 H1]. replace x with (2 * (x / 2)) by lra. rewrite cos_2a_sin.
  assert (Hs : 0 < sin (x / 2)) by (apply sin_gt_0; lra).
  nra.
Qed.

(** The roots of unity sum to zero: for [0 < k < N], the sums over [t < N]
    of [cos (2 pi t k / N)] and of [sin (2 pi t k / N)] vanish. *)
Lemma roots_of_unity_sum (N k : nat) :
  (0 < k < N)%nat ->
  Rsum_from (fun t => cos (angle N t k)) 0 N = 0 /\
  Rsum_from (fun t => sin (angle N t k)) 0 N = 0.
Proof.
  intros [Hk HN].
  assert (HNR : INR N <> 0) by (apply not_0_INR; lia).
  set (th := 2 * PI * INR k / INR N).
  assert (Ea : forall t, angle N t k = INR t * th)
    by (intros t; unfold angle, th; field; exact HNR).
  set (C := Rsum_from (fun t => cos (angle N t k)) 0 N).
  set (S := Rsum_from (fun t => sin (angle N t k)) 0 N).
  assert (Hth : 0 < th < 2 * PI).
  { unfold th. pose proof PI_RGT_0 as HP.
    assert (0 < INR k) by (apply lt_0_INR; lia).
    assert (0 < INR N) by (apply lt_0_INR; lia).
    assert (INR k < INR N) by (apply lt_INR; lia).
    split.
    - apply Rdiv_lt_0_compat; nra.
    - apply (Rmult_lt_reg_r (INR N)); [assumption |].
      unfold Rdiv. rewrite Rmult_assoc, Rinv_l by exact HNR. nra. }
  assert (HNth : INR N * th = 2 * INR k * PI) by (unfold th; field; exact HNR).
  (* The sums shifted by one step. *)
  assert (Hc : Rsum_from (fun t => cos (angle N (Datatypes.S t) k)) 0 N = C).
  { rewrite <- (Rsum_from_shift (fun t => cos (angle N t k))).
    pose proof (Rsum_from_last (fun t => cos (angle N t k)) 0 N) as HL.
    cbn [Rsum_from] in HL. rewrite Nat.add_0_l in HL.
    rewrite (Ea N), HNth, cos_2PI_nat in HL.
    rewrite (Ea 0%nat) in HL. cbn [INR] in HL. rewrite Rmult_0_l, cos_0 in HL.
    fold C in HL. lra. }
  assert (Hs : Rsum_from (fun t => sin (angle N (Datatypes.S t) k)) 0 N = S).
  { rewrite <- (Rsum_from_shift (fun t => sin (angle N t k))).
    pose proof (Rsum_from_last (fun t => sin (angle N t k)) 0 N) as HL.
    cbn [Rsum_from] in HL. rewrite Nat.add_0_l in HL.
    rewrite (Ea N), HNth, sin_2PI_nat in HL.
    rewrite (Ea 0%nat) in HL. cbn [INR] in HL. rewrite Rmult_0_l, sin_0 in HL.
    fold S in HL. lra. }
  (* The same sums by the addition formulas. *)
  assert (Hc' : Rsum_from (fun t => cos (angle N (Datatypes.S t) k)) 0 N
                = cos th * C - sin th * S).
  { unfold C, S. rewrite <- !Rsum_from_scal.
    replace (Rsum_from (fun i => cos th * cos (angle N i k)) 0 N
             - Rsum_from (fun i => sin th * sin (angle N i k)) 0 N)
      with (Rsum_from (fun i => cos th * cos (angle N i k)) 0 N
            + Rsum_from (fun i => -1 * (sin th * sin (angle N i k))) 0 N)
      by (rewrite (Rsum_from_scal (-1)); lra).
    rewrite <- Rsum_from_plus. apply Rsum_from_ext. intros t _.
    rewrite (Ea (Datatypes.S t)), (Ea t), S_INR.
    replace ((INR t + 1) * th) with (INR t * th + th) by lra.
    rewrite cos_plus. lra. }
  assert (Hs' : Rsum_from (fun t => sin (angle N (Datatypes.S t) k)) 0 N
                = cos th * S + sin th * C).
  { unfold C, S. rewrite <- !Rsum_from_scal, <- Rsum_from_plus.
    apply Rsum_from_ext. intros t _.
    rewrite (Ea (Datatypes.S t)), (Ea t), S_INR.
    replace ((INR t + 1) * th) with (INR t * th + th) by lra.
    rewrite sin_plus. lra. }
  pose proof (cos_lt_1 th Hth) as Hlt.
  pose proof (sin2_cos2 th) as Hsc. unfold Rsqr in Hsc.
  assert (E1 : (1 - cos th) * C = - sin th * S) by lra.
  assert (E2 : (1 - cos th) * S = sin th * C) by lra.
  assert (HC : (2 - 2 * cos th) * C = 0) by nra.
  assert (HS : (2 - 2 * cos th) * S = 0) by nra.
  split; nra.
Qed.

Lemma unit_root_sum (N : nat) :
  Rsum_from (fun t => cos (angle N t 0)) 0 N = INR N /\
  Rsum_from (fun t => sin (angle N t 0)) 0 N = 0.
Proof.
  assert (Ea : forall t, angle N t 0 = 0)
    by (intros t; unfold angle; cbn [INR]; unfold Rdiv; ring).
  split.
  - rewrite (Rsum_from_ext _ (fun _ => 1)) by (intros; rewrite Ea; apply cos_0).
    clear Ea. generalize 0%nat. induction N as [| N IH]; intros off.
    + reflexivity.
    + rewrite S_INR. cbn [Rsum_from]. rewrite IH. lra.
  - apply Rsum_from_all_zero. intros; rewrite Ea; apply sin_0.
Qed.

(** ** Finite values *)

Lemma cfin_eq (z : complex) : cfin z -> z = (Fin (Rof (fst z)), Fin (Rof (snd z))).
Proof.
  destruct z as [[| s | a] [| s' | b]]; intros [H1 H2]; try discriminate.
  reflexivity.
Qed.

Lemma cfin_Fin (a b : R) : cfin (Fin a, Fin b).
Proof. split; reflexivity. Qed.

Lemma csum_fin (l : list complex) :
  Forall cfin l ->
  csum l = (Fin (Rsum_from (fun j => Rof (fst (nth j l czero))) 0 (length l)),
            Fin (Rsum_from (fun j => Rof (snd (nth j l czero))) 0 (length l))).
Proof.
  induction l as [| z l IH]; intros H; [reflexivity |].
  inversion H as [| ? ? Hz Hl]; subst.
  unfold csum in *. cbn [fold_right length Rsum_from nth].
  rewrite (IH Hl), (cfin_eq z Hz). cbn [cadd fst snd Rof].
  rewrite !Rsum_from_shift. reflexivity.
Qed.

Lemma nth_imap {A B : Type} (f : nat -> A -> B) (l : list A) (j : nat) (d : A) (e : B) :
  (j < length l)%nat -> nth j (imap f l) e = f j (nth j l d).
Proof.
  intros H. rewrite !nth_lookup, list_lookup_imap.
  destruct (lookup_lt_is_Some_2 l j H) as [x Hx]. rewrite Hx. reflexivity.
Qed.

(** A bin of the transform of finite values, as two real sums. *)
Lemma dft_bin_fin (sgn : R) (x : list complex) (k : nat) :
  Forall cfin x ->
  dft_bin sgn x k =
  (Fin (Rsum_from (fun j => Rof (fst (nth j x czero)) * cos (angle (length x) k j)
                            - Rof (snd (nth j x czero)) * (sgn * sin (angle (length x) k j)))
          0 (length x)),
   Fin (Rsum_from (fun j => Rof (fst (nth j x czero)) * (sgn * sin (angle (length x) k j))
                            + Rof (snd (nth j x czero)) * cos (angle (length x) k j))
          0 (length x))).
Proof.
  intros H. unfold dft_bin.
  assert (Hf : Forall cfin
                 (imap (fun j xj => cmul xj (twiddle sgn (length x) k j)) x)).
  { apply Forall_forall. intros z Hz. apply list_elem_of_lookup in Hz.
    destruct Hz as [j Hj]. rewrite list_lookup_imap in Hj.
    destruct (x !! j) as [xj |] eqn:E; [| discriminate]. injection Hj as <-.
    assert (Hx : cfin xj)
      by (eapply Forall_forall; [exact H | eapply list_elem_of_lookup_2, E]).
    rewrite (cfin_eq xj Hx). apply cfin_Fin. }
  rewrite (csum_fin _ Hf), length_imap.
  f_equal; f_equal; apply Rsum_from_ext; intros j Hj;
    rewrite (nth_imap _ _ _ czero) by lia;
    assert (Hx : cfin (nth j x czero))
      by (eapply Forall_forall; [exact H | apply list_elem_of_In, nth_In; lia]);
    rewrite (cfin_eq _ Hx); reflexivity.
Qed.

Lemma dft_fin (sgn : R) (x : list complex) : Forall cfin x -> Forall cfin (dft sgn x).
Proof.
  intros H. unfold dft. apply List.Forall_map, Forall_true. intros k.
  rewrite (dft_bin_fin sgn x k H). apply cfin_Fin.
Qed.

Lemma Forall_cfin_zip_with {A B : Type} (f : A -> B -> complex)
  (P : A -> Prop) (Q : B -> Prop) (l : list A) (k : list B) :
  (forall a b, P a -> Q b -> cfin (f a b)) ->
  Forall P l -> Forall Q k -> Forall cfin (zip_with f l k).
Proof.
  intros Hf Hl. revert k. induction Hl as [| a l Ha Hl IH]; intros k Hk;
    [constructor |].
  destruct Hk as [| b k Hb Hk]; cbn [zip_with]; constructor; auto.
Qed.

Lemma fill_slice_finite (k : nat) (stop : Z) :
  Forall (fun a => isfinite a = true) (fill_slice (np_zeros k) stop (Fin 1)).
Proof.
  unfold fill_slice, np_zeros. apply Forall_app. split.
  - apply Forall_forall. intros x Hx. apply list_elem_of_In, repeat_spec in Hx.
    subst. reflexivity.
  - apply Forall_drop, Forall_forall. intros x Hx.
    apply list_elem_of_In, repeat_spec in Hx. subst. reflexivity.
Qed.

Lemma phased_fin (w : World) (k : nat) : Forall cfin (phased w k).
Proof.
  unfold phased.
  apply (Forall_cfin_zip_with _ (fun a => isfinite a = true) (fun p => isfinite p = true)).
  - intros [| s | a] [| s' | p] Ha Hp; try discriminate. apply cfin_Fin.
  - apply fill_slice_finite.
  - rewrite map_map. apply List.Forall_map, Forall_true. intros i. reflexivity.
Qed.

Lemma Forall_removelast {A : Type} (P : A -> Prop) (l : list A) :
  Forall P l -> Forall P (removelast l).
Proof.
  intros H. destruct l as [| x l] using rev_ind; [constructor |].
  rewrite removelast_last. apply Forall_app in H. apply H.
Qed.

Lemma last_cfin (l : list complex) : Forall cfin l -> cfin (List.last l czero).
Proof.
  intros H. destruct l as [| x l] using rev_ind; [apply cfin_Fin |].
  rewrite last_last. apply Forall_app in H. destruct H as [_ H].
  inversion H; assumption.
Qed.

Lemma RtoC_fst_cfin (z : complex) : cfin z -> cfin (RtoC (fst z)).
Proof. intros [H _]. split; [exact H | reflexivity]. Qed.

Lemma cconj_cfin (z : complex) : cfin z -> cfin (cconj z).
Proof. intros H. rewrite (cfin_eq z H). apply cfin_Fin. Qed.

Lemma hermitian_ext_fin (x : list complex) :
  Forall cfin x -> Forall cfin (hermitian_ext x).
Proof.
  intros H. destruct x as [| x0 rest]; [constructor |].
  inversion H as [| ? ? H0 Hr]; subst. unfold hermitian_ext.
  constructor; [apply RtoC_fst_cfin, H0 |].
  apply Forall_app. split; [apply Forall_removelast, Hr |].
  apply Forall_app. split.
  - constructor; [apply RtoC_fst_cfin, last_cfin, Hr | constructor].
  - apply Forall_rev, List.Forall_map.
    eapply Forall_impl; [apply Forall_removelast, Hr |].
    intros z Hz. apply cconj_cfin, Hz.
Qed.

Lemma cscale_cfin (c : R) (z : complex) : cfin z -> cfin (cscale (Fin c) z).
Proof. intros H. rewrite (cfin_eq z H). apply cfin_Fin. Qed.

Lemma respectrum_fin (w : World) (k : nat) : Forall cfin (respectrum w k).
Proof.
  unfold respectrum. apply dft_fin.
  rewrite !map_map. apply List.Forall_map.
  eapply Forall_impl; [apply dft_fin, hermitian_ext_fin, phased_fin |].
  intros z Hz. apply RtoC_fst_cfin, cscale_cfin, Hz.
Qed.

Lemma Rsum_from_head (f : nat -> R) (n : nat) :
  (0 < n)%nat -> Rsum_from f 0 n = f 0%nat + Rsum_from f 1 (n - 1).
Proof.
  intros H. destruct n as [| n]; [lia |]. cbn [Rsum_from].
  replace (S n - 1)%nat with n by lia. reflexivity.
Qed.

(** The sum of the real parts of an inverse transform is the real part of
    bin 0. *)
Lemma ifft_re_sum (X : list complex) :
  Forall cfin X ->
  (0 < length X)%nat ->
  Rsum_from (fun t => Rof (cre (cscale (Fin (/ INR (length X))) (dft_bin 1 X t))))
    0 (length X)
  = Rof (fst (nth 0 X czero)).
Proof.
  intros HX HN. set (N := length X) in *.
  assert (HNR : INR N <> 0) by (apply not_0_INR; lia).
  rewrite (Rsum_from_ext _
    (fun t => / INR N *
       Rsum_from (fun j => Rof (fst (nth j X czero)) * cos (angle N t j)
                           + - Rof (snd (nth j X czero)) * sin (angle N t j)) 0 N)).
  2:{ intros t _. rewrite (dft_bin_fin 1 X t HX). fold N. cbv [cscale cre fst snd fmul Rof].
      f_equal. apply Rsum_from_ext. intros j _. lra. }
  rewrite Rsum_from_scal, Rsum_from_swap.
  rewrite (Rsum_from_ext _
    (fun j => Rof (fst (nth j X czero)) * Rsum_from (fun t => cos (angle N t j)) 0 N
              + - Rof (snd (nth j X czero)) * Rsum_from (fun t => sin (angle N t j)) 0 N)).
  2:{ intros j _. rewrite Rsum_from_plus, !Rsum_from_scal. reflexivity. }
  rewrite Rsum_from_head by exact HN.
  destruct (unit_root_sum N) as [Hc Hs]. rewrite Hc, Hs.
  rewrite Rsum_from_all_zero.
  - field. exact HNR.
  - intros j Hj. destruct (roots_of_unity_sum N j) as [Hc' Hs']; [lia |].
    rewrite Hc', Hs'. lra.
Qed.

(** ** The peak of a finite waveform *)

Lemma fold_fmax_fin (rs : list R) (m : R) :
  fold_left fmax (map fabs (map Fin rs)) (Fin m) =
  Fin (fold_left Rmax (map Rabs rs) m).
Proof.
  revert m. induction rs as [| r rs IH]; intros m; [reflexivity |].
  cbn [map fold_left fabs fmax]. apply IH.
Qed.

Lemma fold_Rmax_ge_init (l : list R) (m : R) : m <= fold_left Rmax l m.
Proof.
  revert m. induction l as [| x l IH]; intros m; cbn [fold_left]; [lra |].
  eapply Rle_trans; [apply (Rmax_l m x) | apply IH].
Qed.

Lemma fold_Rmax_ge_elem (l : list R) (m x : R) : In x l -> x <= fold_left Rmax l m.
Proof.
  revert m. induction l as [| y l IH]; intros m; [intros [] |].
  intros [-> | H]; cbn [fold_left].
  - eapply Rle_trans; [apply (Rmax_r m x) | apply fold_Rmax_ge_init].
  - apply IH, H.
Qed.

Lemma Rsum_from_nonzero (f : nat -> R) (off n : nat) :
  Rsum_from f off n <> 0 -> exists t, (off <= t < off + n)%nat /\ f t <> 0.
Proof.
  revert off. induction n as [| n IH]; intros off H; cbn [Rsum_from] in H;
    [contradiction H; reflexivity |].
  destruct (Req_dec_T (f off) 0) as [Z | Z].
  - destruct (IH (S off)) as (t & Ht & Hnz); [rewrite Z in H; lra |].
    exists t. split; [lia | exact Hnz].
  - exists off. split; [lia | exact Z].
Qed.

(** A finite waveform that does not sum to zero, divided by 1.7 times its
    peak: every sample is finite and at most [1/1.7] in absolute value. *)
Lemma normalised_peak (rs : list R) :
  Rsum_from (fun t => nth t rs 0) 0 (length rs) <> 0 ->
  exists peak,
    np_max (map fabs (map Fin rs)) = Ret peak /\
    Forall (fun v => exists r, v = Fin r /\ Rabs r <= 1 / 1.7)
      (map (fun x => fdiv x (fmul (Fin 1.7) peak)) (map Fin rs)).
Proof.
  intros Hsum. destruct (Rsum_from_nonzero _ _ _ Hsum) as (t & Ht & Hnz).
  assert (Ht' : (t < length rs)%nat) by lia. clear Ht.
  destruct rs as [| r0 rs'] eqn:E; [cbn in Ht'; lia |].
  rewrite <- E in *.
  set (M := fold_left Rmax (map Rabs rs') (Rabs r0)).
  assert (HM : forall r, In r rs -> Rabs r <= M).
  { intros r Hr. rewrite E in Hr. destruct Hr as [<- | Hr].
    - apply fold_Rmax_ge_init.
    - apply fold_Rmax_ge_elem, in_map, Hr. }
  assert (Hpos : 0 < M).
  { pose proof (HM (nth t rs 0) (nth_In rs 0 Ht')) as H1.
    pose proof (Rabs_pos_lt _ Hnz). lra. }
  exists (Fin M). split.
  - rewrite E. cbv [np_max]. cbn [map fabs]. rewrite fold_fmax_fin. reflexivity.
  - rewrite map_map. apply List.Forall_map, Forall_forall. intros r Hr.
    apply list_elem_of_In in Hr. cbv [fmul].
    exists (r / (1.7 * M)). split; [apply fdiv_Fin; nra |].
    unfold Rdiv. rewrite Rabs_mult, (Rabs_pos_eq (/ (1.7 * M))).
    2:{ apply Rlt_le, Rinv_0_lt_compat. nra. }
    pose proof (HM r Hr) as Hle.
    assert (Hi : 0 < / (1.7 * M)) by (apply Rinv_0_lt_compat; nra).
    replace (1 * / 1.7) with (M * / (1.7 * M)) by (field; lra).
    apply Rmult_le_compat_r; lra.
Qed.

Lemma nth_map_seq {A : Type} (f : nat -> A) (n t : nat) (d : A) :
  (t < n)%nat -> nth t (map f (seq 0 n)) d = f t.
Proof.
  intros H. rewrite nth_lookup, list_lookup_fmap, lookup_seq_lt by exact H.
  reflexivity.
Qed.

(** The real part of an inverse transform of finite values, as finite
    samples that sum to the real part of bin 0. *)
Lemma ifft_real_part (X : list complex) :
  Forall cfin X ->
  (0 < length X)%nat ->
  exists rs,
    map cre (map (cscale (Fin (/ INR (length X)))) (dft 1 X)) = map Fin rs /\
    length rs = length X /\
    Rsum_from (fun t => nth t rs 0) 0 (length rs) = Rof (fst (nth 0 X czero)).
Proof.
  intros HX HN.
  exists (map (fun t => Rof (cre (cscale (Fin (/ INR (length X))) (dft_bin 1 X t))))
            (seq 0 (length X))).
  split; [| split].
  - unfold dft. rewrite !map_map. apply map_ext. intros t.
    rewrite (dft_bin_fin 1 X t HX). reflexivity.
  - rewrite length_map, length_seq. reflexivity.
  - rewrite length_map, length_seq. rewrite <- (ifft_re_sum X HX HN).
    apply Rsum_from_ext. intros t Ht.
    rewrite nth_lookup, list_lookup_fmap, lookup_seq_lt by lia. reflexivity.
Qed.

(** C6, as the code has it.  With the [sampling] attribute in place, [n] its
    number of points, and [n_freqs >= 2] such that bin [n/2] lies within the
    [2 * (n_freqs - 1)] bins of the spectrum: the generator returns a waveform
    of [2 * (n_freqs - 1)] samples, every one finite and at most [1/1.7] in
    absolute value, derived from a spectrum of that length whose bin [n/2] is
    1 and whose bin 0, when it is another bin, is 0.01; bin [n/2] is the
    Nyquist bin [n_freqs - 1] when [n_freqs = n/2 + 1], as the estimator
    passes it. *)
Theorem white_noise_probe (w : World) (samp : Sampling.t) (m : nat) :
  sampling (self w) = Some samp ->
  (1 <= m)%nat ->
  let p := (Sampling.n samp / 2)%nat in
  (p < 2 * m)%nat ->
  let n_freqs := (Z.of_nat m + 1)%Z in
  exists X wn w',
    _white_noise_spectrum n_freqs None w = (Ret X, w') /\
    length X = Z.to_nat (2 * (n_freqs - 1)) /\
    X !! p = Some (RtoC (Fin 1)) /\
    (p <> 0%nat -> X !! 0%nat = Some (RtoC (Fin 0.01))) /\
    (p = m -> X !! Z.to_nat (n_freqs - 1) = Some (RtoC (Fin 1))) /\
    _white_noise n_freqs None w = (Ret wn, w') /\
    length wn = Z.to_nat (2 * (n_freqs - 1)) /\
    Forall (fun v => exists r, v = Fin r /\ Rabs r <= 1 / 1.7) wn.
Proof.
  intros Hs Hm p Hp n_freqs.
  pose proof (white_noise_spectrum_ok w samp m Hs Hm Hp) as Hspec.
  fold p in Hspec. fold n_freqs in Hspec.
  set (X := <[p := RtoC (Fin 1)]> (<[0%nat := RtoC (Fin 0.01)]> (respectrum w (S m))))
    in *.
  assert (HL : length X = (2 * m)%nat).
  { unfold X. rewrite !length_insert, length_respectrum by lia. lia. }
  assert (HX : Forall cfin X).
  { unfold X. apply Forall_insert; [apply Forall_insert |]; try apply cfin_Fin.
    apply respectrum_fin. }
  assert (H1 : X !! p = Some (RtoC (Fin 1))).
  { unfold X. apply list_lookup_insert_eq.
    rewrite length_insert, length_respectrum by lia. lia. }
  assert (H0 : p <> 0%nat -> X !! 0%nat = Some (RtoC (Fin 0.01))).
  { intros Hp0. unfold X. rewrite list_lookup_insert_ne by lia.
    apply list_lookup_insert_eq. rewrite length_respectrum by lia. lia. }
  destruct (ifft_real_part X HX) as (rs & Ers & Lrs & Sum); [lia |].
  assert (Hnz : Rsum_from (fun t => nth t rs 0) 0 (length rs) <> 0).
  { rewrite Sum, nth_lookup. destruct (Nat.eq_dec p 0%nat) as [E0 | E0].
    - rewrite <- E0, H1. cbn. lra.
    - rewrite (H0 E0). cbn. lra. }
  destruct (normalised_peak rs Hnz) as (peak & Hpeak & Hbound).
  exists X, (map (fun x => fdiv x (fmul (Fin 1.7) peak)) (map Fin rs)),
    (mkWorld (self w) (np_random w) (np_random_pos w + S m)%nat).
  replace (Z.to_nat (2 * (n_freqs - 1))) with (2 * m)%nat by (unfold n_freqs; lia).
  replace (Z.to_nat (n_freqs - 1)) with m by (unfold n_freqs; lia).
  split; [exact Hspec |]. split; [exact HL |]. split; [exact H1 |].
  split; [exact H0 |]. split; [intros <-; exact H1 |].
  split; [| split; [| exact Hbound]].
  - unfold _white_noise. unfold bind at 1. rewrite Hspec.
    cbv [bind lift ret]. rewrite np_fft_ifft_ok by lia. cbv beta iota.
    rewrite Ers, Hpeak. reflexivity.
  - rewrite !length_map. lia.
Qed.

Lemma setitem_out_of_range {A : Type} (l : list A) (i : nat) (v : A) :
  (length l <= i)%nat -> setitem l (Z.of_nat i) v = Raise IndexError.
Proof.
  intros H. unfold setitem, py_index.
  replace (Z.of_nat i <? Z.of_nat (length l))%Z with false
    by (symmetry; apply Z.ltb_ge; lia).
  replace (Z.of_nat i <? 0)%Z with false by (symmetry; apply Z.ltb_ge; lia).
  rewrite !andb_false_r. reflexivity.
Qed.

(** When [n_freqs] is so small that bin [n/2] lies beyond the spectrum, the
    generator raises [IndexError] at line 94. *)
Lemma white_noise_out_of_range (w : World) (samp : Sampling.t) (k : nat) :
  sampling (self w) = Some samp ->
  (2 <= k)%nat ->
  (2 * (k - 1) <= Sampling.n samp / 2)%nat ->
  fst (_white_noise (Z.of_nat k) None w) = Raise IndexError.
Proof.
  intros Hs Hk Hn.
  unfold _white_noise, _white_noise_spectrum.
  replace (Z.of_nat k <? 0)%Z with false by (symmetry; apply Z.ltb_ge; lia).
  rewrite Nat2Z.id.
  cbv [bind lift np_random_rand]. cbn [fst snd].
  fold (phased w k).
  rewrite np_fft_irfft_ok by (rewrite length_phased; lia).
  cbv beta iota.
  rewrite np_fft_fft_ok
    by (rewrite !length_map, length_dft, length_hermitian_ext;
        rewrite length_phased; lia).
  cbv beta iota. fold (respectrum w k).
  rewrite (setitem_ok _ 0) by (rewrite length_respectrum; lia).
  cbv beta iota. unfold getattr. cbn [self]. rewrite Hs.
  rewrite setitem_out_of_range
    by (rewrite length_insert, length_respectrum; lia).
  reflexivity.
Qed.

Lemma attach_sampling (w : World) :
  sampling (self (Sim.attach w)) = Some (Lase.sampling (lase_base (self w))).
Proof. reflexivity. Qed.

(** The theorem on the simulated controller with the sampling grid attached
    (8192 points) and [n_freqs = 4097], as the estimator passes it. *)
Lemma white_noise_probe_witness :
  sampling (self (Sim.attach (Sim.fresh Sim.zeros 0)))
  = Some (Lase.sampling (lase_base (self (Sim.fresh Sim.zeros 0)))) /\
  (1 <= 4096)%nat /\
  (Sampling.n (Lase.sampling (lase_base (self (Sim.fresh Sim.zeros 0)))) / 2
   < 2 * 4096)%nat /\
  exists wn,
    fst (_white_noise (Z.of_nat 4096 + 1) None (Sim.attach (Sim.fresh Sim.zeros 0)))
    = Ret wn /\
    Forall (fun v => exists r, v = Fin r /\ Rabs r <= 1 / 1.7) wn.
Proof.
  assert (Hs : sampling (self (Sim.attach (Sim.fresh Sim.zeros 0)))
               = Some (Lase.sampling (lase_base (self (Sim.fresh Sim.zeros 0)))))
    by reflexivity.
  assert (Hm : (1 <= 4096)%nat) by lia.
  assert (Hp : (Sampling.n (Lase.sampling (lase_base (self (Sim.fresh Sim.zeros 0)))) / 2
                < 2 * 4096)%nat)
    by (apply Nat.ltb_lt; reflexivity).
  split; [exact Hs |]. split; [exact Hm |]. split; [exact Hp |].
  destruct (white_noise_probe _ _ 4096 Hs Hm Hp)
    as (X & wn & w' & _ & _ & _ & _ & _ & E & _ & B).
  exists wn. split; [rewrite E; reflexivity | exact B].
Defined.

(** C6 refuted.  On the simulated controller with its sampling grid of 8192
    points attached, the generator asked for [n_freqs = 2] raises
    [IndexError]: its spectrum has two bins and line 94 writes bin 4096. *)
Lemma white_noise_probe_counterexample :
  sampling (self (Sim.attach (Sim.fresh Sim.zeros 0)))
  = Some (Lase.sampling (lase_base (self (Sim.fresh Sim.zeros 0)))) /\
  Sampling.n (Lase.sampling (lase_base (self (Sim.fresh Sim.zeros 0)))) = Z.to_nat 8192 /\
  fst (_white_noise 2 None (Sim.attach (Sim.fresh Sim.zeros 0))) = Raise IndexError.
Proof.
  split; [reflexivity |]. split; [reflexivity |].
  apply (white_noise_out_of_range _ _ 2 (attach_sampling _)); [lia |].
  apply Nat.leb_le. reflexivity.
Qed.

(** ** Spectra *)

Lemma fft_rows_ok (r0 r1 : list float64) :
  (0 < length r0)%nat -> (0 < length r1)%nat ->
  fft_rows [r0; r1] = Ret [dft (-1) (map RtoC r0); dft (-1) (map RtoC r1)].
Proof.
  intros H0 H1. unfold fft_rows. cbn [mapM].
  rewrite !np_fft_fft_ok by (rewrite length_map; assumption). reflexivity.
Qed.

Lemma acquired_adc (w : World) :
  exists r0 r1,
    adc (self (acquired w)) = [r0; r1] /\
    length r0 = Lase.n (lase_base (self w)) /\
    length r1 = Lase.n (lase_base (self w)).
Proof.
  unfold acquired. destruct (reception_fault w); eexists; eexists;
    (split; [reflexivity |]); rewrite ?length_map, !capture_length; auto.
Qed.

Lemma fadd_zero_div_one (x : float64) : fdiv (fadd (Fin 0) x) (of_int 1) = x.
Proof.
  destruct x as [| s | r]; [reflexivity | |].
  - unfold fadd, fdiv, of_int. rewrite Rnegb_false by (simpl; lra).
    destruct s; reflexivity.
  - unfold fadd, of_int. rewrite fdiv_Fin by (simpl; lra).
    f_equal. simpl. field.
Qed.

Lemma map_fadd_fdiv (l : list float64) :
  map (fun x => fdiv x (of_int 1)) (map (fadd (Fin 0)) l) = l.
Proof.
  induction l as [| x l IH]; [reflexivity |].
  cbn [map]. rewrite fadd_zero_div_one, IH. reflexivity.
Qed.

Lemma inplace_zeros (h : nat) (l : list float64) :
  length l = h -> inplace fadd (np_zeros h) l = Ret (map (fadd (Fin 0)) l).
Proof.
  intros H. unfold inplace, np_zeros. rewrite repeat_length.
  rewrite broadcast_to_same by exact H. cbn [obind]. f_equal.
  subst h. induction l as [| x l IH]; [reflexivity |].
  cbn [length repeat zip_with map]. rewrite IH. reflexivity.
Qed.

(** The magnitude spectrum of one capture: what [get_avg_spectrum(1)] leaves
    in [avg_spectrum], and the state it leaves. *)
Lemma get_avg_spectrum_once (w : World) (samp : Sampling.t) :
  ready (self w) ->
  sampling (self w) = Some samp ->
  (Sampling.n samp / 2 <= Lase.n (lase_base (self w)))%nat ->
  get_avg_spectrum 1 w =
  (Ret tt,
   mkWorld
     (with_avg_spectrum
        (map (fun row => map cabs (take (Sampling.n samp / 2) (dft (-1) (map RtoC row))))
           (adc (self (acquired w))))
        (self (acquired w)))
     (np_random w) (np_random_pos w)).
Proof.
  intros Hr Hs Hh.
  set (h := (Sampling.n samp / 2)%nat) in *.
  set (wa := mkWorld (with_avg_spectrum (np_zeros2 2 h) (self w))
               (np_random w) (np_random_pos w)).
  assert (Hra : ready (self wa)) by exact Hr.
  assert (Ea : acquired wa =
               mkWorld (with_avg_spectrum (np_zeros2 2 h) (self (acquired w)))
                 (np_random w) (np_random_pos w)).
  { unfold acquired.
    change (reception_fault wa) with (reception_fault w).
    destruct (reception_fault w); reflexivity. }
  destruct (acquired_adc w) as (r0 & r1 & Eadc & L0 & L1).
  destruct Hr as (_ & Hn & _).
  unfold get_avg_spectrum. change (Z.to_nat 1) with 1%nat.
  cbn [for_range]. unfold avg_spectrum_step.
  unfold bind at 1, getattr at 1. rewrite Hs.
  unfold bind at 1, update at 1. fold h. fold wa.
  unfold bind at 1. unfold bind at 1. unfold bind at 1.
  rewrite (get_adc_acquired wa Hra), Ea.
  cbv [bind attr lift getattr update ret]. cbn [self adc with_avg_spectrum sampling avg_spectrum fst snd].
  rewrite Eadc. rewrite fft_rows_ok by lia.
  cbv beta iota.
  assert (Es : sampling (self (acquired w)) = Some samp).
  { unfold acquired. destruct (reception_fault w); exact Hs. }
  rewrite Es. fold h.
  unfold inplace2, np_zeros2. cbn [repeat length map].
  rewrite broadcast_to_same by reflexivity. cbn [obind inplace_rows].
  rewrite !inplace_zeros
    by (rewrite length_take, length_map, length_dft, length_map; lia).
  cbn [obind]. cbv beta iota. cbn [np_random np_random_pos self].
  f_equal. f_equal.
  change (with_avg_spectrum ?a (with_avg_spectrum ?b (with_avg_spectrum ?c ?s)))
    with (with_avg_spectrum a s).
  f_equal. cbn [avg_spectrum with_avg_spectrum map].
  rewrite !map_fadd_fdiv. f_equal; [| f_equal]; symmetry; apply fmap_take.
Qed.

Lemma get_spectrum_acquired (w : World) (samp : Sampling.t) :
  ready (self w) ->
  sampling (self w) = Some samp ->
  get_spectrum (acquired w) =
  (Ret tt,
   mkWorld
     (with_spectrum
        (map (fun row => take (Sampling.n samp / 2) (dft (-1) (map RtoC row)))
           (adc (self (acquired w))))
        (self (acquired w)))
     (np_random w) (np_random_pos w)).
Proof.
  intros Hr Hs.
  destruct (acquired_adc w) as (r0 & r1 & Eadc & L0 & L1).
  destruct Hr as (_ & Hn & _).
  assert (Es : sampling (self (acquired w)) = Some samp).
  { unfold acquired. destruct (reception_fault w); exact Hs. }
  assert (Eg : np_random (acquired w) = np_random w /\
               np_random_pos (acquired w) = np_random_pos w).
  { unfold acquired. destruct (reception_fault w); split; reflexivity. }
  destruct Eg as [Eg Ep].
  unfold get_spectrum. cbv [bind attr lift getattr update ret].
  rewrite Eadc, fft_rows_ok by lia. cbv beta iota. rewrite Es, Eg, Ep.
  reflexivity.
Qed.

Lemma acquired_ready (w : World) : ready (self w) -> ready (self (acquired w)).
Proof.
  intros (Hs & Hn & Ho & Hp & Hq).
  unfold ready, acquired.
  destruct (reception_fault w); cbn [self];
    (split; [| split; [exact Hn | split; [exact Ho | split; [exact Hp | exact Hq]]]]);
    (split; [reflexivity |]);
    repeat constructor; rewrite ?length_map, capture_length; reflexivity.
Qed.

Lemma setbit_clearbit_setbit (a n : Z) :
  (0 <= n)%Z -> Z.setbit (Z.clearbit (Z.setbit a n) n) n = Z.setbit a n.
Proof.
  intros Hn. apply Z.bits_inj'. intros m Hm.
  destruct (Z.eq_dec n m) as [-> | Hne].
  - rewrite !Z.setbit_eq by lia. reflexivity.
  - rewrite (Z.setbit_neq _ n m), (Z.clearbit_neq _ n m) by assumption.
    reflexivity.
Qed.

Lemma setbit_setbit (a n : Z) :
  (0 <= n)%Z -> Z.setbit (Z.setbit a n) n = Z.setbit a n.
Proof.
  intros Hn. apply Z.bits_inj'. intros m Hm.
  destruct (Z.eq_dec n m) as [-> | Hne].
  - rewrite !Z.setbit_eq by lia. reflexivity.
  - rewrite !(Z.setbit_neq _ n m) by assumption. reflexivity.
Qed.

(** The count a second acquisition reads is the count the first one read. *)
Lemma acquired_count (w : World) (a : list (list float64)) :
  averaging_count (with_avg_spectrum a (self (acquired w))) = averaging_count (self w).
Proof.
  unfold averaging_count, acquired, strobed, DevMem.read, DevMem.set_bit,
    DevMem.clear_bit.
  set (K := (Lase._config (lase_base (self w)), Lase._addr_off (lase_base (self w)))).
  set (K' := (Lase._status (lase_base (self w)), Lase._n_avg1_off (lase_base (self w)))).
  destruct (reception_fault w); cbn; repeat (unfold DevMem.word; cbn);
    fold K; fold K'; rewrite !lookup_insert_eq; cbn; unfold Datatypes.id;
    (destruct (decide (K = K')) as [<- | E];
     [ rewrite !lookup_insert_eq; cbn; unfold Datatypes.id;
       first [ apply setbit_setbit | apply setbit_clearbit_setbit ]; lia
     | rewrite !lookup_insert_ne by exact E; reflexivity ]).
Qed.

(** On a deterministic source a second acquisition captures what the first
    one did. *)
Lemma acquired_again (w : World) (a : list (list float64)) (g : nat -> R) (p : nat) :
  DevMem.deterministic (Lase.dvm (lase_base (self w))) ->
  adc (self (acquired (mkWorld (with_avg_spectrum a (self (acquired w))) g p)))
  = adc (self (acquired w)).
Proof.
  intros Hdet.
  set (w1 := mkWorld (with_avg_spectrum a (self (acquired w))) g p).
  assert (Hc : forall c, capture w1 c = capture w c).
  { intros c. unfold w1, capture, acquired.
    destruct (reception_fault w); cbn; apply map_ext; intros i; apply Hdet. }
  assert (Hf : reception_fault w1 = reception_fault w)
    by (unfold reception_fault; rewrite !Hc; reflexivity).
  assert (Hk : forall c x, calibrated (self w1) c x = calibrated (self w) c x).
  { intros c x. unfold calibrated. unfold w1 at 2. cbn [self].
    rewrite acquired_count.
    unfold w1, acquired. destruct (reception_fault w); reflexivity. }
  unfold acquired at 1. rewrite Hf.
  unfold acquired at 1. destruct (reception_fault w); cbn [self adc with_adc with_is_failed with_lase_base].
  - rewrite !Hc. reflexivity.
  - rewrite !Hc. f_equal; [| f_equal]; apply map_ext; intros x; apply Hk.
Qed.

(** C7, as the code has it.  With the [sampling] attribute in place:
    [get_avg_spectrum(1)] leaves, per channel, the magnitudes of what
    [get_spectrum()] leaves for the same captured data (the first half of the
    transform), not the complex values; and on a deterministic source a second
    call leaves the same value as the first. *)
Theorem avg_spectrum_magnitude (w : World) (samp : Sampling.t) :
  ready (self w) ->
  sampling (self w) = Some samp ->
  (Sampling.n samp / 2 <= Lase.n (lase_base (self w)))%nat ->
  fst (get_avg_spectrum 1 w) = Ret tt /\
  fst (get_spectrum (acquired w)) = Ret tt /\
  avg_spectrum (self (snd (get_avg_spectrum 1 w)))
  = map (map cabs) (spectrum (self (snd (get_spectrum (acquired w))))) /\
  (DevMem.deterministic (Lase.dvm (lase_base (self w))) ->
   fst (get_avg_spectrum 1 (snd (get_avg_spectrum 1 w))) = Ret tt /\
   avg_spectrum (self (snd (get_avg_spectrum 1 (snd (get_avg_spectrum 1 w)))))
   = avg_spectrum (self (snd (get_avg_spectrum 1 w)))).
Proof.
  intros Hr Hs Hh.
  rewrite (get_avg_spectrum_once w samp Hr Hs Hh).
  rewrite (get_spectrum_acquired w samp Hr Hs).
  cbn [fst snd self].
  split; [reflexivity |]. split; [reflexivity |]. split.
  - cbn [avg_spectrum spectrum with_avg_spectrum with_spectrum].
    rewrite map_map. reflexivity.
  - intros Hdet.
    match goal with |- context [get_avg_spectrum 1 ?x] => set (w1 := x) end.
    assert (Hr1 : ready (self w1)) by (apply (acquired_ready w Hr)).
    assert (Hs1 : sampling (self w1) = Some samp).
    { unfold w1, acquired. destruct (reception_fault w); exact Hs. }
    assert (Hn1 : Lase.n (lase_base (self w1)) = Lase.n (lase_base (self w))).
    { unfold w1, acquired. destruct (reception_fault w); reflexivity. }
    rewrite (get_avg_spectrum_once w1 samp Hr1 Hs1) by (rewrite Hn1; exact Hh).
    cbn [fst snd self]. split; [reflexivity |].
    unfold w1 at 2. cbn [avg_spectrum with_avg_spectrum].
    unfold w1. rewrite (acquired_again w _ _ _ Hdet). reflexivity.
Qed.

Lemma attach_ready (w : World) : ready (self w) -> ready (self (Sim.attach w)).
Proof. intros H. exact H. Qed.

Lemma sim_deterministic (raw : Z -> nat -> float64) (count : Z) :
  DevMem.deterministic (Lase.dvm (lase_base (self (Sim.attach (Sim.fresh raw count))))).
Proof. intros t1 t2 window i. reflexivity. Qed.

(** The theorem on the simulated controller with the sampling grid attached:
    two calls of [get_avg_spectrum(1)] leave the same value. *)
Lemma avg_spectrum_magnitude_witness :
  ready (self (Sim.attach (Sim.fresh Sim.zeros 0))) /\
  sampling (self (Sim.attach (Sim.fresh Sim.zeros 0)))
  = Some (Lase.sampling (lase_base (self (Sim.fresh Sim.zeros 0)))) /\
  (Sampling.n (Lase.sampling (lase_base (self (Sim.fresh Sim.zeros 0)))) / 2
   <= Lase.n (lase_base (self (Sim.attach (Sim.fresh Sim.zeros 0)))))%nat /\
  avg_spectrum (self (snd (get_avg_spectrum 1
     (snd (get_avg_spectrum 1 (Sim.attach (Sim.fresh Sim.zeros 0)))))))
  = avg_spectrum (self (snd (get_avg_spectrum 1 (Sim.attach (Sim.fresh Sim.zeros 0))))).
Proof.
  assert (Hr : ready (self (Sim.attach (Sim.fresh Sim.zeros 0))))
    by apply attach_ready, fresh_ready.
  assert (Hs : sampling (self (Sim.attach (Sim.fresh Sim.zeros 0)))
               = Some (Lase.sampling (lase_base (self (Sim.fresh Sim.zeros 0)))))
    by reflexivity.
  assert (Hh : (Sampling.n (Lase.sampling (lase_base (self (Sim.fresh Sim.zeros 0)))) / 2
                <= Lase.n (lase_base (self (Sim.attach (Sim.fresh Sim.zeros 0)))))%nat)
    by (apply Nat.leb_le; reflexivity).
  split; [exact Hr |]. split; [exact Hs |]. split; [exact Hh |].
  exact (proj2 (proj2 (proj2 (proj2 (avg_spectrum_magnitude _ _ Hr Hs Hh)))
                 (sim_deterministic Sim.zeros 0))).
Defined.

Lemma Rsum_from_negative (f : nat -> R) (off n : nat) :
  (0 < n)%nat -> (forall i, f i < 0) -> Rsum_from f off n < 0.
Proof.
  intros Hn Hf. revert off. induction n as [| n IH]; intros off; [lia |].
  cbn [Rsum_from]. destruct n as [| n].
  - cbn [Rsum_from]. pose proof (Hf off). lra.
  - pose proof (Hf off). pose proof (IH ltac:(lia) (S off)). lra.
Qed.

(** Bin 0 of the transform of a constant negative signal is negative. *)
Lemma dft_dc_negative (sgn c : R) (n : nat) :
  (0 < n)%nat -> c < 0 ->
  exists A B,
    nth 0 (dft sgn (map RtoC (map (fun _ : nat => Fin c) (seq 0 n)))) czero
    = (Fin A, Fin B) /\ A < 0.
Proof.
  intros Hn Hc.
  set (x := map RtoC (map (fun _ : nat => Fin c) (seq 0 n))).
  assert (Lx : length x = n) by (unfold x; rewrite !length_map, length_seq; reflexivity).
  assert (Hx : Forall cfin x).
  { unfold x. rewrite map_map. apply List.Forall_map, Forall_true. intros i.
    apply cfin_Fin. }
  assert (Hj : forall j, (j < n)%nat -> nth j x czero = (Fin c, Fin 0)).
  { intros j Hlt. unfold x. rewrite map_map.
    rewrite nth_lookup, list_lookup_fmap, lookup_seq_lt by lia. reflexivity. }
  unfold dft. rewrite Lx. rewrite nth_lookup, list_lookup_fmap, lookup_seq_lt by lia.
  cbn [fmap option_fmap option_map default from_option Datatypes.id Nat.add].
  rewrite (dft_bin_fin sgn x 0 Hx), Lx.
  eexists; eexists; split; [reflexivity |].
  rewrite (Rsum_from_ext _ (fun _ => c)).
  - apply Rsum_from_negative; [exact Hn | intros; exact Hc].
  - intros j Hlt. rewrite Hj by lia. cbn [fst snd Rof].
    replace (angle n 0 j) with 0 by (unfold angle; cbn [INR]; unfold Rdiv; ring).
    rewrite cos_0, sin_0. ring.
Qed.

(** The calibrated value of the raw word [2^32 - 1] at unit gain and zero
    offset is a negative real. *)
Lemma calibrated_all_ones (s : t) (c : nat) :
  avg_on s = false ->
  nth c (adc_offset s) NaN = Fin 0 ->
  nth c (optical_power s) NaN = Fin 1 ->
  nth c (power s) NaN = Fin 1 ->
  calibrated s c (Fin 4294967295) = Fin ((4294967295 - 4294967296 - 0) * (1 / 1)).
Proof.
  intros Ha Ho Hp Hq. unfold calibrated. rewrite Ha, Ho, Hp, Hq.
  rewrite unwrap_unsigned by lra. rewrite fdiv_Fin by lra. reflexivity.
Qed.

(** Facts on the simulated controller. *)
Lemma sim_n (raw : Z -> nat -> float64) (count : Z) :
  Lase.n (lase_base (self (Sim.fresh raw count))) = Z.to_nat 8192.
Proof. reflexivity. Qed.

Lemma sim_sampling (raw : Z -> nat -> float64) (count : Z) :
  Sampling.n (Lase.sampling (lase_base (self (Sim.fresh raw count)))) = Z.to_nat 8192.
Proof. reflexivity. Qed.

Lemma sim_capture (raw : Z -> nat -> float64) (count : Z) (c : nat) :
  capture (Sim.fresh raw count) c =
  map (raw (match c with O => 0x42000000%Z | _ => 0x44000000%Z end)) (seq 0 (Z.to_nat 8192)).
Proof. destruct c; reflexivity. Qed.

Lemma sim_calibration (raw : Z -> nat -> float64) (count : Z) :
  avg_on (self (Sim.fresh raw count)) = false /\
  adc_offset (self (Sim.fresh raw count)) = [Fin 0; Fin 0] /\
  optical_power (self (Sim.fresh raw count)) = [Fin 1; Fin 1] /\
  power (self (Sim.fresh raw count)) = [Fin 1; Fin 1].
Proof. repeat split; reflexivity. Qed.

Lemma attach_n (w : World) :
  Lase.n (lase_base (self (Sim.attach w))) = Lase.n (lase_base (self w)).
Proof. reflexivity. Qed.

Lemma attach_capture (w : World) (c : nat) : capture (Sim.attach w) c = capture w c.
Proof. reflexivity. Qed.

Lemma attach_acquired_adc (w : World) :
  adc (self (acquired (Sim.attach w))) = adc (self (acquired w)).
Proof.
  unfold acquired. change (reception_fault (Sim.attach w)) with (reception_fault w).
  destruct (reception_fault w); reflexivity.
Qed.

Lemma nth_0_map_seq {A : Type} (f : nat -> A) (n : nat) (d : A) :
  (0 < n)%nat -> nth 0 (map f (seq 0 n)) d = f 0%nat.
Proof. intros H. destruct n; [lia | reflexivity]. Qed.

Lemma positive_8192 : (0 < Z.to_nat 8192)%nat.
Proof. lia. Qed.

(** What one acquisition leaves in the buffers of the simulated controller
    when every raw word is [2^32 - 1]. *)
Lemma sim_all_ones_adc :
  adc (self (acquired (Sim.fresh (Sim.constant 4294967295) 0))) =
  [map (fun _ : nat => Fin ((4294967295 - 4294967296 - 0) * (1 / 1))) (seq 0 (Z.to_nat 8192));
   map (fun _ : nat => Fin ((4294967295 - 4294967296 - 0) * (1 / 1))) (seq 0 (Z.to_nat 8192))].
Proof.
  destruct (sim_calibration (Sim.constant 4294967295) 0) as (Ha & Ho & Hp & Hq).
  unfold acquired, reception_fault.
  rewrite !sim_capture. rewrite !nth_0_map_seq by exact positive_8192.
  unfold Sim.constant at 1 2. cbn [isnan orb self adc with_adc].
  rewrite !map_map. unfold Sim.constant.
  rewrite !calibrated_all_ones by (rewrite ?Ho, ?Hp, ?Hq; first [exact Ha | reflexivity]).
  reflexivity.
Qed.

(** When one acquisition leaves a constant negative signal in the buffers,
    bin 0 of channel 0 differs between the two spectra. *)
Lemma spectra_differ (w : World) (samp : Sampling.t) (c : R) (n : nat) :
  ready (self w) ->
  sampling (self w) = Some samp ->
  (0 < Sampling.n samp / 2 <= Lase.n (lase_base (self w)))%nat ->
  adc (self (acquired w)) =
    [map (fun _ : nat => Fin c) (seq 0 n); map (fun _ : nat => Fin c) (seq 0 n)] ->
  (0 < n)%nat ->
  c < 0 ->
  fst (get_avg_spectrum 1 w) = Ret tt /\
  fst (get_spectrum (acquired w)) = Ret tt /\
  RtoC (nth 0 (nth 0 (avg_spectrum (self (snd (get_avg_spectrum 1 w)))) []) NaN)
  <> nth 0 (nth 0 (spectrum (self (snd (get_spectrum (acquired w))))) []) czero.
Proof.
  intros Hr Hs [Hh0 Hh] Ea Hn Hc.
  rewrite (get_avg_spectrum_once _ _ Hr Hs Hh).
  rewrite (get_spectrum_acquired _ _ Hr Hs).
  cbn [fst snd self avg_spectrum spectrum with_avg_spectrum with_spectrum].
  split; [reflexivity |]. split; [reflexivity |].
  rewrite Ea. cbn [map nth].
  destruct (dft_dc_negative (-1) c n) as (A & B & EAB & HA); [exact Hn | exact Hc |].
  assert (Hlen : length (dft (-1) (map RtoC (map (fun _ : nat => Fin c) (seq 0 n)))) = n)
    by (rewrite length_dft, !length_map, length_seq; reflexivity).
  rewrite !nth_lookup, list_lookup_fmap, !lookup_take_lt by exact Hh0.
  rewrite nth_lookup in EAB.
  destruct (dft (-1) _ !! 0%nat) as [z |] eqn:Ez.
  - cbn in EAB. subst z. cbn. unfold cabs, RtoC. cbn [fst snd].
    intros E. injection E as E1 E2.
    pose proof (sqrt_pos (A * A + B * B)). lra.
  - apply lookup_ge_None in Ez. rewrite Hlen in Ez. lia.
Qed.

(** C7 refuted.  On the simulated controller with the sampling grid attached
    and every raw word equal to [2^32 - 1] (the value -1), both calls return,
    and bin 0 of channel 0 differs: [get_avg_spectrum(1)] holds a magnitude,
    [get_spectrum()] a negative number. *)
Lemma avg_spectrum_magnitude_counterexample :
  fst (get_avg_spectrum 1 (Sim.attach (Sim.fresh (Sim.constant 4294967295) 0))) = Ret tt /\
  fst (get_spectrum (acquired (Sim.attach (Sim.fresh (Sim.constant 4294967295) 0)))) = Ret tt /\
  RtoC (nth 0 (nth 0 (avg_spectrum (self (snd (get_avg_spectrum 1
          (Sim.attach (Sim.fresh (Sim.constant 4294967295) 0)))))) []) NaN)
  <> nth 0 (nth 0 (spectrum (self (snd (get_spectrum (acquired
          (Sim.attach (Sim.fresh (Sim.constant 4294967295) 0))))))) []) czero.
Proof.
  apply (spectra_differ _
           (Lase.sampling (lase_base (self (Sim.fresh (Sim.constant 4294967295) 0))))
           ((4294967295 - 4294967296 - 0) * (1 / 1)) (Z.to_nat 8192)).
  - apply attach_ready, fresh_ready.
  - apply attach_sampling.
  - rewrite sim_sampling, attach_n, sim_n. split.
    + apply (Nat.div_le_lower_bound _ 2); lia.
    + apply Nat.Div0.div_le_upper_bound. lia.
  - rewrite attach_acquired_adc. apply sim_all_ones_adc.
  - exact positive_8192.
  - lra.
Qed.

(** ** The correction step *)

Lemma broadcast2_same {A B C : Type} (f : A -> B -> C) (a : list A) (b : list B) :
  length a = length b -> broadcast2 f a b = Ret (zip_with f a b).
Proof. intros H. unfold broadcast2. rewrite H, Nat.eqb_refl. reflexivity. Qed.

Lemma inplace_same {A B : Type} (f : A -> B -> A) (a : list A) (b : list B) :
  length b = length a -> inplace f a b = Ret (zip_with f a b).
Proof.
  intros H. unfold inplace. rewrite broadcast_to_same by exact H. reflexivity.
Qed.

Lemma py_index_lt (len : nat) (i : Z) (k : nat) :
  py_index len i = Ret k -> (k < len)%nat.
Proof.
  unfold py_index.
  destruct ((0 <=? i)%Z && (i <? Z.of_nat len)%Z) eqn:E1.
  - intros [= <-]. apply andb_prop in E1. destruct E1 as [E1 E2].
    apply Z.leb_le in E1. apply Z.ltb_lt in E2. lia.
  - destruct ((- Z.of_nat len <=? i)%Z && (i <? 0)%Z) eqn:E2; [| discriminate].
    intros [= <-]. apply andb_prop in E2. destruct E2 as [E2 E3].
    apply Z.leb_le in E2. apply Z.ltb_lt in E3. lia.
Qed.

Lemma getitem_index {A : Type} (l : list A) (i : Z) (k : nat) (d : A) :
  py_index (length l) i = Ret k -> (k < length l)%nat ->
  getitem l i = Ret (nth k l d).
Proof.
  intros Hi Hk. unfold getitem. rewrite Hi. cbn [obind].
  destruct (nth_error l k) as [a |] eqn:E.
  - rewrite (nth_error_nth _ _ d E). reflexivity.
  - apply nth_error_None in E. lia.
Qed.

Lemma setrow_index {A : Type} (a : list (list A)) (i : Z) (k : nat) (v : list A) :
  py_index (length a) i = Ret k -> (k < length a)%nat ->
  length v = length (nth k a []) ->
  setrow a i v = Ret (<[k := v]> a).
Proof.
  intros Hi Hk Hv. unfold setrow. rewrite Hi. cbn [obind].
  destruct (nth_error a k) as [row |] eqn:E.
  - rewrite (nth_error_nth _ _ [] E) in Hv.
    rewrite broadcast_to_same by exact Hv. reflexivity.
  - apply nth_error_None in E. lia.
Qed.

Lemma has_shape_row {A : Type} (r c : nat) (a : list (list A)) (k : nat) :
  has_shape r c a -> (k < r)%nat -> length (nth k a []) = c.
Proof.
  intros [Hl Hf] Hk. rewrite List.Forall_forall in Hf. apply Hf, nth_In. lia.
Qed.

Lemma get_correction_ok (w : World) (err : list float64) :
  amplitude_error (self w) = Some err ->
  (0 < length err)%nat ->
  length (amplitude_transfer_function (self w)) = length err ->
  length (gaussian_filter (self w)) = length err ->
  get_correction w = (Ret (correction_of (self w) err), w).
Proof.
  intros He Hn Ht Hg. unfold get_correction, correction_of.
  unfold bind at 1, getattr at 1. rewrite He.
  cbv [bind lift attr ret].
  rewrite np_fft_fft_ok by (rewrite length_map; exact Hn). cbv beta iota.
  rewrite broadcast2_same by (rewrite length_dft, length_map; lia). cbv beta iota.
  rewrite (setitem_ok _ 0) by (rewrite length_zip_with, length_dft, length_map; lia).
  cbv beta iota.
  rewrite broadcast2_same
    by (rewrite length_insert, length_zip_with, length_dft, length_map; lia).
  cbv beta iota.
  rewrite np_fft_ifft_ok
    by (rewrite length_zip_with, length_insert, length_zip_with, length_dft, length_map; lia).
  reflexivity.
Qed.

Lemma length_correction_of (s : t) (err : list float64) :
  length (amplitude_transfer_function s) = length err ->
  length (gaussian_filter s) = length err ->
  length (correction_of s err) = length err.
Proof.
  intros Ht Hg. unfold correction_of.
  rewrite !length_map, length_dft, length_zip_with, length_insert, length_zip_with,
    length_dft, length_map. lia.
Qed.

(** The whole effect of one optimisation step on a consistent state: the
    error is stored, then row [channel] of the output buffer is updated. *)
Lemma optimize_amplitude_run (w : World) (alpha : float64) (channel : Z)
  (d : list (list float64)) (k : nat) :
  let n := Lase.n (lase_base (self w)) in
  has_shape 2 n (adc (self w)) ->
  (0 < n)%nat ->
  length (ideal_amplitude_waveform (self w)) = n ->
  length (amplitude_transfer_function (self w)) = n ->
  length (gaussian_filter (self w)) = n ->
  dac (self w) = Some d ->
  has_shape 2 n d ->
  py_index 2 channel = Ret k ->
  let err := amplitude_error_of (self w) in
  let correction := correction_of (self w) err in
  optimize_amplitude alpha channel w =
    (Ret tt,
     mkWorld
       (with_dac
          (Some (<[k := zip_with fsub (nth k d [])
                           (map (fun c => fmul alpha c) correction)]> d))
          (with_amplitude_error (Some err) (self w)))
       (np_random w) (np_random_pos w)).
Proof.
  intros n Hs Hn Hi Ht Hg Hd Hsd Hk err correction.
  destruct (has_shape_2 _ _ Hs) as (r0 & r1 & Ea & L0 & L1).
  assert (Hk2 : (k < 2)%nat) by exact (py_index_lt 2 channel k Hk).
  assert (Ld : length d = 2%nat) by apply Hsd.
  assert (Lrow : length (nth k d []) = n) by (apply (has_shape_row 2 n d k Hsd Hk2)).
  assert (Lerr : length err = n).
  { unfold err, amplitude_error_of, amplitude_error_from. rewrite Ea. cbn [nth].
    rewrite length_zip_with, length_map. lia. }
  assert (Lc : length (map (fun c => fmul alpha c) correction) = n).
  { rewrite length_map. unfold correction.
    rewrite length_correction_of by lia. exact Lerr. }
  unfold optimize_amplitude.
  cbv [bind attr lift]. rewrite Ea, !getrow_0. cbv beta iota.
  rewrite broadcast2_same by (rewrite length_map; lia). cbv beta iota.
  unfold update at 1. cbn [self].
  unfold getattr at 1. cbn [self dac with_amplitude_error]. rewrite Hd.
  unfold getrow. rewrite (getitem_index d channel k []) by (rewrite ?Ld; assumption).
  cbv beta iota.
  match goal with |- context [get_correction ?w1] =>
    rewrite (get_correction_ok w1 err)
  end.
  2:{ cbn [self amplitude_error with_amplitude_error].
      unfold err, amplitude_error_of, amplitude_error_from.
      rewrite Ea. reflexivity. }
  2:{ lia. }
  2:{ cbn [self amplitude_transfer_function with_amplitude_error]. lia. }
  2:{ cbn [self gaussian_filter with_amplitude_error]. lia. }
  cbv beta iota.
  change (correction_of (self _) err) with correction.
  rewrite inplace_same by lia. cbv beta iota.
  rewrite (setrow_index d channel k)
    by (rewrite ?Ld, ?length_zip_with; first [assumption | lia]).
  cbv [update]. cbn [fst snd self np_random np_random_pos].
  unfold correction, err, amplitude_error_of, amplitude_error_from.
  rewrite Ea. reflexivity.
Qed.

(** C8, as the code has it.  With the output buffer attached and the arrays
    at the sample depth: [optimize_amplitude(alpha, channel)] stores as
    amplitude error the captured buffer of channel 0, whatever [channel] is,
    minus its mean, minus the ideal waveform, and subtracts [alpha] times the
    correction waveform from row [channel] of the output buffer. *)
Theorem optimize_amplitude_step (w : World) (alpha : float64) (channel : Z)
  (d : list (list float64)) (k : nat) :
  let n := Lase.n (lase_base (self w)) in
  has_shape 2 n (adc (self w)) ->
  (0 < n)%nat ->
  length (ideal_amplitude_waveform (self w)) = n ->
  length (amplitude_transfer_function (self w)) = n ->
  length (gaussian_filter (self w)) = n ->
  dac (self w) = Some d ->
  has_shape 2 n d ->
  py_index 2 channel = Ret k ->
  let err := amplitude_error_of (self w) in
  let correction := correction_of (self w) err in
  fst (optimize_amplitude alpha channel w) = Ret tt /\
  amplitude_error (self (snd (optimize_amplitude alpha channel w))) = Some err /\
  dac (self (snd (optimize_amplitude alpha channel w))) =
    Some (<[k := zip_with fsub (nth k d []) (map (fun c => fmul alpha c) correction)]> d).
Proof.
  intros n Hs Hn Hi Ht Hg Hd Hsd Hk err correction.
  rewrite (optimize_amplitude_run w alpha channel d k Hs Hn Hi Ht Hg Hd Hsd Hk).
  cbn [fst snd self amplitude_error dac with_dac with_amplitude_error].
  split; [reflexivity |]. split; reflexivity.
Qed.

Lemma sim_lengths (raw : Z -> nat -> float64) (count : Z) :
  length (ideal_amplitude_waveform (self (Sim.fresh raw count))) = Z.to_nat 8192 /\
  length (amplitude_transfer_function (self (Sim.fresh raw count))) = Z.to_nat 8192 /\
  length (gaussian_filter (self (Sim.fresh raw count))) = Z.to_nat 8192.
Proof.
  split; [| split].
  - apply repeat_length.
  - unfold Sim.fresh. rewrite init_transfer_function. apply repeat_length.
  - change (gaussian_filter (self (Sim.fresh raw count)))
      with (map (fun f => fmul (Fin 1)
                   (fexp (fdiv (fmul (Fin (-1)) (fmul f f)) (Fin (2 * (5e6 * 5e6))))))
              (Sim.f_fft (Z.to_nat 8192) 125e6)).
    unfold Sim.f_fft. rewrite !length_map, length_seq. reflexivity.
Qed.

(** Attaching the three attributes and acquiring leave the arrays of the
    correction step as they are. *)
Lemma attach_arrays (w : World) :
  ideal_amplitude_waveform (self (Sim.attach w)) = ideal_amplitude_waveform (self w) /\
  amplitude_transfer_function (self (Sim.attach w)) = amplitude_transfer_function (self w) /\
  gaussian_filter (self (Sim.attach w)) = gaussian_filter (self w) /\
  dac (self (Sim.attach w)) = Some (np_zeros2 2 (Lase.n (lase_base (self w)))).
Proof. repeat split; reflexivity. Qed.

Lemma acquired_arrays (w : World) :
  Lase.n (lase_base (self (acquired w))) = Lase.n (lase_base (self w)) /\
  ideal_amplitude_waveform (self (acquired w)) = ideal_amplitude_waveform (self w) /\
  amplitude_transfer_function (self (acquired w)) = amplitude_transfer_function (self w) /\
  gaussian_filter (self (acquired w)) = gaussian_filter (self w) /\
  dac (self (acquired w)) = dac (self w).
Proof. unfold acquired. destruct (reception_fault w); repeat split; reflexivity. Qed.

Lemma np_zeros2_shape (r c : nat) : has_shape r c (np_zeros2 r c).
Proof.
  unfold has_shape, np_zeros2. split; [apply repeat_length |].
  apply Forall_forall. intros x Hx. apply list_elem_of_In, repeat_spec in Hx.
  subst. apply repeat_length.
Qed.

(** The theorem on the simulated controller with the output buffer attached,
    before any capture. *)
Lemma optimize_amplitude_step_witness :
  has_shape 2 (Lase.n (lase_base (self (Sim.attach (Sim.fresh Sim.zeros 0)))))
    (adc (self (Sim.attach (Sim.fresh Sim.zeros 0)))) /\
  (0 < Lase.n (lase_base (self (Sim.attach (Sim.fresh Sim.zeros 0)))))%nat /\
  length (ideal_amplitude_waveform (self (Sim.attach (Sim.fresh Sim.zeros 0))))
  = Lase.n (lase_base (self (Sim.attach (Sim.fresh Sim.zeros 0)))) /\
  length (amplitude_transfer_function (self (Sim.attach (Sim.fresh Sim.zeros 0))))
  = Lase.n (lase_base (self (Sim.attach (Sim.fresh Sim.zeros 0)))) /\
  length (gaussian_filter (self (Sim.attach (Sim.fresh Sim.zeros 0))))
  = Lase.n (lase_base (self (Sim.attach (Sim.fresh Sim.zeros 0)))) /\
  dac (self (Sim.attach (Sim.fresh Sim.zeros 0)))
  = Some (np_zeros2 2 (Lase.n (lase_base (self (Sim.fresh Sim.zeros 0))))) /\
  has_shape 2 (Lase.n (lase_base (self (Sim.attach (Sim.fresh Sim.zeros 0)))))
    (np_zeros2 2 (Lase.n (lase_base (self (Sim.fresh Sim.zeros 0))))) /\
  py_index 2 0 = Ret 0%nat /\
  fst (optimize_amplitude (Fin 1) 0 (Sim.attach (Sim.fresh Sim.zeros 0))) = Ret tt.
Proof.
  destruct (attach_ready _ (fresh_ready Sim.zeros 0)) as (Hs & Hn & _).
  destruct (sim_lengths Sim.zeros 0) as (Li & Lt & Lg).
  destruct (attach_arrays (Sim.fresh Sim.zeros 0)) as (Ei & Et & Eg & Ed).
  pose proof (attach_n (Sim.fresh Sim.zeros 0)) as En.
  pose proof (sim_n Sim.zeros 0) as EN.
  assert (Hi : length (ideal_amplitude_waveform (self (Sim.attach (Sim.fresh Sim.zeros 0))))
               = Lase.n (lase_base (self (Sim.attach (Sim.fresh Sim.zeros 0)))))
    by (rewrite Ei, En, EN; exact Li).
  assert (Ht : length (amplitude_transfer_function (self (Sim.attach (Sim.fresh Sim.zeros 0))))
               = Lase.n (lase_base (self (Sim.attach (Sim.fresh Sim.zeros 0)))))
    by (rewrite Et, En, EN; exact Lt).
  assert (Hg : length (gaussian_filter (self (Sim.attach (Sim.fresh Sim.zeros 0))))
               = Lase.n (lase_base (self (Sim.attach (Sim.fresh Sim.zeros 0)))))
    by (rewrite Eg, En, EN; exact Lg).
  assert (Hd : has_shape 2 (Lase.n (lase_base (self (Sim.attach (Sim.fresh Sim.zeros 0)))))
                 (np_zeros2 2 (Lase.n (lase_base (self (Sim.fresh Sim.zeros 0))))))
    by (rewrite En; apply np_zeros2_shape).
  assert (Hk : py_index 2 0 = Ret 0%nat) by reflexivity.
  split; [exact Hs |]. split; [exact Hn |]. split; [exact Hi |]. split; [exact Ht |].
  split; [exact Hg |]. split; [exact Ed |]. split; [exact Hd |]. split; [exact Hk |].
  exact (proj1 (optimize_amplitude_step _ (Fin 1) 0 _ 0 Hs Hn Hi Ht Hg Ed Hd Hk)).
Defined.

Lemma fsum_fin (f : nat -> R) (off n : nat) :
  fsum (map (fun i => Fin (f i)) (seq off n)) = Fin (Rsum_from f off n).
Proof.
  revert off. induction n as [| n IH]; intros off; [reflexivity |].
  unfold fsum in *. cbn [seq map fold_right Rsum_from]. rewrite IH. reflexivity.
Qed.

Lemma Rsum_from_const (b : R) (off n : nat) :
  Rsum_from (fun _ => b) off n = INR n * b.
Proof.
  revert off. induction n as [| n IH]; intros off.
  - cbn [Rsum_from INR]. lra.
  - rewrite S_INR. cbn [Rsum_from]. rewrite IH. lra.
Qed.

Lemma np_mean_fin (f : nat -> R) (n : nat) :
  (0 < n)%nat ->
  np_mean (map (fun i => Fin (f i)) (seq 0 n)) = Fin (Rsum_from f 0 n / INR n).
Proof.
  intros Hn. unfold np_mean, of_nat. rewrite fsum_fin, length_map, length_seq.
  apply fdiv_Fin. apply not_0_INR. lia.
Qed.

(** When channel 0 holds a pulse and channel 1 a constant, the error from
    channel 0 is not the error from channel 1. *)
Lemma errors_differ (s : t) (a b : R) (n : nat) :
  adc s = [map (fun i => Fin (if (i =? 0)%nat then a else b)) (seq 0 n);
           map (fun _ : nat => Fin b) (seq 0 n)] ->
  ideal_amplitude_waveform s = np_zeros n ->
  (2 <= n)%nat ->
  a <> b ->
  amplitude_error_from s 0 <> amplitude_error_from s 1.
Proof.
  intros Ea Ei Hn Hab E.
  apply (f_equal (fun l => nth 0 l NaN)) in E.
  unfold amplitude_error_from in E. rewrite Ea, Ei in E. cbn [nth] in E.
  rewrite !np_mean_fin in E by lia.
  rewrite Rsum_from_const in E.
  rewrite Rsum_from_head in E by lia.
  rewrite (Rsum_from_ext _ (fun _ => b)) in E.
  2:{ intros i Hi. destruct i; [lia | reflexivity]. }
  rewrite Rsum_from_const in E.
  assert (HN : 2 <= INR n) by (apply (le_INR 2); exact Hn).
  assert (EN : INR (n - 1) = INR n - 1) by (rewrite minus_INR by lia; reflexivity).
  rewrite EN in E. clear EN.
  destruct n as [| n']; [lia |].
  unfold np_zeros in E. cbn [seq map repeat zip_with nth Nat.eqb] in E.
  unfold fsub in E. apply (f_equal Rof) in E. cbn [Rof] in E.
  set (N := INR (S n')) in *.
  apply Hab.
  assert (E' : (a - (a + (N - 1) * b) / N) * N = (b - N * b / N) * N)
    by (f_equal; lra).
  field_simplify in E'; try lra. nra.
Qed.

(** With the output buffer attached and a pulse in channel 0 only, the error
    [optimize_amplitude(alpha, 1)] stores is not the one of channel 1. *)
Lemma optimize_amplitude_ignores_channel (w : World) (alpha : float64)
  (d : list (list float64)) (a b : R) :
  let n := Lase.n (lase_base (self w)) in
  adc (self w) = [map (fun i => Fin (if (i =? 0)%nat then a else b)) (seq 0 n);
                  map (fun _ : nat => Fin b) (seq 0 n)] ->
  (2 <= n)%nat ->
  ideal_amplitude_waveform (self w) = np_zeros n ->
  length (amplitude_transfer_function (self w)) = n ->
  length (gaussian_filter (self w)) = n ->
  dac (self w) = Some d ->
  has_shape 2 n d ->
  a <> b ->
  fst (optimize_amplitude alpha 1 w) = Ret tt /\
  amplitude_error (self (snd (optimize_amplitude alpha 1 w)))
  <> Some (amplitude_error_from (self w) 1).
Proof.
  intros n Ea Hn Ei Ht Hg Hd Hsd Hab.
  assert (Hs : has_shape 2 n (adc (self w))).
  { rewrite Ea. split; [reflexivity |].
    repeat constructor; rewrite length_map, length_seq; reflexivity. }
  assert (Hi : length (ideal_amplitude_waveform (self w)) = n)
    by (rewrite Ei; apply repeat_length).
  rewrite (optimize_amplitude_run w alpha 1 d 1
             Hs ltac:(lia) Hi Ht Hg Hd Hsd eq_refl).
  cbn [fst snd self amplitude_error with_dac with_amplitude_error].
  split; [reflexivity |].
  unfold amplitude_error_of. intros [= E].
  exact (errors_differ (self w) a b n Ea Ei Hn Hab E).
Qed.

Lemma calibrated_plain (s : t) (c : nat) (x : R) :
  avg_on s = false ->
  nth c (adc_offset s) NaN = Fin 0 ->
  nth c (optical_power s) NaN = Fin 1 ->
  nth c (power s) NaN = Fin 1 ->
  (- 2147483648 <= x < 2147483648)%R ->
  calibrated s c (Fin x) = Fin ((x - 0) * (1 / 1)).
Proof.
  intros Ha Ho Hp Hq Hx. unfold calibrated. rewrite Ha, Ho, Hp, Hq.
  rewrite unwrap_signed by exact Hx. rewrite fdiv_Fin by lra. reflexivity.
Qed.

Lemma sim_ideal (raw : Z -> nat -> float64) (count : Z) :
  ideal_amplitude_waveform (self (Sim.fresh raw count)) = np_zeros (Z.to_nat 8192).
Proof. reflexivity. Qed.

(** What one acquisition leaves in the buffers of the simulated controller
    over the pulse. *)
Lemma sim_pulse_adc :
  adc (self (acquired (Sim.fresh Sim.pulse 0))) =
  [map (fun i => Fin (if (i =? 0)%nat then (1 - 0) * (1 / 1) else (0 - 0) * (1 / 1)))
     (seq 0 (Z.to_nat 8192));
   map (fun _ : nat => Fin ((0 - 0) * (1 / 1))) (seq 0 (Z.to_nat 8192))].
Proof.
  destruct (sim_calibration Sim.pulse 0) as (Ha & Ho & Hp & Hq).
  unfold acquired, reception_fault.
  rewrite !sim_capture. rewrite !nth_0_map_seq by exact positive_8192.
  replace (isnan (Sim.pulse 1107296256 0) || isnan (Sim.pulse 1140850688 0))
    with false by reflexivity.
  cbn [self adc with_adc]. rewrite !map_map.
  f_equal; [| f_equal]; apply map_ext; intros i.
  - unfold Sim.pulse. replace (1107296256 =? 1107296256)%Z with true by reflexivity.
    cbn [andb]. destruct (i =? 0)%nat;
      apply calibrated_plain; rewrite ?Ho, ?Hp, ?Hq; first [exact Ha | reflexivity | lra].
  - unfold Sim.pulse. replace (1140850688 =? 1107296256)%Z with false by reflexivity.
    cbn [andb].
    apply calibrated_plain; rewrite ?Ho, ?Hp, ?Hq; first [exact Ha | reflexivity | lra].
Qed.

(** C8 refuted.  The simulated controller with the output buffer attached
    captures a pulse in channel 0 and zeros in channel 1; then
    [optimize_amplitude(1, 1)] returns, and the error it has stored is not the
    buffer of channel 1 minus its mean minus the ideal waveform. *)
Lemma optimize_amplitude_step_counterexample :
  fst (get_adc (Sim.attach (Sim.fresh Sim.pulse 0))) = Ret tt /\
  fst (optimize_amplitude (Fin 1) 1 (snd (get_adc (Sim.attach (Sim.fresh Sim.pulse 0)))))
  = Ret tt /\
  amplitude_error (self (snd (optimize_amplitude (Fin 1) 1
                                (snd (get_adc (Sim.attach (Sim.fresh Sim.pulse 0)))))))
  <> Some (amplitude_error_from (self (snd (get_adc (Sim.attach (Sim.fresh Sim.pulse 0))))) 1).
Proof.
  rewrite (get_adc_acquired _ (attach_ready _ (fresh_ready Sim.pulse 0))).
  cbn [fst snd]. split; [reflexivity |].
  destruct (acquired_arrays (Sim.attach (Sim.fresh Sim.pulse 0))) as (En & Ei & Et & Eg & Ed).
  destruct (attach_arrays (Sim.fresh Sim.pulse 0)) as (Ei' & Et' & Eg' & Ed').
  destruct (sim_lengths Sim.pulse 0) as (Li & Lt & Lg).
  pose proof (attach_n (Sim.fresh Sim.pulse 0)) as En'.
  pose proof (sim_n Sim.pulse 0) as EN.
  apply (optimize_amplitude_ignores_channel _ (Fin 1)
           (np_zeros2 2 (Z.to_nat 8192)) ((1 - 0) * (1 / 1)) ((0 - 0) * (1 / 1))).
  - rewrite En, En', EN, attach_acquired_adc. exact sim_pulse_adc.
  - rewrite En, En', EN. lia.
  - rewrite En, En', EN, Ei, Ei'. apply sim_ideal.
  - rewrite En, En', EN, Et, Et'. exact Lt.
  - rewrite En, En', EN, Eg, Eg'. exact Lg.
  - rewrite Ed, Ed', EN. reflexivity.
  - rewrite En, En', EN. apply np_zeros2_shape.
  - lra.
Qed.

(** ** The estimation once the base driver's attributes are attached *)

Lemma np_max_ok (l : list float64) :
  (0 < length l)%nat -> exists p, np_max l = Ret p.
Proof. destruct l; cbn [length]; [lia | intros _; eexists; reflexivity]. Qed.

(** The generator returns whenever its spectrum is computed and not empty. *)
Lemma white_noise_of_spectrum (n_freqs : Z) (w w' : World) (X : list complex) :
  _white_noise_spectrum n_freqs None w = (Ret X, w') ->
  (0 < length X)%nat ->
  exists wn, _white_noise n_freqs None w = (Ret wn, w') /\ length wn = length X.
Proof.
  intros E HX. unfold _white_noise. unfold bind at 1. rewrite E.
  cbv [bind lift ret]. rewrite np_fft_ifft_ok by exact HX. cbv beta iota.
  destruct (np_max_ok
              (map fabs (map cre (map (cscale (Fin (/ INR (length X)))) (dft 1 X)))))
    as [p Ep]; [rewrite !length_map, length_dft; exact HX |].
  rewrite Ep. eexists. split; [reflexivity |].
  rewrite !length_map, length_dft. reflexivity.
Qed.

Lemma has_shape_insert {A : Type} (r c : nat) (a : list (list A)) (k : nat)
  (v : list A) :
  has_shape r c a -> length v = c -> has_shape r c (<[k := v]> a).
Proof.
  intros [Hl Hf] Hv. split; [rewrite length_insert; exact Hl |].
  apply Forall_insert; assumption.
Qed.

(** One trial on such a state returns and leaves such a state. *)
Lemma transfer_trial_ok (samp : Sampling.t) (f : DevMem.t -> DevMem.t) (m : nat)
  (cd ca : Z) (kd ka : nat) (w : World) :
  (1 <= m)%nat ->
  py_index 2 cd = Ret kd ->
  py_index 2 ca = Ret ka ->
  estimable samp f (2 * m) w ->
  exists w',
    transfer_trial (Z.of_nat m + 1) cd ca w = (Ret tt, w') /\
    estimable samp f (2 * m) w'.
Proof.
  intros Hm Hkd Hka (Hr & Hn & Hs & Hsn & (d & Hd & Hsd) & Hf & Ht).
  enough (E : forall Q : outcome unit * World -> Prop,
            (forall w', estimable samp f (2 * m) w' -> Q (Ret tt, w')) ->
            Q (transfer_trial (Z.of_nat m + 1) cd ca w)).
  { apply E. intros w' H. exists w'. split; [reflexivity | exact H]. }
  intros Q HQ.
  assert (Hp : (Sampling.n samp / 2 < 2 * m)%nat).
  { rewrite Hsn. apply Nat.Div0.div_lt_upper_bound. lia. }
  pose proof (white_noise_spectrum_ok w samp m Hs Hm Hp) as Hspec.
  cbv zeta in Hspec.
  destruct (white_noise_of_spectrum _ _ _ _ Hspec) as (wn & Ewn & Lwn).
  { rewrite !length_insert, length_respectrum by lia. lia. }
  rewrite !length_insert, length_respectrum in Lwn by lia.
  assert (Hkd2 : (kd < 2)%nat) by exact (py_index_lt 2 cd kd Hkd).
  assert (Hka2 : (ka < 2)%nat) by exact (py_index_lt 2 ca ka Hka).
  assert (Ld : length d = 2%nat) by apply Hsd.
  unfold transfer_trial. unfold bind at 1. rewrite Ewn.
  unfold bind at 1, getattr at 1. cbn [self]. rewrite Hd.
  unfold bind at 1, lift at 1.
  rewrite (setrow_index d cd kd wn)
    by (rewrite ?Ld, ?(has_shape_row 2 (2 * m) d kd Hsd Hkd2); first [assumption | lia]).
  unfold bind at 1, update at 1. cbn [self np_random np_random_pos fst snd].
  unfold call_set_dac.
  unfold bind at 1. unfold bind at 1, getattr at 1. cbn [self set_dac with_dac].
  rewrite Hf. unfold dvm_do, update at 1. cbn [self np_random np_random_pos fst snd].
  unfold bind at 1.
  match goal with |- context [get_adc ?x] => set (w1 := x) end.
  assert (Hr1 : ready (self w1)) by exact Hr.
  rewrite (get_adc_acquired w1 Hr1).
  destruct (acquired_adc w1) as (r0 & r1 & Ea & L0 & L1).
  assert (Ha : ready (self (acquired w1))) by exact (acquired_ready w1 Hr1).
  destruct (acquired_arrays w1) as (En & _ & Et & _ & Ed).
  assert (Es : sampling (self (acquired w1)) = Some samp).
  { unfold acquired. destruct (reception_fault w1); exact Hs. }
  assert (Ef : set_dac (self (acquired w1)) = Some f).
  { unfold acquired. destruct (reception_fault w1); exact Hf. }
  assert (En1 : Lase.n (lase_base (self w1)) = (2 * m)%nat) by exact Hn.
  cbv [bind attr lift]. rewrite Ea.
  assert (Lrow : length (nth ka [r0; r1] []) = (2 * m)%nat).
  { destruct ka as [| [| ?]]; cbn [nth]; [lia | lia | lia]. }
  unfold getrow. rewrite (getitem_index [r0; r1] ca ka []) by (cbn [length]; assumption).
  cbv beta iota.
  rewrite !np_fft_fft_ok by (rewrite length_map; lia). cbv beta iota.
  rewrite broadcast2_same by (rewrite !length_dft, !length_map; lia).
  cbv beta iota.
  rewrite inplace_same
    by (rewrite length_zip_with, !length_dft, !length_map, Et; unfold w1; cbn [self amplitude_transfer_function with_dac with_lase_base]; lia).
  cbv [update]. cbn [fst snd self].
  apply HQ.
  unfold estimable. cbn [self np_random np_random_pos].
  split.
  { destruct Ha as (H1 & H2 & H3 & H4 & H5).
    split; [exact H1 |]. split; [exact H2 |]. split; [exact H3 |].
    split; [exact H4 | exact H5]. }
  split; [rewrite <- En1, <- En; reflexivity |].
  split; [exact Es |]. split; [exact Hsn |].
  split.
  { exists (<[kd := wn]> d). split.
    - cbn [dac with_amplitude_transfer_function]. rewrite Ed. reflexivity.
    - apply has_shape_insert; [exact Hsd | lia]. }
  split; [exact Ef |].
  cbn [amplitude_transfer_function with_amplitude_transfer_function].
  rewrite length_zip_with, length_zip_with, !length_dft, !length_map, Et.
  unfold w1. cbn [self amplitude_transfer_function with_dac with_lase_base]. lia.
Qed.

Lemma for_range_ok (I : World -> Prop) (body : M unit) :
  (forall w, I w -> exists w', body w = (Ret tt, w') /\ I w') ->
  forall k w, I w -> exists w', for_range k body w = (Ret tt, w') /\ I w'.
Proof.
  intros Hb k. induction k as [| k IH]; intros w Hw; cbn [for_range].
  - exists w. split; [reflexivity | exact Hw].
  - destruct (Hb w Hw) as (w1 & E1 & H1).
    destruct (IH w1 H1) as (w2 & E2 & H2).
    exists w2. split; [| exact H2].
    unfold bind. rewrite E1. exact E2.
Qed.

Lemma estimable_transfer_function (samp : Sampling.t) (f : DevMem.t -> DevMem.t)
  (N : nat) (w : World) (tf : list complex) :
  estimable samp f N w ->
  length tf = N ->
  estimable samp f N
    (mkWorld (with_amplitude_transfer_function tf (self w))
       (np_random w) (np_random_pos w)).
Proof.
  intros (Hr & Hn & Hs & Hsn & Hd & Hf & Ht) Hl.
  unfold estimable. cbn [self].
  split; [exact Hr |]. split; [exact Hn |]. split; [exact Hs |].
  split; [exact Hsn |]. split; [exact Hd |]. split; [exact Hf | exact Hl].
Qed.

(** What lines 99-114 do once [sampling], [dac] and [set_dac] exist on the
    instance, with a sample depth, a sampling grid and a transfer function of
    the same even number of points: for every trial count the estimation
    returns, bin 0 of the transfer function is 1 and the driven row of the
    output buffer is all zeros. *)
Lemma estimate_transfer_function_attached (samp : Sampling.t)
  (f : DevMem.t -> DevMem.t) (m : nat) (cd ca trials : Z) (kd ka : nat) (w : World) :
  (1 <= m)%nat ->
  py_index 2 cd = Ret kd ->
  py_index 2 ca = Ret ka ->
  estimable samp f (2 * m) w ->
  exists w',
    get_amplitude_transfer_function cd ca trials w = (Ret tt, w') /\
    amplitude_transfer_function (self w') !! 0%nat = Some (RtoC (Fin 1)) /\
    exists d', dac (self w') = Some d' /\ d' !! kd = Some (np_zeros (2 * m)).
Proof.
  intros Hm Hkd Hka Hw.
  enough (E : forall Q : outcome unit * World -> Prop,
            (forall w',
               amplitude_transfer_function (self w') !! 0%nat = Some (RtoC (Fin 1)) ->
               (exists d', dac (self w') = Some d' /\ d' !! kd = Some (np_zeros (2 * m))) ->
               Q (Ret tt, w')) ->
            Q (get_amplitude_transfer_function cd ca trials w)).
  { apply E. intros w' H1 H2. exists w'. split; [reflexivity |]. split; assumption. }
  intros Q HQ.
  pose proof Hw as (Hr & Hn & Hs & Hsn & Hd & Hf & Ht).
  assert (Eh : (Sampling.n samp / 2)%nat = m).
  { rewrite Hsn, Nat.mul_comm. apply Nat.div_mul. lia. }
  unfold get_amplitude_transfer_function.
  unfold bind at 1, getattr at 1. rewrite Hs. rewrite Eh.
  unfold bind at 1, attr at 1. unfold bind at 1, update at 1. cbn [fst snd].
  unfold bind at 1.
  match goal with |- context [for_range _ _ ?x] => set (w0 := x) end.
  assert (H0 : estimable samp f (2 * m) w0).
  { apply estimable_transfer_function; [exact Hw |]. rewrite length_map. exact Ht. }
  destruct (for_range_ok (estimable samp f (2 * m))
              (transfer_trial (Z.of_nat m + 1) cd ca)
              (fun w Hw => transfer_trial_ok samp f m cd ca kd ka w Hm Hkd Hka Hw)
              (Z.to_nat trials) w0 H0) as (w1 & E1 & H1).
  rewrite E1.
  destruct H1 as (Hr1 & Hn1 & Hs1 & Hsn1 & (d & Hd1 & Hsd1) & Hf1 & Ht1).
  unfold bind at 1, attr at 1. unfold bind at 1, update at 1. cbn [fst snd self].
  unfold bind at 1, attr at 1.
  cbn [self amplitude_transfer_function with_amplitude_transfer_function].
  unfold bind at 1, lift at 1.
  change 0%Z with (Z.of_nat 0).
  rewrite setitem_ok by (rewrite length_map, Ht1; lia).
  unfold bind at 1, update at 1. cbn [fst snd self].
  unfold bind at 1, getattr at 1. cbn [self sampling with_amplitude_transfer_function].
  rewrite Hs1.
  unfold bind at 1, getattr at 1. cbn [self dac with_amplitude_transfer_function].
  rewrite Hd1.
  assert (Hkd2 : (kd < 2)%nat) by exact (py_index_lt 2 cd kd Hkd).
  assert (Ld : length d = 2%nat) by apply Hsd1.
  unfold bind at 1, lift at 1.
  rewrite (setrow_index d cd kd)
    by (rewrite ?Ld, ?(has_shape_row 2 (2 * m) d kd Hsd1 Hkd2);
        first [assumption | lia | (unfold np_zeros; rewrite repeat_length; exact Hsn)]).
  unfold bind at 1, update at 1. cbn [fst snd self].
  unfold call_set_dac. unfold bind at 1, getattr at 1.
  cbn [self set_dac with_dac with_amplitude_transfer_function]. rewrite Hf1.
  unfold dvm_do, update. cbn [self np_random np_random_pos].
  apply HQ.
  - cbn [self amplitude_transfer_function with_lase_base with_dac
           with_amplitude_transfer_function].
    apply list_lookup_insert_eq. rewrite length_map, Ht1. lia.
  - eexists. split; [reflexivity |].
    rewrite Hsn. apply list_lookup_insert_eq. rewrite Ld. exact Hkd2.
Qed.

(** The simulated controller with the attributes attached is such a state. *)
Lemma sim_estimable (raw : Z -> nat -> float64) (count : Z) :
  estimable (Lase.sampling (lase_base (self (Sim.fresh raw count))))
    (fun d => d) (2 * 4096) (Sim.attach (Sim.fresh raw count)).
Proof.
  destruct (attach_arrays (Sim.fresh raw count)) as (_ & Et & _ & Ed).
  destruct (sim_lengths raw count) as (_ & Lt & _).
  assert (E8 : Z.to_nat 8192 = (2 * 4096)%nat) by lia.
  unfold estimable.
  split; [apply attach_ready, fresh_ready |].
  split; [rewrite attach_n, sim_n; exact E8 |].
  split; [apply attach_sampling |].
  split; [rewrite sim_sampling; exact E8 |].
  split.
  { eexists. split; [exact Ed |]. rewrite sim_n, E8. apply np_zeros2_shape. }
  split; [reflexivity |].
  rewrite Et, Lt. exact E8.
Qed.

(** On the simulated controller with the attributes attached, an estimation
    of 100 trials over channels 0 and 0 returns with bin 0 at 1 and row 0 of
    the output buffer zeroed. *)
Lemma estimate_transfer_function_on_sim :
  exists w',
    get_amplitude_transfer_function 0 0 100 (Sim.attach (Sim.fresh Sim.zeros 0))
    = (Ret tt, w') /\
    amplitude_transfer_function (self w') !! 0%nat = Some (RtoC (Fin 1)) /\
    exists d', dac (self w') = Some d' /\ d' !! 0%nat = Some (np_zeros (2 * 4096)).
Proof.
  apply (estimate_transfer_function_attached
           (Lase.sampling (lase_base (self (Sim.fresh Sim.zeros 0))))
           (fun d => d) 4096 0 0 100 0 0);
    [lia | reflexivity | reflexivity | apply sim_estimable].
Qed.

(** ** The estimation on the instance as constructed *)

Section MissingAttribute.

Ltac sampling_step := stable_step sampling (fun x : option Sampling.t => x = None).

Lemma set_averaging_sampling (on : bool) : stable no_sampling (set_averaging on).
Proof. unfold set_averaging. repeat sampling_step. Qed.

Lemma read_channel_sampling (c : Z) (window : t -> Z) :
  stable no_sampling (read_channel c window).
Proof. unfold read_channel, DevMem.read_buffer. repeat sampling_step. Qed.

Lemma subtract_offset_sampling (c : Z) : stable no_sampling (subtract_offset c).
Proof. unfold subtract_offset. repeat sampling_step. Qed.

Lemma apply_gain_sampling (c : Z) : stable no_sampling (apply_gain c).
Proof. unfold apply_gain. repeat sampling_step. Qed.

Lemma get_adc_sampling : stable no_sampling get_adc.
Proof.
  unfold get_adc.
  repeat first
    [ apply read_channel_sampling | apply subtract_offset_sampling
    | apply apply_gain_sampling | sampling_step ].
Qed.

(** Without the attribute every method that reads it raises at once and
    changes nothing. *)
Lemma getattr_sampling_raises {A : Type} (k : Sampling.t -> M A) (w : World) :
  no_sampling w ->
  bind (getattr "sampling" sampling) k w = (Raise (AttributeError "sampling"), w).
Proof. intros H. unfold bind, getattr. rewrite H. reflexivity. Qed.

Lemma white_noise_sampling (n_freqs : Z) (n_stop : option Z) :
  stable no_sampling (_white_noise n_freqs n_stop).
Proof.
  unfold _white_noise, _white_noise_spectrum. repeat sampling_step.
Qed.

Lemma get_amplitude_transfer_function_sampling (cd ca k : Z) :
  stable no_sampling (get_amplitude_transfer_function cd ca k).
Proof.
  intros w H. unfold get_amplitude_transfer_function.
  rewrite getattr_sampling_raises by exact H. exact H.
Qed.

Lemma get_correction_sampling : stable no_sampling get_correction.
Proof. unfold get_correction. repeat sampling_step. Qed.

Lemma optimize_amplitude_sampling (alpha : float64) (channel : Z) :
  stable no_sampling (optimize_amplitude alpha channel).
Proof.
  unfold optimize_amplitude. repeat first [ apply get_correction_sampling | sampling_step ].
Qed.

Lemma get_spectrum_sampling : stable no_sampling get_spectrum.
Proof. unfold get_spectrum. repeat sampling_step. Qed.

Lemma avg_spectrum_step_sampling : stable no_sampling avg_spectrum_step.
Proof.
  unfold avg_spectrum_step. repeat first [ apply get_adc_sampling | sampling_step ].
Qed.

Lemma get_avg_spectrum_sampling (k : Z) : stable no_sampling (get_avg_spectrum k).
Proof.
  unfold get_avg_spectrum. repeat first [ apply avg_spectrum_step_sampling | sampling_step ].
Qed.

Lemma reset_sampling (Lase_reset : Lase.t -> Lase.t) :
  stable no_sampling (reset Lase_reset).
Proof. unfold reset. repeat first [ apply set_averaging_sampling | sampling_step ]. Qed.

Lemma exec_sampling (Lase_reset : Lase.t -> Lase.t) (c : call) :
  stable no_sampling (exec Lase_reset c).
Proof.
  destruct c; cbn [exec].
  - apply reset_sampling.
  - apply set_averaging_sampling.
  - apply get_adc_sampling.
  - apply stable_bind; [apply white_noise_sampling | intros _; apply stable_ret].
  - apply get_amplitude_transfer_function_sampling.
  - apply stable_bind; [apply get_correction_sampling | intros _; apply stable_ret].
  - apply optimize_amplitude_sampling.
  - apply get_spectrum_sampling.
  - apply get_avg_spectrum_sampling.
  - unfold set_amplitude_transfer_function. sampling_step.
Qed.

Lemma init_sampling (Lase_new : nat -> Lase.t) (Lase_reset : Lase.t -> Lase.t)
  (map_size : Z) (g : nat -> R) (pos : nat) :
  no_sampling (snd (__init__ Lase_new Lase_reset map_size g pos)).
Proof.
  unfold __init__, DevMem.add_memory_map.
  apply reset_sampling. reflexivity.
Qed.

Lemma run_sampling (Lase_reset : Lase.t -> Lase.t) (cs : list call) (w : World) :
  no_sampling w -> no_sampling (run Lase_reset cs w).
Proof.
  revert w. unfold run.
  induction cs as [| c cs IH]; intros w Hw; cbn [fold_left].
  - exact Hw.
  - apply IH. apply exec_sampling. exact Hw.
Qed.

End MissingAttribute.

(** C5.  On the controller as its constructor builds it, and after any
    sequence of its operations, the estimation of the transfer function does
    not complete for any trial count: line 101 reads [self.sampling], an
    attribute the class never creates (the constructor reads
    [self.lase_base.sampling]), so the call raises AttributeError there and
    leaves the transfer function and everything else as they were. *)
Theorem estimate_transfer_function_raises
  (Lase_new : nat -> Lase.t) (Lase_reset : Lase.t -> Lase.t)
  (map_size : Z) (g : nat -> R) (pos : nat) (cs : list call)
  (channel_dac channel_adc transfer_avg : Z) :
  let w := run Lase_reset cs (snd (__init__ Lase_new Lase_reset map_size g pos)) in
  get_amplitude_transfer_function channel_dac channel_adc transfer_avg w
  = (Raise (AttributeError "sampling"), w).
Proof.
  cbn zeta. unfold get_amplitude_transfer_function.
  apply getattr_sampling_raises, run_sampling, init_sampling.
Qed.

(** * Further properties of the code *)

(** ** More on the acquisition *)

Lemma unwrap_not_finite (x : float64) : isfinite x = false -> unwrap x = NaN.
Proof. destruct x as [| s | r]; [reflexivity | reflexivity | discriminate]. Qed.

Lemma unwrap_period (x : R) (k : Z) :
  unwrap (Fin (x + 4294967296 * IZR k)) = unwrap (Fin x).
Proof.
  rewrite !unwrap_Fin. f_equal.
  assert (E : Int_part ((x + 4294967296 * IZR k - 2147483648) / 4294967296)
              = (Int_part ((x - 2147483648) / 4294967296) + k)%Z).
  { apply Int_part_unique. rewrite plus_IZR.
    pose proof (Int_part_bounds ((x - 2147483648) / 4294967296)) as B.
    replace ((x + 4294967296 * IZR k - 2147483648) / 4294967296)
      with ((x - 2147483648) / 4294967296 + IZR k) by (field; lra).
    lra. }
  rewrite E, plus_IZR. lra.
Qed.

(** X5.  The remap of line 72 reads a raw word as a 32-bit two's complement
    number: it keeps the values of the signed range, takes [2^32] off the
    upper half of the unsigned range, has period [2^32], changes nothing when
    applied twice, and turns an infinite or not-a-number sample into
    not-a-number. *)
Theorem unwrap_twos_complement :
  (forall x : R, - 2147483648 <= x < 2147483648 -> unwrap (Fin x) = Fin x) /\
  (forall x : R, 2147483648 <= x < 4294967296 ->
     unwrap (Fin x) = Fin (x - 4294967296)) /\
  (forall (x : R) (k : Z), unwrap (Fin (x + 4294967296 * IZR k)) = unwrap (Fin x)) /\
  (forall x : float64, unwrap (unwrap x) = unwrap x) /\
  (forall x : float64, isfinite x = false -> unwrap x = NaN).
Proof.
  split; [exact unwrap_signed |]. split; [exact unwrap_unsigned |].
  split; [exact unwrap_period |]. split; [| exact unwrap_not_finite].
  intros [| s | x]; [reflexivity | reflexivity |].
  destruct (unwrap_range x) as (r & E & Hr). rewrite E. apply unwrap_signed, Hr.
Qed.

(** X6.  A capture with averaging on and a count register that reads
    [k <> 0]: [get_adc] returns, leaves the failure flag as it was and the
    strobe cleared, and each sample of either channel is the remapped raw
    sample divided by [k] (the count of channel 1, for both channels), less
    the offset, times the gain; on a finite raw sample the quotient is a
    number of [[-2^31, 2^31)] over [k]. *)
Theorem get_adc_averaged (w : World) (k : Z) :
  ready (self w) ->
  avg_on (self w) = true ->
  reception_fault w = false ->
  averaging_count (self w) = k ->
  k <> 0%Z ->
  fst (get_adc w) = Ret tt /\
  _is_failed (self (snd (get_adc w))) = _is_failed (self w) /\
  strobe (snd (get_adc w)) = false /\
  (forall c : nat, (c < 2)%nat ->
     nth c (adc (self (snd (get_adc w)))) [] =
     map (fun x => fmul (fsub (fdiv (unwrap x) (of_int k))
                               (nth c (adc_offset (self w)) NaN))
                     (fdiv (nth c (optical_power (self w)) NaN)
                           (nth c (power (self w)) NaN)))
       (capture w c)) /\
  (forall x : R,
     exists u, - 2147483648 <= u < 2147483648 /\
               fdiv (unwrap (Fin x)) (of_int k) = Fin (u / IZR k)).
Proof.
  intros Hr Ha Hf Hc Hk.
  assert (Hs : strobe (snd (get_adc w)) = false)
    by (rewrite strobe_after_get_adc by exact Hr; exact Hf).
  rewrite (get_adc_acquired w Hr) in *. cbn [fst snd].
  split; [reflexivity |].
  split; [unfold acquired; rewrite Hf; reflexivity |].
  split; [exact Hs |]. split.
  - intros c Hlt. unfold acquired. rewrite Hf. cbn [self]. unfold calibrated.
    rewrite Ha, Hc.
    destruct c as [| [| c]]; [reflexivity | reflexivity | lia].
  - intros x. destruct (unwrap_range x) as (u & E & Hu).
    exists u. split; [exact Hu |]. rewrite E. unfold of_int.
    apply fdiv_Fin. intros E0. apply eq_IZR_R0 in E0. exact (Hk E0).
Qed.

Lemma sim_averaging_count (raw : Z -> nat -> float64) (count : Z) :
  averaging_count (self (Sim.averaging raw count)) = count.
Proof. reflexivity. Qed.

(** The theorem on the simulated controller with averaging on and a count
    of 4. *)
Lemma get_adc_averaged_witness :
  ready (self (Sim.averaging (Sim.constant 8) 4)) /\
  avg_on (self (Sim.averaging (Sim.constant 8) 4)) = true /\
  reception_fault (Sim.averaging (Sim.constant 8) 4) = false /\
  averaging_count (self (Sim.averaging (Sim.constant 8) 4)) = 4%Z /\
  4%Z <> 0%Z /\
  fst (get_adc (Sim.averaging (Sim.constant 8) 4)) = Ret tt.
Proof.
  assert (Hr : ready (self (Sim.averaging (Sim.constant 8) 4)))
    by apply averaging_ready.
  assert (Ha : avg_on (self (Sim.averaging (Sim.constant 8) 4)) = true)
    by reflexivity.
  assert (Hf : reception_fault (Sim.averaging (Sim.constant 8) 4) = false)
    by reflexivity.
  assert (Hc : averaging_count (self (Sim.averaging (Sim.constant 8) 4)) = 4%Z)
    by apply sim_averaging_count.
  assert (Hk : 4%Z <> 0%Z) by discriminate.
  split; [exact Hr |]. split; [exact Ha |]. split; [exact Hf |].
  split; [exact Hc |]. split; [exact Hk |].
  exact (proj1 (get_adc_averaged _ 4 Hr Ha Hf Hc Hk)).
Defined.

(** ** What no operation changes *)

Section Untouched.

Variable s0 : t.

Let kept (w : World) : Prop := constants (self w) = constants s0.

Ltac kept_step := stable_step constants (fun x => x = constants s0).

Lemma set_averaging_kept (on : bool) : stable kept (set_averaging on).
Proof. unfold set_averaging. repeat kept_step. Qed.

Lemma read_channel_kept (c : Z) (window : t -> Z) : stable kept (read_channel c window).
Proof. unfold read_channel, DevMem.read_buffer. repeat kept_step. Qed.

Lemma subtract_offset_kept (c : Z) : stable kept (subtract_offset c).
Proof. unfold subtract_offset. repeat kept_step. Qed.

Lemma apply_gain_kept (c : Z) : stable kept (apply_gain c).
Proof. unfold apply_gain. repeat kept_step. Qed.

Lemma get_adc_kept : stable kept get_adc.
Proof.
  unfold get_adc.
  repeat first
    [ apply read_channel_kept | apply subtract_offset_kept | apply apply_gain_kept
    | kept_step ].
Qed.

Lemma white_noise_kept (n_freqs : Z) (n_stop : option Z) :
  stable kept (_white_noise n_freqs n_stop).
Proof. unfold _white_noise, _white_noise_spectrum. repeat kept_step. Qed.

Lemma call_set_dac_kept : stable kept call_set_dac.
Proof. unfold call_set_dac. repeat kept_step. Qed.

Lemma transfer_trial_kept (n_freqs cd ca : Z) :
  stable kept (transfer_trial n_freqs cd ca).
Proof.
  unfold transfer_trial.
  repeat first [ apply white_noise_kept | apply call_set_dac_kept
               | apply get_adc_kept | kept_step ].
Qed.

Lemma get_amplitude_transfer_function_kept (cd ca k : Z) :
  stable kept (get_amplitude_transfer_function cd ca k).
Proof.
  unfold get_amplitude_transfer_function.
  repeat first [ apply transfer_trial_kept | apply call_set_dac_kept | kept_step ].
Qed.

Lemma get_correction_kept : stable kept get_correction.
Proof. unfold get_correction. repeat kept_step. Qed.

Lemma optimize_amplitude_kept (alpha : float64) (channel : Z) :
  stable kept (optimize_amplitude alpha channel).
Proof.
  unfold optimize_amplitude. repeat first [ apply get_correction_kept | kept_step ].
Qed.

Lemma get_spectrum_kept : stable kept get_spectrum.
Proof. unfold get_spectrum. repeat kept_step. Qed.

Lemma avg_spectrum_step_kept : stable kept avg_spectrum_step.
Proof. unfold avg_spectrum_step. repeat first [ apply get_adc_kept | kept_step ]. Qed.

Lemma get_avg_spectrum_kept (k : Z) : stable kept (get_avg_spectrum k).
Proof.
  unfold get_avg_spectrum. repeat first [ apply avg_spectrum_step_kept | kept_step ].
Qed.

Lemma reset_kept (Lase_reset : Lase.t -> Lase.t) : stable kept (reset Lase_reset).
Proof. unfold reset. repeat first [ apply set_averaging_kept | kept_step ]. Qed.

Lemma exec_kept (Lase_reset : Lase.t -> Lase.t) (c : call) :
  stable kept (exec Lase_reset c).
Proof.
  destruct c; cbn [exec].
  - apply reset_kept.
  - apply set_averaging_kept.
  - apply get_adc_kept.
  - apply stable_bind; [apply white_noise_kept | intros _; apply stable_ret].
  - apply get_amplitude_transfer_function_kept.
  - apply stable_bind; [apply get_correction_kept | intros _; apply stable_ret].
  - apply optimize_amplitude_kept.
  - apply get_spectrum_kept.
  - apply get_avg_spectrum_kept.
  - unfold set_amplitude_transfer_function. kept_step.
Qed.

End Untouched.

Lemma run_constants (Lase_reset : Lase.t -> Lase.t) (cs : list call) (w : World) :
  constants (self (run Lase_reset cs w)) = constants (self w).
Proof.
  revert w. unfold run.
  induction cs as [| c cs IH]; intros w; cbn [fold_left]; [reflexivity |].
  rewrite IH. apply (exec_kept (self w)). reflexivity.
Qed.

Lemma init_constants (Lase_new : nat -> Lase.t) (Lase_reset : Lase.t -> Lase.t)
  (map_size : Z) (g : nat -> R) (pos : nat) :
  let s := self (snd (__init__ Lase_new Lase_reset map_size g pos)) in
  adc_offset s = [Fin 0; Fin 0] /\
  optical_power s = [Fin 1; Fin 1] /\
  power s = [Fin 1; Fin 1] /\
  ideal_amplitude_waveform s = np_zeros (Lase.n (Lase_new (Z.to_nat 8192))) /\
  _adc_1 s = 1107296256%Z /\
  _adc_2 s = 1140850688%Z /\
  sampling s = None /\
  set_dac s = None.
Proof.
  cbv zeta. repeat split; reflexivity.
Qed.

(** X7.  No operation of the controller assigns the calibration vectors, the
    Gaussian filter, the ideal waveform, the window handles, the averaging
    offset, [sampling] or [set_dac]; so over any sequence of operations from
    construction the offsets stay 0, the gains 1, the ideal waveform all
    zeros, and [sampling] and [set_dac] absent. *)
Theorem constants_untouched (Lase_new : nat -> Lase.t) (Lase_reset : Lase.t -> Lase.t) :
  (forall c w, constants (self (snd (exec Lase_reset c w))) = constants (self w)) /\
  (forall cs map_size g pos,
     let s := self (run Lase_reset cs (snd (__init__ Lase_new Lase_reset map_size g pos))) in
     adc_offset s = [Fin 0; Fin 0] /\
     optical_power s = [Fin 1; Fin 1] /\
     power s = [Fin 1; Fin 1] /\
     ideal_amplitude_waveform s = np_zeros (Lase.n (Lase_new (Z.to_nat 8192))) /\
     sampling s = None /\
     set_dac s = None).
Proof.
  split.
  - intros c w. apply (exec_kept (self w)). reflexivity.
  - intros cs map_size g pos.
    pose proof (run_constants Lase_reset cs
                  (snd (__init__ Lase_new Lase_reset map_size g pos))) as H.
    pose proof (init_constants Lase_new Lase_reset map_size g pos) as Hi.
    revert H Hi. generalize (snd (__init__ Lase_new Lase_reset map_size g pos)).
    intros w0 H (E1 & E2 & E3 & E4 & _ & _ & E5 & E6). cbv zeta.
    unfold constants in H. injection H as H1 H2 H3 H4 H5 H6 H7 H8 H9 H10.
    rewrite H1, H2, H3, H5, H9, H10.
    repeat split; assumption.
Qed.

(** ** The acquisition over the lifetime of the controller *)

Section ReadyKept.

Variable Lase_reset : Lase.t -> Lase.t.
Hypothesis reset_keeps_depth : forall l, Lase.n (Lase_reset l) = Lase.n l.

Variable N : nat.

Ltac ready_step :=
  stable_step shapes
    (fun x : nat * list (list float64) * list float64 * list float64 * list float64 =>
       let '(n, a, o, p, q) := x in
       (has_shape 2 n a /\ (0 < n)%nat /\
        length o = 2%nat /\ length p = 2%nat /\ length q = 2%nat) /\ n = N).

Lemma get_adc_ready : stable (ready_at N) get_adc.
Proof.
  intros w [Hr Hn]. rewrite (get_adc_acquired w Hr). cbn [snd].
  split; [exact (acquired_ready w Hr) |].
  rewrite <- Hn. unfold acquired. destruct (reception_fault w); reflexivity.
Qed.

Lemma set_averaging_ready (on : bool) : stable (ready_at N) (set_averaging on).
Proof. unfold set_averaging. repeat ready_step. Qed.

Lemma white_noise_ready (n_freqs : Z) (n_stop : option Z) :
  stable (ready_at N) (_white_noise n_freqs n_stop).
Proof. unfold _white_noise, _white_noise_spectrum. repeat ready_step. Qed.

Lemma call_set_dac_ready : stable (ready_at N) call_set_dac.
Proof. unfold call_set_dac. repeat ready_step. Qed.

Lemma transfer_trial_ready (n_freqs cd ca : Z) :
  stable (ready_at N) (transfer_trial n_freqs cd ca).
Proof.
  unfold transfer_trial.
  repeat first [ apply white_noise_ready | apply call_set_dac_ready
               | apply get_adc_ready | ready_step ].
Qed.

Lemma get_amplitude_transfer_function_ready (cd ca k : Z) :
  stable (ready_at N) (get_amplitude_transfer_function cd ca k).
Proof.
  unfold get_amplitude_transfer_function.
  repeat first [ apply transfer_trial_ready | apply call_set_dac_ready | ready_step ].
Qed.

Lemma get_correction_ready : stable (ready_at N) get_correction.
Proof. unfold get_correction. repeat ready_step. Qed.

Lemma optimize_amplitude_ready (alpha : float64) (channel : Z) :
  stable (ready_at N) (optimize_amplitude alpha channel).
Proof.
  unfold optimize_amplitude. repeat first [ apply get_correction_ready | ready_step ].
Qed.

Lemma get_spectrum_ready : stable (ready_at N) get_spectrum.
Proof. unfold get_spectrum. repeat ready_step. Qed.

Lemma avg_spectrum_step_ready : stable (ready_at N) avg_spectrum_step.
Proof. unfold avg_spectrum_step. repeat first [ apply get_adc_ready | ready_step ]. Qed.

Lemma get_avg_spectrum_ready (k : Z) : stable (ready_at N) (get_avg_spectrum k).
Proof.
  unfold get_avg_spectrum. repeat first [ apply avg_spectrum_step_ready | ready_step ].
Qed.

Lemma reset_ready : stable (ready_at N) (reset Lase_reset).
Proof.
  unfold reset. apply stable_bind.
  - intros w [Hr Hn]. unfold update. cbn [snd]. unfold ready_at, ready in *.
    cbn [self lase_base adc adc_offset optical_power power with_lase_base].
    rewrite !reset_keeps_depth. split; assumption.
  - intros _. repeat first [ apply set_averaging_ready | ready_step ].
Qed.

Lemma exec_ready (c : call) : stable (ready_at N) (exec Lase_reset c).
Proof.
  destruct c; cbn [exec].
  - apply reset_ready.
  - apply set_averaging_ready.
  - apply get_adc_ready.
  - apply stable_bind; [apply white_noise_ready | intros _; apply stable_ret].
  - apply get_amplitude_transfer_function_ready.
  - apply stable_bind; [apply get_correction_ready | intros _; apply stable_ret].
  - apply optimize_amplitude_ready.
  - apply get_spectrum_ready.
  - apply get_avg_spectrum_ready.
  - unfold set_amplitude_transfer_function. ready_step.
Qed.

Lemma run_ready (cs : list call) (w : World) :
  ready_at N w -> ready_at N (run Lase_reset cs w).
Proof.
  revert w. unfold run.
  induction cs as [| c cs IH]; intros w Hw; cbn [fold_left]; [exact Hw |].
  apply IH, exec_ready, Hw.
Qed.

End ReadyKept.

Lemma init_ready (Lase_new : nat -> Lase.t) (Lase_reset : Lase.t -> Lase.t)
  (map_size : Z) (g : nat -> R) (pos : nat) :
  (forall l, Lase.n (Lase_reset l) = Lase.n l) ->
  (0 < Lase.n (Lase_new (Z.to_nat 8192)))%nat ->
  ready_at (Lase.n (Lase_new (Z.to_nat 8192)))
    (snd (__init__ Lase_new Lase_reset map_size g pos)).
Proof.
  intros Hk Hn. unfold __init__, DevMem.add_memory_map.
  apply (reset_ready Lase_reset Hk). split; [| reflexivity].
  unfold ready. cbn [self lase_base adc adc_offset optical_power power Lase.n Lase.with_dvm].
  split; [apply np_zeros2_shape |]. split; [exact Hn |].
  repeat split; reflexivity.
Qed.

(** X8.  When the base driver has a sample depth of at least one and its
    [reset] keeps it, [get_adc] raises nothing at any point of the life of
    the controller: after construction and any sequence of operations
    (whether they returned or raised) it returns, and leaves two buffers of
    the sample depth. *)
Theorem get_adc_never_raises (Lase_new : nat -> Lase.t) (Lase_reset : Lase.t -> Lase.t)
  (cs : list call) (map_size : Z) (g : nat -> R) (pos : nat) :
  (forall l, Lase.n (Lase_reset l) = Lase.n l) ->
  (0 < Lase.n (Lase_new (Z.to_nat 8192)))%nat ->
  let w := run Lase_reset cs (snd (__init__ Lase_new Lase_reset map_size g pos)) in
  fst (get_adc w) = Ret tt /\
  has_shape 2 (Lase.n (Lase_new (Z.to_nat 8192))) (adc (self (snd (get_adc w)))).
Proof.
  intros Hk Hn w.
  assert (Hw : ready_at (Lase.n (Lase_new (Z.to_nat 8192))) w).
  { apply (run_ready Lase_reset Hk), init_ready; assumption. }
  destruct (get_adc_ready _ w Hw) as [Hr' Hn'].
  destruct Hw as [Hr _].
  rewrite (get_adc_acquired w Hr) in *. cbn [fst snd] in *.
  split; [reflexivity |]. rewrite <- Hn'. apply Hr'.
Qed.

(** The theorem on the simulated base driver, after an estimation that raises
    and a reset. *)
Lemma get_adc_never_raises_witness :
  (forall l, Lase.n (Sim.Lase_reset l) = Lase.n l) /\
  (0 < Lase.n (Sim.Lase_new (Sim.device Sim.zeros 0) (Z.to_nat 8192)))%nat /\
  fst (get_adc
         (run Sim.Lase_reset [GetAmplitudeTransferFunction 0 0 1; Reset]
            (snd (__init__ (Sim.Lase_new (Sim.device Sim.zeros 0)) Sim.Lase_reset
                    4096 (fun _ => 0) 0)))) = Ret tt.
Proof.
  assert (Hk : forall l, Lase.n (Sim.Lase_reset l) = Lase.n l) by reflexivity.
  assert (Hn : (0 < Lase.n (Sim.Lase_new (Sim.device Sim.zeros 0) (Z.to_nat 8192)))%nat)
    by exact positive_8192.
  split; [exact Hk |]. split; [exact Hn |].
  exact (proj1 (get_adc_never_raises (Sim.Lase_new (Sim.device Sim.zeros 0))
                  Sim.Lase_reset [GetAmplitudeTransferFunction 0 0 1; Reset]
                  4096 (fun _ => 0) 0%nat Hk Hn)).
Defined.

(** ** The probe generator and the state *)

Lemma np_fft_irfft_short (x : list complex) :
  (length x <= 1)%nat -> np_fft_irfft x = Raise ValueError.
Proof. destruct x as [| a [| b x]]; cbn [length]; [reflexivity | reflexivity | lia]. Qed.

(** The state a monadic step leaves when it only reads the instance. *)
Lemma white_noise_spectrum_state (n_freqs : Z) (n_stop : option Z) (w : World) :
  snd (_white_noise_spectrum n_freqs n_stop w) =
  if (n_freqs <? 0)%Z then w
  else mkWorld (self w) (np_random w) (np_random_pos w + Z.to_nat n_freqs)%nat.
Proof.
  unfold _white_noise_spectrum. cbv [bind lift np_random_rand getattr].
  destruct (n_freqs <? 0)%Z; [reflexivity |]. cbn [fst snd self].
  repeat match goal with
         | |- context [match ?x with _ => _ end] =>
             lazymatch x with
             | context [match _ with _ => _ end] => fail
             | _ => destruct x
             end
         end; reflexivity.
Qed.

Lemma white_noise_state (n_freqs : Z) (n_stop : option Z) (w : World) :
  snd (_white_noise n_freqs n_stop w) = snd (_white_noise_spectrum n_freqs n_stop w).
Proof.
  unfold _white_noise. unfold bind at 1.
  destruct (_white_noise_spectrum n_freqs n_stop w) as [[X | e] w']; [| reflexivity].
  cbv [bind lift ret]. cbn [snd].
  destruct (np_fft_ifft X); [| reflexivity].
  destruct (np_max _); reflexivity.
Qed.

(** X9.  The probe generator never changes the controller instance: whatever
    [n_freqs] and [n_stop], and whether it returns or raises, it leaves every
    attribute as it was and takes [n_freqs] draws from numpy's generator
    (none when [n_freqs] is negative); with [n_freqs] at most 1 it raises
    [ValueError]. *)
Theorem white_noise_effect (n_freqs : Z) (n_stop : option Z) (w : World) :
  self (snd (_white_noise n_freqs n_stop w)) = self w /\
  np_random (snd (_white_noise n_freqs n_stop w)) = np_random w /\
  np_random_pos (snd (_white_noise n_freqs n_stop w))
  = (np_random_pos w + Z.to_nat n_freqs)%nat /\
  ((n_freqs <= 1)%Z -> fst (_white_noise n_freqs n_stop w) = Raise ValueError).
Proof.
  rewrite white_noise_state, white_noise_spectrum_state.
  destruct (n_freqs <? 0)%Z eqn:E.
  - apply Z.ltb_lt in E.
    split; [reflexivity |]. split; [reflexivity |].
    split; [rewrite Z2Nat.nonpos by lia; lia |].
    intros _. unfold _white_noise, _white_noise_spectrum.
    replace (n_freqs <? 0)%Z with true by (symmetry; apply Z.ltb_lt; exact E).
    reflexivity.
  - apply Z.ltb_ge in E.
    split; [reflexivity |]. split; [reflexivity |]. split; [reflexivity |].
    intros H1. unfold _white_noise, _white_noise_spectrum.
    replace (n_freqs <? 0)%Z with false by (symmetry; apply Z.ltb_ge; exact E).
    cbv [bind lift np_random_rand]. cbn [fst snd].
    rewrite np_fft_irfft_short; [reflexivity |].
    rewrite length_zip_with, !length_map, length_seq. lia.
Qed.

(** ** The correction waveform *)

Lemma cdiv_cfin (z w : complex) :
  cfin z -> cfin w ->
  Rof (fst w) * Rof (fst w) + Rof (snd w) * Rof (snd w) <> 0 ->
  cfin (cdiv z w).
Proof.
  intros Hz Hw Hn. rewrite (cfin_eq z Hz), (cfin_eq w Hw).
  unfold cdiv. cbn [fst snd]. cbv [fmul fadd fsub]. cbn [fst snd].
  rewrite !fdiv_Fin by exact Hn. apply cfin_Fin.
Qed.

Lemma fsum_finite (l : list float64) :
  Forall (fun x => isfinite x = true) l -> exists r, fsum l = Fin r.
Proof.
  induction 1 as [| x l Hx Hl [r IH]]; [exists 0; reflexivity |].
  destruct x as [| s | a]; try discriminate.
  unfold fsum in *. cbn [fold_right]. rewrite IH. eexists. reflexivity.
Qed.

Lemma np_mean_finite (l : list float64) :
  Forall (fun x => isfinite x = true) l -> (0 < length l)%nat ->
  exists r, np_mean l = Fin r.
Proof.
  intros Hl Hn. destruct (fsum_finite l Hl) as [r E].
  unfold np_mean, of_nat. rewrite E. eexists. apply fdiv_Fin.
  apply not_0_INR. lia.
Qed.

Lemma amplitude_error_finite (s : t) :
  Forall (fun x => isfinite x = true) (nth 0 (adc s) []) ->
  (0 < length (nth 0 (adc s) []))%nat ->
  Forall (fun x => isfinite x = true) (ideal_amplitude_waveform s) ->
  Forall (fun x => isfinite x = true) (amplitude_error_of s).
Proof.
  intros Hr Hn Hi. unfold amplitude_error_of, amplitude_error_from.
  destruct (np_mean_finite _ Hr Hn) as [m Em]. rewrite Em.
  generalize (ideal_amplitude_waveform s) Hi. clear Hi Em Hn.
  induction Hr as [| x row Hx Hr IH]; intros ideal Hi; [constructor |].
  destruct Hi as [| y ideal Hy Hi]; cbn [map zip_with]; [constructor |].
  constructor; [| apply IH, Hi].
  destruct x as [| ? | a]; try discriminate.
  destruct y as [| ? | b]; try discriminate. reflexivity.
Qed.

(** The spectrum [get_correction] inverts, for arrays of one length. *)
Lemma correction_spectrum_fin (err : list float64) (tf : list complex)
  (g : list float64) :
  Forall (fun x => isfinite x = true) err ->
  Forall (fun z => exists a b, z = (Fin a, Fin b) /\ (a <> 0 \/ b <> 0)) tf ->
  Forall (fun x => isfinite x = true) g ->
  Forall cfin
    (zip_with (fun x z => cmul (RtoC x) z) g
       (<[0%nat := RtoC (of_int 0)]> (zip_with cdiv (dft (-1) (map RtoC err)) tf))).
Proof.
  intros He Ht Hg.
  apply (Forall_cfin_zip_with _ (fun x => isfinite x = true) cfin); [| exact Hg |].
  - intros x z Hx Hz. destruct x as [| ? | a]; try discriminate.
    rewrite (cfin_eq z Hz). apply cfin_Fin.
  - apply Forall_insert; [| apply cfin_Fin].
    apply (Forall_cfin_zip_with _ cfin
             (fun z => exists a b, z = (Fin a, Fin b) /\ (a <> 0 \/ b <> 0)));
      [| | exact Ht].
    + intros z w Hz (a & b & -> & Hab). apply cdiv_cfin; [exact Hz | apply cfin_Fin |].
      cbn [fst snd Rof]. nra.
    + apply dft_fin, List.Forall_map.
      eapply Forall_impl; [exact He |].
      intros x Hx. destruct x as [| ? | a]; try discriminate. apply cfin_Fin.
Qed.

(** X10.  When the stored amplitude error, the Gaussian filter and the
    transfer function are finite arrays of one length, with no bin of the
    transfer function equal to zero, [get_correction] returns a finite
    waveform of that length whose samples sum to zero (bin 0 is forced to 0
    before the inverse transform), and changes nothing. *)
Theorem get_correction_zero_mean (w : World) (err : list float64) :
  amplitude_error (self w) = Some err ->
  (0 < length err)%nat ->
  length (amplitude_transfer_function (self w)) = length err ->
  length (gaussian_filter (self w)) = length err ->
  Forall (fun x => isfinite x = true) err ->
  Forall (fun z => exists a b, z = (Fin a, Fin b) /\ (a <> 0 \/ b <> 0))
    (amplitude_transfer_function (self w)) ->
  Forall (fun x => isfinite x = true) (gaussian_filter (self w)) ->
  exists rs,
    get_correction w = (Ret (map Fin rs), w) /\
    length rs = length err /\
    Rsum_from (fun t => nth t rs 0) 0 (length rs) = 0.
Proof.
  intros He Hn Ht Hg Fe Ft Fg.
  rewrite (get_correction_ok w err He Hn Ht Hg). unfold correction_of.
  pose proof (correction_spectrum_fin err _ _ Fe Ft Fg) as HX.
  set (X := zip_with _ _ _) in *.
  assert (LX : length X = length err).
  { unfold X. rewrite length_zip_with, length_insert, length_zip_with,
      length_dft, length_map. lia. }
  destruct (ifft_real_part X HX) as (rs & Ers & Lrs & Sum); [lia |].
  exists rs. rewrite Ers. split; [reflexivity |]. split; [lia |].
  rewrite Sum. unfold X.
  destruct (gaussian_filter (self w)) as [| g0 g] eqn:Eg; [cbn in Hg; lia |].
  destruct (zip_with cdiv (dft (-1) (map RtoC err)) (amplitude_transfer_function (self w)))
    as [| z0 zs] eqn:Ez.
  { apply (f_equal length) in Ez.
    rewrite length_zip_with, length_dft, length_map in Ez. cbn in Ez. lia. }
  cbn [zip_with nth]. inversion Fg as [| ? ? H0 _]; subst.
  destruct g0 as [| ? | a]; try discriminate.
  cbn. cbv [fsub fmul of_int Rof]. lra.
Qed.

(** ** The Gaussian filter of the constructor *)

Lemma init_gaussian_filter (Lase_new : nat -> Lase.t) (Lase_reset : Lase.t -> Lase.t)
  (map_size : Z) (g : nat -> R) (pos : nat) :
  gaussian_filter (self (snd (__init__ Lase_new Lase_reset map_size g pos)))
  = map (fun f => fmul (Fin 1)
                    (fexp (fdiv (fmul (Fin (-1)) (fmul f f)) (Fin (2 * (5e6 * 5e6))))))
      (Sampling.f_fft (Lase.sampling (Lase_new (Z.to_nat 8192)))).
Proof. reflexivity. Qed.

Lemma gaussian_entry (f : R) :
  fmul (Fin 1) (fexp (fdiv (fmul (Fin (-1)) (fmul (Fin f) (Fin f))) (Fin (2 * (5e6 * 5e6)))))
  = Fin (1 * exp (-1 * (f * f) / (2 * (5e6 * 5e6)))).
Proof.
  cbv [fmul]. rewrite fdiv_Fin by lra. reflexivity.
Qed.

Lemma gaussian_entry_bounds (f : R) :
  0 < 1 * exp (-1 * (f * f) / (2 * (5e6 * 5e6))) <= 1.
Proof.
  assert (H : -1 * (f * f) / (2 * (5e6 * 5e6)) <= 0).
  { assert (0 <= f * f) by nra.
    assert (0 < / (2 * (5e6 * 5e6))) by (apply Rinv_0_lt_compat; lra).
    unfold Rdiv. nra. }
  pose proof (exp_pos (-1 * (f * f) / (2 * (5e6 * 5e6)))) as Hp.
  split; [lra |].
  destruct H as [H | H].
  - apply exp_increasing in H. rewrite exp_0 in H. lra.
  - rewrite H, exp_0. lra.
Qed.

Lemma run_gaussian_filter (Lase_reset : Lase.t -> Lase.t) (cs : list call) (w : World) :
  gaussian_filter (self (run Lase_reset cs w)) = gaussian_filter (self w).
Proof.
  pose proof (run_constants Lase_reset cs w) as H. unfold constants in H.
  injection H as _ _ _ H _ _ _ _ _ _. exact H.
Qed.

(** X11.  When the frequencies of the base driver's grid are finite, the
    Gaussian filter has, after construction and after any sequence of
    operations, one entry per frequency, each in (0, 1], and an entry of 1
    at a frequency of 0. *)
Theorem gaussian_filter_bounds (Lase_new : nat -> Lase.t) (Lase_reset : Lase.t -> Lase.t)
  (cs : list call) (map_size : Z) (g : nat -> R) (pos : nat) :
  Forall (fun f => isfinite f = true)
    (Sampling.f_fft (Lase.sampling (Lase_new (Z.to_nat 8192)))) ->
  let s := self (run Lase_reset cs (snd (__init__ Lase_new Lase_reset map_size g pos))) in
  length (gaussian_filter s)
  = length (Sampling.f_fft (Lase.sampling (Lase_new (Z.to_nat 8192)))) /\
  Forall (fun x => exists r, x = Fin r /\ 0 < r <= 1) (gaussian_filter s) /\
  (forall i : nat,
     Sampling.f_fft (Lase.sampling (Lase_new (Z.to_nat 8192))) !! i = Some (Fin 0) ->
     gaussian_filter s !! i = Some (Fin 1)).
Proof.
  intros Hf s. unfold s. rewrite run_gaussian_filter, init_gaussian_filter.
  split; [apply length_map |]. split.
  - apply List.Forall_map. eapply Forall_impl; [exact Hf |].
    intros [| ? | f] H; try discriminate.
    rewrite gaussian_entry. eexists. split; [reflexivity | apply gaussian_entry_bounds].
  - intros i Hi. rewrite list_lookup_fmap, Hi. cbn [fmap option_fmap option_map].
    rewrite gaussian_entry. do 2 f_equal.
    replace (-1 * (0 * 0) / (2 * (5e6 * 5e6))) with 0 by (field; lra).
    rewrite exp_0. lra.
Qed.

Lemma sim_f_fft_finite (n : nat) (fs : R) :
  Forall (fun f => isfinite f = true) (Sim.f_fft n fs).
Proof. unfold Sim.f_fft. apply List.Forall_map, Forall_true. reflexivity. Qed.

(** The theorem on the simulated base driver, after one acquisition. *)
Lemma gaussian_filter_bounds_witness :
  Forall (fun f => isfinite f = true)
    (Sampling.f_fft (Lase.sampling (Sim.Lase_new (Sim.device Sim.zeros 0) (Z.to_nat 8192)))) /\
  Forall (fun x => exists r, x = Fin r /\ 0 < r <= 1)
    (gaussian_filter
       (self (run Sim.Lase_reset [GetAdc]
                (snd (__init__ (Sim.Lase_new (Sim.device Sim.zeros 0)) Sim.Lase_reset
                        4096 (fun _ => 0) 0))))).
Proof.
  assert (Hf : Forall (fun f => isfinite f = true)
                 (Sampling.f_fft
                    (Lase.sampling (Sim.Lase_new (Sim.device Sim.zeros 0) (Z.to_nat 8192)))))
    by apply sim_f_fft_finite.
  split; [exact Hf |].
  exact (proj1 (proj2 (gaussian_filter_bounds (Sim.Lase_new (Sim.device Sim.zeros 0))
                         Sim.Lase_reset [GetAdc] 4096 (fun _ => 0) 0%nat Hf))).
Defined.

(** ** The optimisation step on an instance without output buffer *)

(** Line 123 stores the error; line 124 then reads [self.dac]. *)
Lemma optimize_amplitude_no_dac (w : World) (alpha : float64) (channel : Z) :
  let n := Lase.n (lase_base (self w)) in
  has_shape 2 n (adc (self w)) ->
  length (ideal_amplitude_waveform (self w)) = n ->
  dac (self w) = None ->
  optimize_amplitude alpha channel w =
    (Raise (AttributeError "dac"),
     mkWorld (with_amplitude_error (Some (amplitude_error_of (self w))) (self w))
       (np_random w) (np_random_pos w)).
Proof.
  intros n Hs Hi Hd.
  destruct (has_shape_2 _ _ Hs) as (r0 & r1 & Ea & L0 & L1).
  unfold optimize_amplitude.
  cbv [bind attr lift]. rewrite Ea, !getrow_0. cbv beta iota.
  rewrite broadcast2_same by (rewrite length_map; lia). cbv beta iota.
  unfold update at 1. cbn [self].
  unfold getattr at 1. cbn [self dac with_amplitude_error]. rewrite Hd.
  unfold amplitude_error_of, amplitude_error_from. rewrite Ea. reflexivity.
Qed.

(** X12.  On an instance without the attribute [dac] (as the constructor
    leaves it) and with no amplitude error stored yet, [get_correction]
    raises [AttributeError]; [optimize_amplitude] raises [AttributeError] for
    [dac] after it has stored the amplitude error of channel 0, and from then
    on [get_correction] returns a waveform of the sample depth. *)
Theorem optimize_amplitude_without_dac (w : World) (alpha : float64) (channel : Z) :
  let n := Lase.n (lase_base (self w)) in
  has_shape 2 n (adc (self w)) ->
  (0 < n)%nat ->
  length (ideal_amplitude_waveform (self w)) = n ->
  length (amplitude_transfer_function (self w)) = n ->
  length (gaussian_filter (self w)) = n ->
  dac (self w) = None ->
  amplitude_error (self w) = None ->
  let w' := snd (optimize_amplitude alpha channel w) in
  get_correction w = (Raise (AttributeError "amplitude_error"), w) /\
  fst (optimize_amplitude alpha channel w) = Raise (AttributeError "dac") /\
  amplitude_error (self w') = Some (amplitude_error_of (self w)) /\
  exists c, get_correction w' = (Ret c, w') /\ length c = n.
Proof.
  intros n Hs Hn Hi Ht Hg Hd He w'. unfold w'.
  rewrite (optimize_amplitude_no_dac w alpha channel Hs Hi Hd). cbn [fst snd].
  split.
  { unfold get_correction. unfold bind at 1, getattr at 1. rewrite He. reflexivity. }
  split; [reflexivity |]. split; [reflexivity |].
  destruct (has_shape_2 _ _ Hs) as (r0 & r1 & Ea & L0 & L1).
  assert (Le : length (amplitude_error_of (self w)) = n).
  { unfold amplitude_error_of, amplitude_error_from. rewrite Ea. cbn [nth].
    rewrite length_zip_with, length_map. lia. }
  eexists. split.
  - apply get_correction_ok.
    + reflexivity.
    + rewrite Le. exact Hn.
    + cbn [self amplitude_transfer_function with_amplitude_error]. congruence.
    + cbn [self gaussian_filter with_amplitude_error]. congruence.
  - cbn [self]. rewrite length_correction_of.
    + exact Le.
    + cbn [amplitude_transfer_function with_amplitude_error]. congruence.
    + cbn [gaussian_filter with_amplitude_error]. congruence.
Qed.

Lemma sim_shapes (raw : Z -> nat -> float64) (count : Z) :
  let w := Sim.fresh raw count in
  let n := Lase.n (lase_base (self w)) in
  has_shape 2 n (adc (self w)) /\
  (0 < n)%nat /\
  length (ideal_amplitude_waveform (self w)) = n /\
  length (amplitude_transfer_function (self w)) = n /\
  length (gaussian_filter (self w)) = n /\
  dac (self w) = None /\
  amplitude_error (self w) = None.
Proof.
  cbv zeta.
  destruct (fresh_ready raw count) as (Hs & Hn & _).
  destruct (sim_lengths raw count) as (Li & Lt & Lg).
  rewrite (sim_n raw count) in *.
  split; [exact Hs |]. split; [exact Hn |]. split; [exact Li |].
  split; [exact Lt |]. split; [exact Lg |]. split; reflexivity.
Qed.

(** The theorem on the simulated controller as constructed. *)
Lemma optimize_amplitude_without_dac_witness :
  has_shape 2 (Lase.n (lase_base (self (Sim.fresh Sim.zeros 0))))
    (adc (self (Sim.fresh Sim.zeros 0))) /\
  (0 < Lase.n (lase_base (self (Sim.fresh Sim.zeros 0))))%nat /\
  length (ideal_amplitude_waveform (self (Sim.fresh Sim.zeros 0)))
  = Lase.n (lase_base (self (Sim.fresh Sim.zeros 0))) /\
  length (amplitude_transfer_function (self (Sim.fresh Sim.zeros 0)))
  = Lase.n (lase_base (self (Sim.fresh Sim.zeros 0))) /\
  length (gaussian_filter (self (Sim.fresh Sim.zeros 0)))
  = Lase.n (lase_base (self (Sim.fresh Sim.zeros 0))) /\
  dac (self (Sim.fresh Sim.zeros 0)) = None /\
  amplitude_error (self (Sim.fresh Sim.zeros 0)) = None /\
  fst (optimize_amplitude (Fin 1) 0 (Sim.fresh Sim.zeros 0))
  = Raise (AttributeError "dac").
Proof.
  destruct (sim_shapes Sim.zeros 0) as (Hs & Hn & Hi & Ht & Hg & Hd & He).
  split; [exact Hs |]. split; [exact Hn |]. split; [exact Hi |].
  split; [exact Ht |]. split; [exact Hg |]. split; [exact Hd |].
  split; [exact He |].
  exact (proj1 (proj2 (optimize_amplitude_without_dac _ (Fin 1) 0
                         Hs Hn Hi Ht Hg Hd He))).
Defined.

(** ** A transfer function of another length *)

Lemma broadcast2_mismatch {A B C : Type} (f : A -> B -> C) (a : list A) (b : list B) :
  length a <> length b -> length a <> 1%nat -> length b <> 1%nat ->
  broadcast2 f a b = Raise ValueError.
Proof.
  intros Hab Ha Hb. unfold broadcast2.
  rewrite (proj2 (Nat.eqb_neq _ _) Hab).
  destruct b as [| y [| y' b]]; cbn [length] in *; try lia;
    destruct a as [| x [| x' a]]; cbn [length] in *; try lia; reflexivity.
Qed.

(** X13.  [set_amplitude_transfer_function] installs any array unchecked; an
    array whose length is neither 1 nor that of the stored amplitude error
    (itself not of length 1) makes the next [get_correction] raise
    [ValueError], with nothing changed. *)
Theorem get_correction_bad_length (w : World) (err : list float64) (v : list complex) :
  amplitude_error (self w) = Some err ->
  length err <> 1%nat ->
  length v <> 1%nat ->
  length v <> length err ->
  let w' := snd (set_amplitude_transfer_function v w) in
  fst (set_amplitude_transfer_function v w) = Ret tt /\
  amplitude_transfer_function (self w') = v /\
  get_correction w' = (Raise ValueError, w').
Proof.
  intros He H1 Hv Hl w'. unfold w', set_amplitude_transfer_function, update.
  cbn [fst snd]. split; [reflexivity |]. split; [reflexivity |].
  unfold get_correction. unfold bind at 1, getattr at 1.
  cbn [self amplitude_error with_amplitude_transfer_function]. rewrite He.
  cbv [bind lift attr].
  destruct err as [| e0 err'].
  - reflexivity.
  - rewrite np_fft_fft_ok by (rewrite length_map; cbn [length]; lia). cbv beta iota.
    cbn [self amplitude_transfer_function with_amplitude_transfer_function].
    rewrite broadcast2_mismatch; [reflexivity | | |];
      rewrite ?length_dft, ?length_map; auto.
Qed.

(** ** The simulated controller after an optimisation step that raised *)

Lemma length_amplitude_error_of (s : t) (n : nat) :
  has_shape 2 n (adc s) -> length (ideal_amplitude_waveform s) = n ->
  length (amplitude_error_of s) = n.
Proof.
  intros Hs Hi. destruct (has_shape_2 _ _ Hs) as (r0 & r1 & Ea & L0 & L1).
  unfold amplitude_error_of, amplitude_error_from. rewrite Ea. cbn [nth].
  rewrite length_zip_with, length_map. lia.
Qed.

Lemma np_zeros_finite (n : nat) : Forall (fun x => isfinite x = true) (np_zeros n).
Proof.
  apply Forall_forall. intros x Hx. apply list_elem_of_In, repeat_spec in Hx.
  subst. reflexivity.
Qed.

Lemma sim_adc (raw : Z -> nat -> float64) (count : Z) :
  adc (self (Sim.fresh raw count)) = [np_zeros (Z.to_nat 8192); np_zeros (Z.to_nat 8192)].
Proof. reflexivity. Qed.

Lemma sim_error_finite (raw : Z -> nat -> float64) (count : Z) :
  Forall (fun x => isfinite x = true) (amplitude_error_of (self (Sim.fresh raw count))).
Proof.
  apply amplitude_error_finite.
  - rewrite sim_adc. apply np_zeros_finite.
  - rewrite sim_adc. cbn [nth]. unfold np_zeros. rewrite repeat_length.
    exact positive_8192.
  - rewrite sim_ideal. apply np_zeros_finite.
Qed.

Lemma sim_transfer_function_nonzero (raw : Z -> nat -> float64) (count : Z) :
  Forall (fun z => exists a b, z = (Fin a, Fin b) /\ (a <> 0 \/ b <> 0))
    (amplitude_transfer_function (self (Sim.fresh raw count))).
Proof.
  unfold Sim.fresh. rewrite init_transfer_function.
  apply Forall_forall. intros x Hx. apply list_elem_of_In, repeat_spec in Hx.
  subst. exists 1, 0. split; [reflexivity | left; lra].
Qed.

Lemma sim_gaussian_finite (raw : Z -> nat -> float64) (count : Z) :
  Forall (fun x => isfinite x = true) (gaussian_filter (self (Sim.fresh raw count))).
Proof.
  unfold Sim.fresh. rewrite init_gaussian_filter.
  apply List.Forall_map. eapply Forall_impl; [apply sim_f_fft_finite |].
  intros [| ? | f] H; try discriminate. rewrite gaussian_entry. reflexivity.
Qed.

(** The simulated controller once [optimize_amplitude(1, 0)] has raised on
    it. *)
Lemma sim_after_optimize (raw : Z -> nat -> float64) (count : Z) :
  snd (optimize_amplitude (Fin 1) 0 (Sim.fresh raw count)) =
  mkWorld
    (with_amplitude_error (Some (amplitude_error_of (self (Sim.fresh raw count))))
       (self (Sim.fresh raw count)))
    (np_random (Sim.fresh raw count)) (np_random_pos (Sim.fresh raw count)).
Proof.
  destruct (sim_shapes raw count) as (Hs & _ & Hi & _ & _ & Hd & _).
  rewrite (optimize_amplitude_no_dac _ (Fin 1) 0 Hs Hi Hd). reflexivity.
Qed.

Lemma sim_error_length (raw : Z -> nat -> float64) (count : Z) :
  length (amplitude_error_of (self (Sim.fresh raw count))) = Z.to_nat 8192.
Proof.
  destruct (sim_shapes raw count) as (Hs & _ & Hi & _).
  rewrite (length_amplitude_error_of _ _ Hs Hi). apply sim_n.
Qed.

(** The two theorems on that state. *)
Lemma get_correction_zero_mean_witness :
  let w := snd (optimize_amplitude (Fin 1) 0 (Sim.fresh Sim.zeros 0)) in
  let err := amplitude_error_of (self (Sim.fresh Sim.zeros 0)) in
  amplitude_error (self w) = Some err /\
  (0 < length err)%nat /\
  length (amplitude_transfer_function (self w)) = length err /\
  length (gaussian_filter (self w)) = length err /\
  Forall (fun x => isfinite x = true) err /\
  Forall (fun z => exists a b, z = (Fin a, Fin b) /\ (a <> 0 \/ b <> 0))
    (amplitude_transfer_function (self w)) /\
  Forall (fun x => isfinite x = true) (gaussian_filter (self w)) /\
  exists rs,
    get_correction w = (Ret (map Fin rs), w) /\
    length rs = length err /\
    Rsum_from (fun t => nth t rs 0) 0 (length rs) = 0.
Proof.
  cbv zeta. rewrite sim_after_optimize.
  destruct (sim_lengths Sim.zeros 0) as (_ & Lt & Lg).
  pose proof (sim_error_length Sim.zeros 0) as Le.
  pose proof (sim_error_finite Sim.zeros 0) as Fe.
  pose proof (sim_transfer_function_nonzero Sim.zeros 0) as Ft.
  pose proof (sim_gaussian_finite Sim.zeros 0) as Fg.
  revert Lt Lg Le Fe Ft Fg. generalize (Sim.fresh Sim.zeros 0).
  intros w0 Lt Lg Le Fe Ft Fg.
  set (w := mkWorld _ _ _).
  assert (He : amplitude_error (self w) = Some (amplitude_error_of (self w0)))
    by reflexivity.
  assert (Hn : (0 < length (amplitude_error_of (self w0)))%nat)
    by (rewrite Le; exact positive_8192).
  assert (Ht : length (amplitude_transfer_function (self w))
               = length (amplitude_error_of (self w0)))
    by (rewrite Le; exact Lt).
  assert (Hg : length (gaussian_filter (self w)) = length (amplitude_error_of (self w0)))
    by (rewrite Le; exact Lg).
  split; [exact He |]. split; [exact Hn |]. split; [exact Ht |].
  split; [exact Hg |]. split; [exact Fe |]. split; [exact Ft |].
  split; [exact Fg |].
  exact (get_correction_zero_mean w (amplitude_error_of (self w0))
           He Hn Ht Hg Fe Ft Fg).
Defined.

Lemma get_correction_bad_length_witness :
  let w := snd (optimize_amplitude (Fin 1) 0 (Sim.fresh Sim.zeros 0)) in
  let err := amplitude_error_of (self (Sim.fresh Sim.zeros 0)) in
  amplitude_error (self w) = Some err /\
  length err <> 1%nat /\
  length (@nil complex) <> 1%nat /\
  length (@nil complex) <> length err /\
  get_correction (snd (set_amplitude_transfer_function [] w))
  = (Raise ValueError, snd (set_amplitude_transfer_function [] w)).
Proof.
  cbv zeta. rewrite sim_after_optimize.
  pose proof (sim_error_length Sim.zeros 0) as Le.
  revert Le. generalize (Sim.fresh Sim.zeros 0). intros w0 Le.
  set (w := mkWorld _ _ _).
  assert (He : amplitude_error (self w) = Some (amplitude_error_of (self w0)))
    by reflexivity.
  assert (H1 : length (amplitude_error_of (self w0)) <> 1%nat)
    by (rewrite Le; lia).
  assert (Hv : length (@nil complex) <> 1%nat) by discriminate.
  assert (Hl : length (@nil complex) <> length (amplitude_error_of (self w0)))
    by (rewrite Le; cbn [length]; lia).
  split; [exact He |]. split; [exact H1 |]. split; [exact Hv |]. split; [exact Hl |].
  exact (proj2 (proj2 (get_correction_bad_length w _ [] He H1 Hv Hl))).
Defined.

(** ** The spectrum helpers at their edges *)

Lemma fdiv_zero_zero : fdiv (Fin 0) (of_int 0) = NaN.
Proof. unfold fdiv, of_int. rewrite !Rzerob_true by reflexivity. reflexivity. Qed.

Lemma map_repeat {A B : Type} (f : A -> B) (a : A) (n : nat) :
  map f (repeat a n) = repeat (f a) n.
Proof. induction n as [| n IH]; [reflexivity |]. cbn [repeat map]. rewrite IH. reflexivity. Qed.

(** X14.  With the [sampling] attribute in place, [get_avg_spectrum(0)] makes
    no acquisition and divides the zeroed accumulator by zero: it returns,
    leaves the capture buffers and the device as they were, and leaves in
    [avg_spectrum] two rows of [n/2] not-a-numbers. *)
Theorem get_avg_spectrum_zero (w : World) (samp : Sampling.t) :
  sampling (self w) = Some samp ->
  get_avg_spectrum 0 w =
  (Ret tt,
   mkWorld
     (with_avg_spectrum (repeat (repeat NaN (Sampling.n samp / 2)) 2) (self w))
     (np_random w) (np_random_pos w)).
Proof.
  intros Hs. unfold get_avg_spectrum. change (Z.to_nat 0) with 0%nat.
  cbn [for_range].
  unfold bind at 1, getattr at 1. rewrite Hs.
  cbv [bind update attr ret]. cbn [self avg_spectrum with_avg_spectrum fst snd
                                    np_random np_random_pos].
  unfold np_zeros2, np_zeros. rewrite !map_repeat, fdiv_zero_zero.
  reflexivity.
Qed.

Lemma get_avg_spectrum_zero_witness :
  sampling (self (Sim.attach (Sim.fresh Sim.zeros 0)))
  = Some (Lase.sampling (lase_base (self (Sim.fresh Sim.zeros 0)))) /\
  fst (get_avg_spectrum 0 (Sim.attach (Sim.fresh Sim.zeros 0))) = Ret tt.
Proof.
  split; [apply attach_sampling |].
  exact (f_equal fst (get_avg_spectrum_zero _ _ (attach_sampling (Sim.fresh Sim.zeros 0)))).
Defined.

Lemma has_shape_take_rows (h n : nat) (rows : list (list complex)) :
  has_shape 2 n rows -> has_shape 2 (Nat.min h n) (map (take h) rows).
Proof.
  intros [Hl Hf]. split; [rewrite length_map; exact Hl |].
  apply List.Forall_map. eapply Forall_impl; [exact Hf |].
  intros row Hr. cbn beta. rewrite length_take, Hr. reflexivity.
Qed.

(** X15.  With the [sampling] attribute in place and two capture buffers of
    the sample depth, [get_spectrum] returns without an acquisition and
    changes the attribute [spectrum] only, leaving there two rows of
    [min(n/2, depth)] bins: the slice is cut short rather than an error when
    [n/2] exceeds the depth.  When every sample of the buffers is finite, the
    rows are the first [n/2] bins of the transform of each buffer. *)
Theorem get_spectrum_shape (w : World) (samp : Sampling.t) :
  has_shape 2 (Lase.n (lase_base (self w))) (adc (self w)) ->
  (0 < Lase.n (lase_base (self w)))%nat ->
  sampling (self w) = Some samp ->
  exists sp,
    get_spectrum w =
    (Ret tt, mkWorld (with_spectrum sp (self w)) (np_random w) (np_random_pos w)) /\
    has_shape 2 (Nat.min (Sampling.n samp / 2) (Lase.n (lase_base (self w)))) sp /\
    (Forall (Forall (fun x => isfinite x = true)) (adc (self w)) ->
     sp = map (fun row => take (Sampling.n samp / 2) (dft (-1) (map RtoC row)))
            (adc (self w))).
Proof.
  intros Ha Hn Hs.
  destruct (has_shape_2 _ _ Ha) as (r0 & r1 & Eadc & L0 & L1).
  exists (map (fun row => take (Sampling.n samp / 2) (dft (-1) (map RtoC row)))
            (adc (self w))).
  split; [| split; [| reflexivity]].
  - unfold get_spectrum. cbv [bind attr lift getattr update ret].
    rewrite Eadc, fft_rows_ok by lia. cbv beta iota. rewrite Hs. reflexivity.
  - rewrite Eadc. cbn [map]. split; [reflexivity |].
    repeat constructor; rewrite length_take, length_dft, length_map; lia.
Qed.

Lemma get_spectrum_shape_witness :
  has_shape 2 (Lase.n (lase_base (self (Sim.attach (Sim.fresh Sim.zeros 0)))))
    (adc (self (Sim.attach (Sim.fresh Sim.zeros 0)))) /\
  (0 < Lase.n (lase_base (self (Sim.attach (Sim.fresh Sim.zeros 0)))))%nat /\
  sampling (self (Sim.attach (Sim.fresh Sim.zeros 0)))
  = Some (Lase.sampling (lase_base (self (Sim.fresh Sim.zeros 0)))) /\
  fst (get_spectrum (Sim.attach (Sim.fresh Sim.zeros 0))) = Ret tt.
Proof.
  destruct (attach_ready _ (fresh_ready Sim.zeros 0)) as (Ha & Hn & _).
  split; [exact Ha |]. split; [exact Hn |]. split; [apply attach_sampling |].
  destruct (get_spectrum_shape _ _ Ha Hn (attach_sampling (Sim.fresh Sim.zeros 0)))
    as (sp & E & _).
  exact (f_equal fst E).
Defined.

(** ** Repeated acquisitions *)

Lemma acquired_twice (w : World) :
  DevMem.deterministic (Lase.dvm (lase_base (self w))) ->
  adc (self (acquired (acquired w))) = adc (self (acquired w)).
Proof.
  intros Hdet.
  rewrite <- (acquired_again w (avg_spectrum (self (acquired w)))
                (np_random (acquired w)) (np_random_pos (acquired w)) Hdet).
  assert (E : mkWorld (with_avg_spectrum (avg_spectrum (self (acquired w)))
                         (self (acquired w)))
                (np_random (acquired w)) (np_random_pos (acquired w))
              = acquired w)
    by (unfold acquired; destruct (reception_fault w); reflexivity).
  rewrite E. reflexivity.
Qed.

(** X16.  On a deterministic source (the sample memory the same at every
    read) a second [get_adc] leaves the buffers the first one left: each
    acquisition overwrites the buffers with the calibrated fresh read, with
    averaging on or off, nothing accumulating from one call to the next. *)
Theorem get_adc_repeatable (w : World) :
  ready (self w) ->
  DevMem.deterministic (Lase.dvm (lase_base (self w))) ->
  fst (get_adc w) = Ret tt /\
  fst (get_adc (snd (get_adc w))) = Ret tt /\
  adc (self (snd (get_adc (snd (get_adc w))))) = adc (self (snd (get_adc w))).
Proof.
  intros Hr Hdet. rewrite (get_adc_acquired w Hr). cbn [fst snd].
  rewrite (get_adc_acquired _ (acquired_ready w Hr)). cbn [fst snd].
  split; [reflexivity |]. split; [reflexivity |]. apply acquired_twice, Hdet.
Qed.

Lemma get_adc_repeatable_witness :
  ready (self (Sim.averaging (Sim.constant 8) 4)) /\
  DevMem.deterministic (Lase.dvm (lase_base (self (Sim.averaging (Sim.constant 8) 4)))) /\
  adc (self (snd (get_adc (snd (get_adc (Sim.averaging (Sim.constant 8) 4))))))
  = adc (self (snd (get_adc (Sim.averaging (Sim.constant 8) 4)))).
Proof.
  assert (Hr : ready (self (Sim.averaging (Sim.constant 8) 4)))
    by apply averaging_ready.
  assert (Hd : DevMem.deterministic
                 (Lase.dvm (lase_base (self (Sim.averaging (Sim.constant 8) 4)))))
    by (intros t1 t2 window i; reflexivity).
  split; [exact Hr |]. split; [exact Hd |].
  exact (proj2 (proj2 (get_adc_repeatable _ Hr Hd))).
Defined.

(** ** The spectrum helpers on the instance as constructed *)

Lemma white_noise_no_sampling (w : World) (k : nat) :
  sampling (self w) = None ->
  (2 <= k)%nat ->
  fst (_white_noise (Z.of_nat k) None w) = Raise (AttributeError "sampling").
Proof.
  intros Hs Hk.
  unfold _white_noise, _white_noise_spectrum.
  replace (Z.of_nat k <? 0)%Z with false by (symmetry; apply Z.ltb_ge; lia).
  rewrite Nat2Z.id.
  cbv [bind lift np_random_rand]. cbn [fst snd].
  fold (phased w k).
  rewrite np_fft_irfft_ok by (rewrite length_phased; lia).
  cbv beta iota.
  rewrite np_fft_fft_ok
    by (rewrite !length_map, length_dft, length_hermitian_ext;
        rewrite length_phased; lia).
  cbv beta iota. fold (respectrum w k).
  rewrite (setitem_ok _ 0) by (rewrite length_respectrum; lia).
  cbv beta iota. unfold getattr. cbn [self]. rewrite Hs.
  reflexivity.
Qed.

(** X17.  On the controller as its constructor builds it (with a sample depth
    of at least one that the base driver's [reset] keeps) and after any
    sequence of operations, [get_spectrum] and [get_avg_spectrum] raise
    [AttributeError] for [sampling] and change nothing, and the probe
    generator asked for two bins or more raises the same at line 94. *)
Theorem spectrum_methods_raise (Lase_new : nat -> Lase.t) (Lase_reset : Lase.t -> Lase.t)
  (cs : list call) (map_size : Z) (g : nat -> R) (pos : nat) :
  (forall l, Lase.n (Lase_reset l) = Lase.n l) ->
  (0 < Lase.n (Lase_new (Z.to_nat 8192)))%nat ->
  let w := run Lase_reset cs (snd (__init__ Lase_new Lase_reset map_size g pos)) in
  get_spectrum w = (Raise (AttributeError "sampling"), w) /\
  (forall n_avg, get_avg_spectrum n_avg w = (Raise (AttributeError "sampling"), w)) /\
  (forall k : nat, (2 <= k)%nat ->
     fst (_white_noise (Z.of_nat k) None w) = Raise (AttributeError "sampling")).
Proof.
  intros Hk Hn w.
  assert (Hs : sampling (self w) = None)
    by (apply run_sampling, init_sampling).
  assert (Hw : ready_at (Lase.n (Lase_new (Z.to_nat 8192))) w)
    by (apply (run_ready Lase_reset Hk), init_ready; assumption).
  destruct Hw as [(Ha & Hp & _) _].
  destruct (has_shape_2 _ _ Ha) as (r0 & r1 & Eadc & L0 & L1).
  split; [| split].
  - unfold get_spectrum. cbv [bind attr lift getattr].
    rewrite Eadc, fft_rows_ok by lia. cbv beta iota. rewrite Hs. reflexivity.
  - intros n_avg. unfold get_avg_spectrum.
    apply getattr_sampling_raises. exact Hs.
  - intros k H2. apply white_noise_no_sampling; assumption.
Qed.

Lemma spectrum_methods_raise_witness :
  (forall l, Lase.n (Sim.Lase_reset l) = Lase.n l) /\
  (0 < Lase.n (Sim.Lase_new (Sim.device Sim.zeros 0) (Z.to_nat 8192)))%nat /\
  fst (get_spectrum
         (run Sim.Lase_reset [GetAdc]
            (snd (__init__ (Sim.Lase_new (Sim.device Sim.zeros 0)) Sim.Lase_reset
                    4096 (fun _ => 0) 0)))) = Raise (AttributeError "sampling").
Proof.
  assert (Hk : forall l, Lase.n (Sim.Lase_reset l) = Lase.n l) by reflexivity.
  assert (Hn : (0 < Lase.n (Sim.Lase_new (Sim.device Sim.zeros 0) (Z.to_nat 8192)))%nat)
    by exact positive_8192.
  split; [exact Hk |]. split; [exact Hn |].
  exact (f_equal fst
           (proj1 (spectrum_methods_raise (Sim.Lase_new (Sim.device Sim.zeros 0))
                     Sim.Lase_reset [GetAdc] 4096 (fun _ => 0) 0%nat Hk Hn))).
Defined.

(** ** An estimation of no trial *)

Lemma cdiv_zero_zero (z : complex) :
  cdiv (cmul z (RtoC (of_int 0))) (RtoC (of_int 0)) = (NaN, NaN).
Proof.
  destruct z as [[| s | a] [| t | b]];
    unfold cdiv, cmul, RtoC, of_int; cbn [fst snd];
    cbv [fmul fadd fsub fdiv];
    rewrite ?(Rzerob_true 0) by reflexivity; cbn [xorb];
    rewrite ?(Rzerob_true 0) by reflexivity; try reflexivity.
  rewrite !Rzerob_true by lra. reflexivity.
Qed.

Lemma map_cdiv_cmul_zero (tf : list complex) :
  map (fun z => cdiv z (RtoC (of_int 0))) (map (fun z => cmul z (RtoC (of_int 0))) tf)
  = repeat (NaN, NaN) (length tf).
Proof.
  induction tf as [| z tf IH]; [reflexivity |].
  cbn [map length repeat]. rewrite IH, cdiv_zero_zero. reflexivity.
Qed.

(** X18.  With [sampling], [dac] and [set_dac] attached, an estimation of no
    trial ([transfer_avg = 0]) makes no acquisition and divides the zeroed
    accumulator by zero: it returns with bin 0 of the transfer function at 1
    and every other bin not-a-number, and with the driven row of the output
    buffer zeroed. *)
Theorem estimate_no_trial (samp : Sampling.t) (f : DevMem.t -> DevMem.t) (N : nat)
  (cd ca : Z) (kd : nat) (w : World) :
  (0 < N)%nat ->
  py_index 2 cd = Ret kd ->
  estimable samp f N w ->
  let w' := snd (get_amplitude_transfer_function cd ca 0 w) in
  fst (get_amplitude_transfer_function cd ca 0 w) = Ret tt /\
  amplitude_transfer_function (self w')
  = <[0%nat := RtoC (Fin 1)]> (repeat (NaN, NaN) N) /\
  adc (self w') = adc (self w) /\
  exists d', dac (self w') = Some d' /\ d' !! kd = Some (np_zeros N).
Proof.
  intros HN Hkd (Hr & Hn & Hs & Hsn & (d & Hd & Hsd) & Hf & Ht) w'.
  assert (Hkd2 : (kd < 2)%nat) by exact (py_index_lt 2 cd kd Hkd).
  assert (Ld : length d = 2%nat) by apply Hsd.
  assert (E : exists d',
    get_amplitude_transfer_function cd ca 0 w =
    (Ret tt,
     mkWorld
       (with_lase_base
          (Lase.with_dvm (f (Lase.dvm (lase_base (self w)))) (lase_base (self w)))
          (with_dac (Some d')
             (with_amplitude_transfer_function
                (<[0%nat := RtoC (Fin 1)]> (repeat (NaN, NaN) N)) (self w))))
       (np_random w) (np_random_pos w)) /\
    d' !! kd = Some (np_zeros N)).
  { exists (<[kd := np_zeros N]> d). split.
    - unfold get_amplitude_transfer_function. change (Z.to_nat 0) with 0%nat.
      cbn [for_range].
      unfold bind at 1, getattr at 1. rewrite Hs.
      cbv [bind attr update ret lift].
      cbn [self fst snd amplitude_transfer_function with_amplitude_transfer_function
             np_random np_random_pos].
      rewrite map_cdiv_cmul_zero, Ht.
      change 0%Z with (Z.of_nat 0).
      rewrite setitem_ok by (rewrite repeat_length; exact HN).
      cbv beta iota. unfold getattr at 1.
      cbn [self sampling with_amplitude_transfer_function]. rewrite Hs.
      unfold getattr at 1. cbn [self dac with_amplitude_transfer_function]. rewrite Hd.
      rewrite (setrow_index d cd kd)
        by (rewrite ?Ld, ?(has_shape_row 2 N d kd Hsd Hkd2);
            first [assumption | lia | (unfold np_zeros; rewrite repeat_length; exact Hsn)]).
      cbv beta iota. unfold call_set_dac. cbv [bind getattr].
      cbn [self set_dac with_dac with_amplitude_transfer_function]. rewrite Hf.
      unfold dvm_do, update. cbn [self np_random np_random_pos lase_base with_dac
                                    with_amplitude_transfer_function].
      rewrite Hsn. reflexivity.
    - apply list_lookup_insert_eq. rewrite Ld. exact Hkd2. }
  destruct E as (d' & E & Hd'). unfold w'. rewrite E. cbn [fst snd self].
  split; [reflexivity |]. split; [reflexivity |]. split; [reflexivity |].
  exists d'. split; [reflexivity | exact Hd'].
Qed.

Lemma sim_estimable_depth (raw : Z -> nat -> float64) (count : Z) :
  estimable (Lase.sampling (lase_base (self (Sim.fresh raw count))))
    (fun d => d) (Z.to_nat 8192) (Sim.attach (Sim.fresh raw count)).
Proof.
  replace (Z.to_nat 8192) with (2 * 4096)%nat by lia. apply sim_estimable.
Qed.

Lemma estimate_no_trial_witness :
  (0 < Z.to_nat 8192)%nat /\
  py_index 2 0 = Ret 0%nat /\
  estimable (Lase.sampling (lase_base (self (Sim.fresh Sim.zeros 0))))
    (fun d => d) (Z.to_nat 8192) (Sim.attach (Sim.fresh Sim.zeros 0)) /\
  fst (get_amplitude_transfer_function 0 0 0 (Sim.attach (Sim.fresh Sim.zeros 0)))
  = Ret tt.
Proof.
  assert (Hk : py_index 2 0 = Ret 0%nat) by reflexivity.
  split; [exact positive_8192 |]. split; [exact Hk |].
  split; [apply sim_estimable_depth |].
  exact (proj1 (estimate_no_trial _ _ _ 0 0 0 _ positive_8192 Hk
                  (sim_estimable_depth Sim.zeros 0))).
Defined.

(** ** Switching the averaging *)

Lemma setbit_idem (x n : Z) : (0 <= n)%Z -> Z.setbit (Z.setbit x n) n = Z.setbit x n.
Proof.
  intros H. apply Z.bits_inj'. intros m Hm.
  rewrite !Z.setbit_eqb by exact H. destruct (n =? m)%Z; reflexivity.
Qed.

Lemma clearbit_idem (x n : Z) : Z.clearbit (Z.clearbit x n) n = Z.clearbit x n.
Proof.
  apply Z.bits_inj'. intros m Hm.
  rewrite !Z.clearbit_eqb. destruct (n =? m)%Z; cbn; rewrite ?andb_false_r, ?andb_true_r;
    reflexivity.
Qed.

Lemma setbit_clearbit (x n : Z) :
  (0 <= n)%Z -> Z.setbit (Z.clearbit x n) n = Z.setbit x n.
Proof.
  intros H. apply Z.bits_inj'. intros m Hm.
  rewrite !Z.setbit_eqb, Z.clearbit_eqb by exact H.
  destruct (n =? m)%Z; cbn; rewrite ?andb_true_r; reflexivity.
Qed.

Lemma clearbit_setbit (x n : Z) :
  (0 <= n)%Z -> Z.clearbit (Z.setbit x n) n = Z.clearbit x n.
Proof.
  intros H. apply Z.bits_inj'. intros m Hm.
  rewrite !Z.clearbit_eqb, Z.setbit_eqb by exact H.
  destruct (n =? m)%Z; cbn; rewrite ?andb_false_r, ?andb_true_r; reflexivity.
Qed.

(** Bit 0 of a word as [set_averaging] writes it: cleared to switch the
    averaging on, set to switch it off. *)
Lemma averaging_bit_last (a b : bool) (x : Z) :
  averaging_bit b (averaging_bit a x) = averaging_bit b x.
Proof.
  destruct a, b; unfold averaging_bit;
    first [ apply clearbit_idem | apply setbit_idem; lia
          | apply setbit_clearbit; lia | apply clearbit_setbit; lia ].
Qed.

(** The register words [set_averaging] leaves. *)
Lemma set_averaging_words (on : bool) (w : World) :
  set_averaging on w =
  (Ret tt,
   mkWorld
     (with_lase_base
        (Lase.with_dvm
           (DevMem.mk
              (averaging_words on (lase_base (self w))
                 (DevMem.words (Lase.dvm (lase_base (self w)))))
              (DevMem.samples (Lase.dvm (lase_base (self w))))
              (DevMem.reads (Lase.dvm (lase_base (self w)))))
           (lase_base (self w)))
        (with_avg_on on (self w)))
     (np_random w) (np_random_pos w)).
Proof.
  unfold set_averaging, averaging_words, averaging_bit.
  destruct on; reflexivity.
Qed.

Lemma averaging_words_last (a b : bool) (lb : Lase.t) (m : gmap (Z * Z) Z) :
  averaging_words b lb (averaging_words a lb m) = averaging_words b lb m.
Proof.
  unfold averaging_words.
  set (K1 := (Lase._config lb, Lase._avg1_off lb)).
  set (K2 := (Lase._config lb, Lase._avg2_off lb)).
  clearbody K1 K2. apply map_eq. intros k.
  destruct (decide (K1 = K2)) as [E12 | N12].
  - subst K2. destruct (decide (k = K1)) as [E1 | N1]; [subst k |];
      repeat (first [ rewrite lookup_insert_eq
                    | rewrite lookup_insert_ne by congruence ];
              cbn [default]; unfold Datatypes.id);
      rewrite ?averaging_bit_last; reflexivity.
  - destruct (decide (k = K2)) as [E2 | N2];
      [subst k | destruct (decide (k = K1)) as [E1 | N1]; [subst k |]];
      repeat (first [ rewrite lookup_insert_eq
                    | rewrite lookup_insert_ne by congruence ];
              cbn [default]; unfold Datatypes.id);
      rewrite ?averaging_bit_last; reflexivity.
Qed.

Lemma averaging_words_with_dvm (on : bool) (d : DevMem.t) (lb : Lase.t)
  (m : gmap (Z * Z) Z) :
  averaging_words on (Lase.with_dvm d lb) m = averaging_words on lb m.
Proof. reflexivity. Qed.

(** X19.  [set_averaging] stores its argument in [avg_on] and writes bit 0 of
    the two averaging words of the config bank, cleared for on and set for
    off; the last call decides: a call after another leaves the state the
    call alone would leave, so the call is idempotent. *)
Theorem set_averaging_last_wins (a b : bool) (w : World) :
  set_averaging b (snd (set_averaging a w)) = set_averaging b w /\
  avg_on (self (snd (set_averaging b w))) = b /\
  (let lb := lase_base (self (snd (set_averaging b w))) in
   Z.testbit (DevMem.word (Lase.dvm lb) (Lase._config lb) (Lase._avg1_off lb)) 0 = negb b /\
   Z.testbit (DevMem.word (Lase.dvm lb) (Lase._config lb) (Lase._avg2_off lb)) 0 = negb b).
Proof.
  rewrite !set_averaging_words. cbn [snd self lase_base with_lase_base with_avg_on
    Lase.with_dvm Lase.dvm Lase._config Lase._avg1_off Lase._avg2_off
    DevMem.words DevMem.samples DevMem.reads avg_on].
  split; [| split; [reflexivity |]].
  - rewrite averaging_words_with_dvm, averaging_words_last. reflexivity.
  - cbv zeta. unfold DevMem.word. cbn [DevMem.words]. unfold averaging_words.
    set (K1 := (Lase._config (lase_base (self w)), Lase._avg1_off (lase_base (self w)))).
    set (K2 := (Lase._config (lase_base (self w)), Lase._avg2_off (lase_base (self w)))).
    assert (Hb : forall x, Z.testbit (averaging_bit b x) 0 = negb b).
    { intros x. unfold averaging_bit. destruct b; cbn [negb].
      - apply Z.clearbit_eq.
      - apply Z.setbit_eq. lia. }
    split.
    + destruct (decide (K1 = K2)) as [E | N].
      * rewrite E, lookup_insert_eq. cbn [default]. apply Hb.
      * rewrite lookup_insert_ne by (intros E; apply N; symmetry; exact E).
        rewrite lookup_insert_eq. cbn [default]. apply Hb.
    + rewrite lookup_insert_eq. cbn [default]. apply Hb.
Qed.

(** ** What the validation does not see *)

Lemma calibrated_nan (s : t) (c : nat) : calibrated s c NaN = NaN.
Proof. unfold calibrated. destruct (avg_on s); reflexivity. Qed.

(** X20.  The validation of line 68 looks at the first sample of each channel
    only: a not-a-number further into a buffer raises no fault, leaves the
    failure flag as it was, and comes out of the calibration as not-a-number
    at the same place. *)
Theorem get_adc_undetected_nan (w : World) (c i : nat) :
  ready (self w) ->
  reception_fault w = false ->
  (c < 2)%nat ->
  capture w c !! i = Some NaN ->
  fst (get_adc w) = Ret tt /\
  _is_failed (self (snd (get_adc w))) = _is_failed (self w) /\
  nth c (adc (self (snd (get_adc w)))) [] !! i = Some NaN.
Proof.
  intros Hr Hf Hc Hi. rewrite (get_adc_acquired w Hr). cbn [fst snd].
  split; [reflexivity |]. unfold acquired. rewrite Hf. cbn [self _is_failed adc
    with_adc with_lase_base].
  split; [reflexivity |].
  destruct c as [| [| c]]; [| | lia]; cbn [nth];
    rewrite list_lookup_fmap, Hi; cbn [fmap option_fmap option_map];
    rewrite calibrated_nan; reflexivity.
Qed.

Lemma get_adc_undetected_nan_witness :
  ready (self (Sim.fresh glitch 0)) /\
  reception_fault (Sim.fresh glitch 0) = false /\
  (0 < 2)%nat /\
  capture (Sim.fresh glitch 0) 0 !! 1%nat = Some NaN /\
  nth 0 (adc (self (snd (get_adc (Sim.fresh glitch 0))))) [] !! 1%nat = Some NaN.
Proof.
  assert (Hr : ready (self (Sim.fresh glitch 0))) by apply fresh_ready.
  assert (Hf : reception_fault (Sim.fresh glitch 0) = false) by reflexivity.
  assert (Hc : (0 < 2)%nat) by lia.
  assert (Hi : capture (Sim.fresh glitch 0) 0 !! 1%nat = Some NaN).
  { rewrite sim_capture, list_lookup_fmap, lookup_seq_lt by (apply Nat.ltb_lt; reflexivity).
    reflexivity. }
  split; [exact Hr |]. split; [exact Hf |]. split; [exact Hc |]. split; [exact Hi |].
  exact (proj2 (proj2 (get_adc_undetected_nan _ 0 1 Hr Hf Hc Hi))).
Defined.

(** ** The averaged spectrum is a spectrum of magnitudes *)

Lemma cabs_magnitude (z : complex) :
  cabs z = NaN \/ cabs z = Inf false \/ exists r, cabs z = Fin r /\ 0 <= r.
Proof.
  destruct z as [[| s | a] [| t | b]]; unfold cabs; cbn [fst snd]; auto.
  right. right. eexists. split; [reflexivity | apply sqrt_pos].
Qed.

(** X21.  With the [sampling] attribute in place, [get_avg_spectrum(1)]
    leaves two rows of [n/2] entries, none of them negative: each is a
    non-negative number, plus infinity or not-a-number. *)
Theorem avg_spectrum_nonnegative (w : World) (samp : Sampling.t) :
  ready (self w) ->
  sampling (self w) = Some samp ->
  (Sampling.n samp / 2 <= Lase.n (lase_base (self w)))%nat ->
  fst (get_avg_spectrum 1 w) = Ret tt /\
  has_shape 2 (Sampling.n samp / 2) (avg_spectrum (self (snd (get_avg_spectrum 1 w)))) /\
  Forall (Forall (fun x => x = NaN \/ x = Inf false \/ exists r, x = Fin r /\ 0 <= r))
    (avg_spectrum (self (snd (get_avg_spectrum 1 w)))).
Proof.
  intros Hr Hs Hh. rewrite (get_avg_spectrum_once w samp Hr Hs Hh).
  cbn [fst snd self avg_spectrum with_avg_spectrum].
  destruct (acquired_adc w) as (r0 & r1 & Ea & L0 & L1). rewrite Ea. cbn [map].
  split; [reflexivity |]. split.
  - split; [reflexivity |].
    repeat constructor; rewrite length_map, length_take, length_dft, length_map; lia.
  - repeat constructor; apply List.Forall_map, Forall_true; intros z; apply cabs_magnitude.
Qed.

Lemma avg_spectrum_nonnegative_witness :
  ready (self (Sim.attach (Sim.fresh Sim.zeros 0))) /\
  sampling (self (Sim.attach (Sim.fresh Sim.zeros 0)))
  = Some (Lase.sampling (lase_base (self (Sim.fresh Sim.zeros 0)))) /\
  (Sampling.n (Lase.sampling (lase_base (self (Sim.fresh Sim.zeros 0)))) / 2
   <= Lase.n (lase_base (self (Sim.attach (Sim.fresh Sim.zeros 0)))))%nat /\
  fst (get_avg_spectrum 1 (Sim.attach (Sim.fresh Sim.zeros 0))) = Ret tt.
Proof.
  assert (Hr : ready (self (Sim.attach (Sim.fresh Sim.zeros 0))))
    by apply attach_ready, fresh_ready.
  assert (Hs : sampling (self (Sim.attach (Sim.fresh Sim.zeros 0)))
               = Some (Lase.sampling (lase_base (self (Sim.fresh Sim.zeros 0)))))
    by reflexivity.
  assert (Hh : (Sampling.n (Lase.sampling (lase_base (self (Sim.fresh Sim.zeros 0)))) / 2
                <= Lase.n (lase_base (self (Sim.attach (Sim.fresh Sim.zeros 0)))))%nat)
    by (apply Nat.leb_le; reflexivity).
  split; [exact Hr |]. split; [exact Hs |]. split; [exact Hh |].
  exact (proj1 (avg_spectrum_nonnegative _ _ Hr Hs Hh)).
Defined.

(** ** The failure flag, exactly *)

Section FlagFrame.

(** The failure flag is [b]. *)
Variable b : option bool.

Let flag_is (w : World) : Prop := _is_failed (self w) = b.

Ltac exact_step := stable_step _is_failed (fun x : option bool => x = b).

Lemma set_averaging_flag_frame (on : bool) : stable flag_is (set_averaging on).
Proof. unfold set_averaging. repeat exact_step. Qed.

Lemma white_noise_flag_frame (n_freqs : Z) (n_stop : option Z) :
  stable flag_is (_white_noise n_freqs n_stop).
Proof. unfold _white_noise, _white_noise_spectrum. repeat exact_step. Qed.

Lemma get_correction_flag_frame : stable flag_is get_correction.
Proof. unfold get_correction. repeat exact_step. Qed.

Lemma optimize_amplitude_flag_frame (alpha : float64) (channel : Z) :
  stable flag_is (optimize_amplitude alpha channel).
Proof.
  unfold optimize_amplitude.
  repeat first [ apply get_correction_flag_frame | exact_step ].
Qed.

Lemma get_spectrum_flag_frame : stable flag_is get_spectrum.
Proof. unfold get_spectrum. repeat exact_step. Qed.

Lemma reset_flag_frame (Lase_reset : Lase.t -> Lase.t) :
  stable flag_is (reset Lase_reset).
Proof. unfold reset. repeat first [ apply set_averaging_flag_frame | exact_step ]. Qed.

End FlagFrame.

(** The operations that make no acquisition leave the flag exactly as it
    was. *)
Lemma exec_flag_frame (Lase_reset : Lase.t -> Lase.t) (c : call) (w : World) :
  match c with
  | GetAdc | GetAmplitudeTransferFunction _ _ _ | GetAvgSpectrum _ => True
  | _ => _is_failed (self (snd (exec Lase_reset c w))) = _is_failed (self w)
  end.
Proof.
  destruct c; cbn [exec]; try exact I.
  - apply (reset_flag_frame (_is_failed (self w))). reflexivity.
  - apply (set_averaging_flag_frame (_is_failed (self w))). reflexivity.
  - exact (stable_bind (fun w' => _is_failed (self w') = _is_failed (self w)) _ _
             (white_noise_flag_frame _ _ _) (fun _ => stable_ret _ _) w eq_refl).
  - exact (stable_bind (fun w' => _is_failed (self w') = _is_failed (self w)) _ _
             (get_correction_flag_frame _) (fun _ => stable_ret _ _) w eq_refl).
  - apply (optimize_amplitude_flag_frame (_is_failed (self w))). reflexivity.
  - apply (get_spectrum_flag_frame (_is_failed (self w))). reflexivity.
  - reflexivity.
Qed.

(** An acquisition on a ready instance sets the flag on a reception fault and
    on nothing else. *)
Lemma get_adc_flag_exact (w : World) :
  ready (self w) ->
  fst (get_adc w) = Ret tt /\
  _is_failed (self (snd (get_adc w)))
  = if reception_fault w then Some true else _is_failed (self w).
Proof.
  intros Hr. rewrite (get_adc_acquired w Hr). split; [reflexivity |].
  cbn [snd]. unfold acquired. destruct (reception_fault w); reflexivity.
Qed.

Lemma quiet_no_fault (w : World) : quiet (self w) -> reception_fault w = false.
Proof.
  intros ((_ & Hn & _) & Hq & _). unfold reception_fault, capture.
  destruct (Lase.n (lase_base (self w))) as [| n]; [lia |].
  cbn [seq map nth]. rewrite !Hq. reflexivity.
Qed.

Section Quiet.

Variable b : option bool.

(** The instance is quiet and its flag is [b]. *)
Let calm (w : World) : Prop := quiet (self w) /\ _is_failed (self w) = b.

Ltac calm_step :=
  stable_step acquisition_view
    (fun x : (nat * list (list float64) * list float64 * list float64 * list float64)
             * (nat -> Z -> nat -> float64) * option (DevMem.t -> DevMem.t)
             * option bool =>
       let '(sh, smp, sd, fl) := x in
       let '(n, a, o, p, q) := sh in
       ((has_shape 2 n a /\ (0 < n)%nat /\
         length o = 2%nat /\ length p = 2%nat /\ length q = 2%nat) /\
        (forall t window, isnan (smp t window 0%nat) = false) /\
        (forall f, sd = Some f -> forall d, DevMem.samples (f d) = DevMem.samples d)) /\
       fl = b).

Lemma get_adc_calm : stable calm get_adc.
Proof.
  intros w [Hq Hb]. pose proof (quiet_no_fault w Hq) as Hf.
  destruct Hq as (Hr & Hs & Hd).
  rewrite (get_adc_acquired w Hr). cbn [snd].
  pose proof (acquired_ready w Hr) as Hr'.
  unfold acquired in *. rewrite Hf in *. cbn [self] in *.
  split; [| exact Hb]. split; [exact Hr' |]. split; [exact Hs | exact Hd].
Qed.

Lemma call_set_dac_calm : stable calm call_set_dac.
Proof.
  intros w [(Hr & Hs & Hd) Hb]. unfold call_set_dac, bind, getattr.
  destruct (set_dac (self w)) as [f |] eqn:Ef.
  - unfold dvm_do, update. cbn [snd self].
    split; [| exact Hb]. split; [exact Hr |]. split.
    + intros t window.
      cbn [self lase_base with_lase_base Lase.dvm Lase.with_dvm].
      rewrite (Hd f eq_refl). apply Hs.
    + cbn [self set_dac with_lase_base]. rewrite Ef. exact Hd.
  - cbn [snd]. split; [| exact Hb]. split; [exact Hr |].
    split; [exact Hs |]. intros f E. rewrite Ef in E. discriminate E.
Qed.

Lemma white_noise_calm (n_freqs : Z) (n_stop : option Z) :
  stable calm (_white_noise n_freqs n_stop).
Proof. unfold _white_noise, _white_noise_spectrum. repeat calm_step. Qed.

Lemma transfer_trial_calm (n_freqs cd ca : Z) :
  stable calm (transfer_trial n_freqs cd ca).
Proof.
  unfold transfer_trial.
  repeat first [ apply white_noise_calm | apply call_set_dac_calm
               | apply get_adc_calm | calm_step ].
Qed.

Lemma get_amplitude_transfer_function_calm (cd ca k : Z) :
  stable calm (get_amplitude_transfer_function cd ca k).
Proof.
  unfold get_amplitude_transfer_function.
  repeat first [ apply transfer_trial_calm | apply call_set_dac_calm | calm_step ].
Qed.

Lemma avg_spectrum_step_calm : stable calm avg_spectrum_step.
Proof. unfold avg_spectrum_step. repeat first [ apply get_adc_calm | calm_step ]. Qed.

Lemma get_avg_spectrum_calm (k : Z) : stable calm (get_avg_spectrum k).
Proof.
  unfold get_avg_spectrum. repeat first [ apply avg_spectrum_step_calm | calm_step ].
Qed.

End Quiet.

(** On a quiet instance no operation touches the flag. *)
Lemma exec_quiet (Lase_reset : Lase.t -> Lase.t) (c : call) (w : World) :
  quiet (self w) ->
  _is_failed (self (snd (exec Lase_reset c w))) = _is_failed (self w).
Proof.
  intros Hq. pose proof (exec_flag_frame Lase_reset c w) as Hc.
  destruct c; try exact Hc; cbn [exec].
  - apply (get_adc_calm (_is_failed (self w)) w). split; [exact Hq | reflexivity].
  - apply (get_amplitude_transfer_function_calm (_is_failed (self w)) _ _ _ w).
    split; [exact Hq | reflexivity].
  - apply (get_avg_spectrum_calm (_is_failed (self w)) _ w).
    split; [exact Hq | reflexivity].
Qed.

(** One operation on an instance as the constructor and the operations leave
    it: ready, and without [sampling]. *)
Lemma exec_flag_plain (Lase_reset : Lase.t -> Lase.t) (c : call) (w : World) :
  ready (self w) ->
  no_sampling w ->
  _is_failed (self (snd (exec Lase_reset c w)))
  = if match c with GetAdc => reception_fault w | _ => false end
    then Some true else _is_failed (self w).
Proof.
  intros Hr Hs. pose proof (exec_flag_frame Lase_reset c w) as Hc.
  destruct c; try exact Hc; cbn [exec].
  - apply get_adc_flag_exact, Hr.
  - unfold get_amplitude_transfer_function.
    rewrite getattr_sampling_raises by exact Hs. reflexivity.
  - unfold get_avg_spectrum.
    rewrite getattr_sampling_raises by exact Hs. reflexivity.
Qed.

Lemma run_flag_plain (Lase_reset : Lase.t -> Lase.t) (N : nat) (cs : list call) :
  (forall l, Lase.n (Lase_reset l) = Lase.n l) ->
  forall w,
    ready_at N w -> no_sampling w ->
    _is_failed (self (run Lase_reset cs w))
    = if fault_seen Lase_reset cs w then Some true
      else _is_failed (self w).
Proof.
  intros Hk. unfold run.
  induction cs as [| c cs IH]; intros w Hw Hs; cbn [fold_left fault_seen];
    [reflexivity |].
  rewrite (IH _ (exec_ready Lase_reset Hk N c w Hw) (exec_sampling Lase_reset c w Hs)).
  rewrite (exec_flag_plain Lase_reset c w (proj1 Hw) Hs).
  destruct (match c with GetAdc => reception_fault w | _ => false end);
    cbn [orb]; [| reflexivity].
  destruct (fault_seen Lase_reset cs _); reflexivity.
Qed.

(** C10.  No operation gives the failure flag the value false, and only a
    reception fault sets it.  Construction leaves it absent and [reset]
    leaves it as it is; every operation leaves it as it is or true; the
    operations that make no acquisition leave it exactly as it is; [get_adc]
    on a ready instance sets it to true on a reception fault and leaves it as
    it is otherwise; on an instance whose device presents no not-a-number
    first sample no operation touches it.  So over any sequence of operations
    from construction the flag is absent until the first [get_adc] that meets
    a reception fault, and true from then on. *)
Theorem failure_flag_never_false
  (Lase_new : nat -> Lase.t) (Lase_reset : Lase.t -> Lase.t) :
  (forall map_size g pos,
     _is_failed (self (snd (__init__ Lase_new Lase_reset map_size g pos))) = None) /\
  (forall w, _is_failed (self (snd (reset Lase_reset w))) = _is_failed (self w)) /\
  (forall c w,
     _is_failed (self (snd (exec Lase_reset c w))) = _is_failed (self w) \/
     _is_failed (self (snd (exec Lase_reset c w))) = Some true) /\
  (forall w, _is_failed (self (acquired w)) =
             if reception_fault w then Some true else _is_failed (self w)) /\
  (forall w, ready (self w) -> reception_fault w = false ->
             fst (get_adc w) = Ret tt /\
             _is_failed (self (snd (get_adc w))) = _is_failed (self w)) /\
  (forall cs map_size g pos,
     let w := run Lase_reset cs (snd (__init__ Lase_new Lase_reset map_size g pos)) in
     _is_failed (self w) = None \/ _is_failed (self w) = Some true) /\
  (forall c w,
     match c with
     | GetAdc | GetAmplitudeTransferFunction _ _ _ | GetAvgSpectrum _ => True
     | _ => _is_failed (self (snd (exec Lase_reset c w))) = _is_failed (self w)
     end) /\
  (forall w, ready (self w) ->
             fst (get_adc w) = Ret tt /\
             _is_failed (self (snd (get_adc w)))
             = if reception_fault w then Some true else _is_failed (self w)) /\
  (forall c w, quiet (self w) ->
               _is_failed (self (snd (exec Lase_reset c w))) = _is_failed (self w)) /\
  ((forall l, Lase.n (Lase_reset l) = Lase.n l) ->
   (0 < Lase.n (Lase_new (Z.to_nat 8192)))%nat ->
   forall cs map_size g pos,
     let w0 := snd (__init__ Lase_new Lase_reset map_size g pos) in
     _is_failed (self (run Lase_reset cs w0))
     = if fault_seen Lase_reset cs w0 then Some true else None).
Proof.
  split; [intros; apply init_flag |].
  split; [intros w; unfold reset, set_averaging; mstep; reflexivity |].
  split; [intros c w; apply (exec_flag (_is_failed (self w)) Lase_reset c w);
          left; reflexivity |].
  split; [intros w; unfold acquired; destruct (reception_fault w); reflexivity |].
  split.
  { intros w Hr Hf. rewrite (get_adc_acquired w Hr). split; [reflexivity |].
    unfold acquired. rewrite Hf. reflexivity. }
  split.
  { intros cs map_size g pos. cbn zeta. unfold run.
    assert (H0 : flag_kept None (snd (__init__ Lase_new Lase_reset map_size g pos)))
      by (left; apply init_flag).
    revert H0. generalize (snd (__init__ Lase_new Lase_reset map_size g pos)).
    induction cs as [| c cs IH]; intros w Hw; cbn [fold_left].
    - exact Hw.
    - apply IH. apply exec_flag. exact Hw. }
  split; [exact (exec_flag_frame Lase_reset) |].
  split; [exact get_adc_flag_exact |].
  split; [exact (exec_quiet Lase_reset) |].
  intros Hk Hn cs map_size g pos. cbv zeta.
  rewrite (run_flag_plain Lase_reset (Lase.n (Lase_new (Z.to_nat 8192))) cs Hk).
  - rewrite init_flag. reflexivity.
  - apply init_ready; assumption.
  - apply init_sampling.
Qed.

Lemma sim_fresh_init (raw : Z -> nat -> float64) (count : Z) :
  snd (__init__ (Sim.Lase_new (Sim.device raw count)) Sim.Lase_reset 4096 (fun _ => 0) 0)
  = Sim.fresh raw count.
Proof. unfold Sim.fresh. exact eq_refl. Qed.

Lemma sim_lost_fault_seen :
  fault_seen Sim.Lase_reset [GetAdc; Reset] (Sim.fresh Sim.lost 0) = true.
Proof.
  cbn [fault_seen].
  replace (reception_fault (Sim.fresh Sim.lost 0)) with true by reflexivity.
  reflexivity.
Qed.

(** The theorem on the simulated base driver: after construction and one
    acquisition of zero samples the flag is still absent; after an
    acquisition that loses the first sample and a reset it is true. *)
Lemma failure_flag_never_false_witness :
  ready (self (Sim.fresh Sim.zeros 0)) /\
  reception_fault (Sim.fresh Sim.zeros 0) = false /\
  _is_failed (self (snd (get_adc (Sim.fresh Sim.zeros 0)))) = None /\
  (forall l, Lase.n (Sim.Lase_reset l) = Lase.n l) /\
  (0 < Lase.n (Sim.Lase_new (Sim.device Sim.lost 0) (Z.to_nat 8192)))%nat /\
  fault_seen Sim.Lase_reset [GetAdc; Reset] (Sim.fresh Sim.lost 0) = true /\
  _is_failed (self (run Sim.Lase_reset [GetAdc; Reset] (Sim.fresh Sim.lost 0)))
  = Some true.
Proof.
  assert (Hr : ready (self (Sim.fresh Sim.zeros 0))) by apply fresh_ready.
  assert (Hf : reception_fault (Sim.fresh Sim.zeros 0) = false) by reflexivity.
  assert (Hk : forall l, Lase.n (Sim.Lase_reset l) = Lase.n l) by reflexivity.
  assert (Hn : (0 < Lase.n (Sim.Lase_new (Sim.device Sim.lost 0) (Z.to_nat 8192)))%nat)
    by exact positive_8192.
  split; [exact Hr |]. split; [exact Hf |]. split.
  { exact (eq_trans
      (proj2 (proj1 (proj2 (proj2 (proj2 (proj2
        (failure_flag_never_false
           (Sim.Lase_new (Sim.device Sim.zeros 0)) Sim.Lase_reset)))))
        (Sim.fresh Sim.zeros 0) Hr Hf))
      (proj1 (failure_flag_never_false
           (Sim.Lase_new (Sim.device Sim.zeros 0)) Sim.Lase_reset) 4096%Z (fun _ => 0%R) 0%nat)). }
  split; [exact Hk |]. split; [exact Hn |]. split; [exact sim_lost_fault_seen |].
  pose proof (proj2 (proj2 (proj2 (proj2 (proj2 (proj2 (proj2 (proj2 (proj2
                (failure_flag_never_false
                   (Sim.Lase_new (Sim.device Sim.lost 0)) Sim.Lase_reset)))))))))
                Hk Hn [GetAdc; Reset] 4096%Z (fun _ => 0%R) 0%nat) as H.
  cbv zeta in H. rewrite sim_fresh_init, sim_lost_fault_seen in H. exact H.
Defined.

(** ** The example bootstrap *)

Section InitExampleFacts.

Import InitExample.

Lemma list_remove_app_present (p : string) (pre suf : list string) :
  exists r, list_remove p (pre ++ p :: suf) = Some (r ++ suf) /\
            list_remove p (pre ++ [p]) = Some r /\
            length r = length pre.
Proof.
  induction pre as [| x pre IH]; cbn [app list_remove length].
  - rewrite String.eqb_refl. exists []. split; [reflexivity |].
    split; reflexivity.
  - destruct (String.eqb x p) eqn:E.
    + exists (pre ++ [p]). split; [| split].
      * rewrite <- app_assoc. reflexivity.
      * reflexivity.
      * rewrite length_app. cbn. lia.
    + destruct IH as (r & E1 & E2 & L). rewrite E1, E2.
      exists (x :: r). split; [reflexivity |]. split; [reflexivity |].
      cbn [length]. lia.
Qed.

Lemma step_length (path : string) (pre : list string) (p : string) :
  length (step path pre p) = S (length pre).
Proof.
  unfold step. destruct (promoted path p).
  - destruct (list_remove_app_present p pre []) as (r & _ & E & L).
    rewrite E. cbn [length]. lia.
  - rewrite length_app. cbn. lia.
Qed.

(** The loop, from the point where the iterator has passed [pre] and has
    [suf] before it, is the fold of [step] over [suf]. *)
Lemma promote_from_fold (path : string) (suf : list string) :
  forall (fuel : nat) (pre : list string),
    (length suf < fuel)%nat ->
    promote_from fuel path (length pre) (pre ++ suf)
    = Some (Done (fold_left (step path) suf pre)).
Proof.
  induction suf as [| p suf IH]; intros fuel pre Hf.
  - destruct fuel as [| fuel]; [cbn in Hf; lia |].
    cbn [promote_from fold_left]. rewrite app_nil_r.
    rewrite (proj2 (nth_error_None pre (length pre))) by lia. reflexivity.
  - destruct fuel as [| fuel]; [cbn in Hf; lia |].
    cbn [length] in Hf. cbn [promote_from fold_left].
    rewrite nth_error_app2 by lia. rewrite Nat.sub_diag. cbn [nth_error].
    assert (Hs : forall pre', length pre' = S (length pre) ->
              promote_from fuel path (S (length pre)) (pre' ++ suf)
              = Some (Done (fold_left (step path) suf pre'))).
    { intros pre' L. rewrite <- L. apply IH. lia. }
    unfold step at 2. unfold promoted.
    destruct (String.length p <? 3)%nat eqn:E3; cbn [negb andb].
    + replace (pre ++ p :: suf) with ((pre ++ [p]) ++ suf)
        by (rewrite <- app_assoc; reflexivity).
      apply Hs. rewrite length_app. cbn. lia.
    + destruct (String.prefix p path) eqn:Ep.
      * destruct (list_remove_app_present p pre suf) as (r & E1 & E2 & L).
        rewrite E1, E2.
        change (p :: r ++ suf) with ((p :: r) ++ suf).
        apply Hs. cbn [length]. lia.
      * replace (pre ++ p :: suf) with ((pre ++ [p]) ++ suf)
          by (rewrite <- app_assoc; reflexivity).
        apply Hs. rewrite length_app. cbn. lia.
Qed.

Lemma promote_fold (path : string) (l : list string) (fuel : nat) :
  (length l < fuel)%nat ->
  promote_from fuel path 0 l = Some (Done (fold_left (step path) l [])).
Proof.
  intros H. exact (promote_from_fold path l fuel [] H).
Qed.

Lemma list_remove_perm (p : string) (l r : list string) :
  list_remove p l = Some r -> Permutation l (p :: r).
Proof.
  revert r. induction l as [| x l IH]; intros r; cbn [list_remove]; [discriminate |].
  destruct (String.eqb x p) eqn:E.
  - apply String.eqb_eq in E. intros [= <-]. subst x. reflexivity.
  - destruct (list_remove p l) as [r' |]; [| discriminate].
    intros [= <-]. rewrite (IH r' eq_refl). apply perm_swap.
Qed.

Lemma list_remove_filter (f : string -> bool) (p : string) (l r : list string) :
  list_remove p l = Some r -> f p = false -> List.filter f r = List.filter f l.
Proof.
  revert r. induction l as [| x l IH]; intros r; cbn [list_remove]; [discriminate |].
  destruct (String.eqb x p) eqn:E.
  - apply String.eqb_eq in E. intros [= <-] Hp. subst x.
    cbn [List.filter]. rewrite Hp. reflexivity.
  - destruct (list_remove p l) as [r' |]; [| discriminate].
    intros [= <-] Hp. cbn [List.filter]. rewrite (IH r' eq_refl Hp). reflexivity.
Qed.

Lemma list_remove_absent (p : string) (pre : list string) :
  ~ In p pre -> list_remove p (pre ++ [p]) = Some pre.
Proof.
  induction pre as [| x pre IH]; intros H; cbn [app list_remove].
  - rewrite String.eqb_refl. reflexivity.
  - destruct (String.eqb x p) eqn:E.
    + apply String.eqb_eq in E. exfalso. apply H. left. exact E.
    + rewrite IH; [reflexivity |]. intros Hin. apply H. right. exact Hin.
Qed.

Lemma step_perm (path : string) (pre : list string) (p : string) :
  Permutation (pre ++ [p]) (step path pre p).
Proof.
  unfold step. destruct (promoted path p); [| reflexivity].
  destruct (list_remove p (pre ++ [p])) as [r |] eqn:E; [| reflexivity].
  apply list_remove_perm. exact E.
Qed.

Lemma fold_step_perm (path : string) (suf pre : list string) :
  Permutation (pre ++ suf) (fold_left (step path) suf pre).
Proof.
  revert pre. induction suf as [| p suf IH]; intros pre; cbn [fold_left].
  - rewrite app_nil_r. reflexivity.
  - rewrite <- IH. rewrite <- (step_perm path pre p), <- app_assoc. reflexivity.
Qed.

Lemma step_filter (path : string) (pre : list string) (p : string) :
  List.filter (fun q => negb (promoted path q)) (step path pre p)
  = List.filter (fun q => negb (promoted path q)) (pre ++ [p]).
Proof.
  unfold step. destruct (promoted path p) eqn:Hp; [| reflexivity].
  destruct (list_remove p (pre ++ [p])) as [r |] eqn:E; [| reflexivity].
  cbn [List.filter]. rewrite Hp. cbn [negb].
  apply (list_remove_filter _ p); [exact E |]. rewrite Hp. reflexivity.
Qed.

Lemma fold_step_filter (path : string) (suf pre : list string) :
  List.filter (fun q => negb (promoted path q)) (fold_left (step path) suf pre)
  = List.filter (fun q => negb (promoted path q)) (pre ++ suf).
Proof.
  revert pre. induction suf as [| p suf IH]; intros pre; cbn [fold_left].
  - rewrite app_nil_r. reflexivity.
  - rewrite IH, List.filter_app, step_filter.
    change (p :: suf) with ([p] ++ suf).
    rewrite !List.filter_app, <- app_assoc. reflexivity.
Qed.

Lemma last_cons_default (q p : string) (qs : list string) :
  List.last (q :: qs) p = List.last qs q.
Proof.
  revert q p. induction qs as [| x qs IH]; intros q p; [reflexivity |].
  change (List.last (q :: x :: qs) p) with (List.last (x :: qs) p).
  rewrite IH. symmetry. apply IH.
Qed.

Lemma last_default_In (q : string) (qs : list string) :
  In (List.last qs q) (q :: qs).
Proof.
  revert q. induction qs as [| x qs IH]; intros q; [left; reflexivity |].
  rewrite last_cons_default. right. apply IH.
Qed.

(** The entry at the head once the iterator has passed the last entry it
    promotes. *)
Lemma fold_step_head (path : string) (suf pre : list string) (d : string) :
  hd d (fold_left (step path) suf pre)
  = match List.filter (promoted path) suf with
    | [] => hd d (pre ++ suf)
    | q :: qs => List.last qs q
    end.
Proof.
  revert pre. induction suf as [| p suf IH]; intros pre; cbn [fold_left List.filter].
  - rewrite app_nil_r. reflexivity.
  - rewrite IH. unfold step.
    destruct (promoted path p) eqn:Hp.
    + destruct (list_remove_app_present p pre []) as (r & _ & E & _).
      rewrite E.
      destruct (List.filter (promoted path) suf) as [| q qs]; [reflexivity |].
      symmetry. apply last_cons_default.
    + destruct (List.filter (promoted path) suf) as [| q qs]; [| reflexivity].
      rewrite <- app_assoc. reflexivity.
Qed.

(** Without repeated entries, the promoted entries end up in front, the last
    promoted first, and the others follow in their order. *)
Lemma fold_step_nodup (path : string) (suf : list string) :
  forall A B : list string,
    List.NoDup ((rev A ++ B) ++ suf) ->
    Forall (fun q => promoted path q = true) A ->
    fold_left (step path) suf (rev A ++ B)
    = rev (A ++ List.filter (promoted path) suf)
      ++ B ++ List.filter (fun q => negb (promoted path q)) suf.
Proof.
  induction suf as [| p suf IH]; intros A B Hnd HA; cbn [fold_left List.filter].
  - rewrite !app_nil_r. reflexivity.
  - assert (Hp : ~ In p (rev A ++ B)).
    { apply List.NoDup_remove_2 in Hnd.
      intros Hin. apply Hnd. apply in_or_app. left. exact Hin. }
    unfold step at 2. destruct (promoted path p) eqn:Ep; cbn [negb].
    + rewrite (list_remove_absent p _ Hp).
      change (p :: rev A ++ B) with ((p :: rev A) ++ B).
      replace (p :: rev A) with (rev (A ++ [p])) by (rewrite rev_app_distr; reflexivity).
      rewrite IH.
      * rewrite <- app_assoc. reflexivity.
      * rewrite rev_app_distr. cbn [rev app].
        apply (Permutation_NoDup (l := (rev A ++ B) ++ p :: suf)); [| exact Hnd].
        rewrite <- Permutation_middle. reflexivity.
      * apply Forall_app. split; [exact HA |]. constructor; [exact Ep | constructor].
    + rewrite <- app_assoc.
      rewrite (IH A (B ++ [p])).
      * rewrite <- app_assoc. reflexivity.
      * rewrite <- !app_assoc in *. exact Hnd.
      * exact HA.
Qed.

(** X1.  When the script is not frozen and the directory it looks into lists
    without error and holds no entry [ldk], the loop ends (a fuel of one more
    than the length of [sys.path] is enough), raises nothing, and leaves in
    [sys.path] the entries it found there, each as many times as before. *)
Theorem bootstrap_permutes (e : Env) (sys_path names : list string) :
  frozen e = false ->
  listdir e (search_path e) = Some names ->
  existsb (String.eqb "ldk") names = false ->
  exists l',
    main (S (length sys_path)) e sys_path = Some (Done l') /\
    Permutation sys_path l'.
Proof.
  intros Hf Hl Hn. unfold main. rewrite Hf, Hl, Hn.
  rewrite promote_fold by lia.
  eexists. split; [reflexivity |]. exact (fold_step_perm _ sys_path []).
Qed.

(** X2.  In the same situation the entries the loop does not promote (those
    of fewer than three characters and those that are no prefix of the path)
    stay in the order they had. *)
Theorem bootstrap_keeps_order (e : Env) (sys_path names : list string) :
  frozen e = false ->
  listdir e (search_path e) = Some names ->
  existsb (String.eqb "ldk") names = false ->
  exists l',
    main (S (length sys_path)) e sys_path = Some (Done l') /\
    List.filter (fun q => negb (promoted (search_path e) q)) l'
    = List.filter (fun q => negb (promoted (search_path e) q)) sys_path.
Proof.
  intros Hf Hl Hn. unfold main. rewrite Hf, Hl, Hn.
  rewrite promote_fold by lia.
  eexists. split; [reflexivity |]. exact (fold_step_filter _ sys_path []).
Qed.

(** X3.  In the same situation, when [sys.path] holds an entry of at least
    three characters that is a prefix of the path, the first entry of
    [sys.path] afterwards is the last such entry of the original list. *)
Theorem bootstrap_head (e : Env) (sys_path names : list string) (q : string)
  (qs : list string) :
  frozen e = false ->
  listdir e (search_path e) = Some names ->
  existsb (String.eqb "ldk") names = false ->
  List.filter (promoted (search_path e)) sys_path = q :: qs ->
  exists rest,
    main (S (length sys_path)) e sys_path = Some (Done (List.last qs q :: rest)) /\
    promoted (search_path e) (List.last qs q) = true.
Proof.
  intros Hf Hl Hn Hq. unfold main. rewrite Hf, Hl, Hn.
  rewrite promote_fold by lia.
  pose proof (fold_step_head (search_path e) sys_path [] q) as Hh.
  rewrite Hq in Hh.
  pose proof (fold_step_perm (search_path e) sys_path []) as Hperm.
  destruct (fold_left (step (search_path e)) sys_path []) as [| a rest] eqn:E.
  - cbn [app] in Hperm. apply Permutation_sym, Permutation_nil in Hperm.
    rewrite Hperm in Hq. discriminate Hq.
  - cbn [hd] in Hh. subst a. exists rest. split; [reflexivity |].
    pose proof (last_default_In q qs) as Hin.
    rewrite <- Hq in Hin. apply List.filter_In in Hin. apply Hin.
Qed.

(** X4.  In the same situation, when no entry of [sys.path] is repeated, the
    promoted entries end up in front in the reverse of their order, and the
    other entries follow in their order. *)
Theorem bootstrap_nodup (e : Env) (sys_path names : list string) :
  frozen e = false ->
  listdir e (search_path e) = Some names ->
  existsb (String.eqb "ldk") names = false ->
  List.NoDup sys_path ->
  main (S (length sys_path)) e sys_path
  = Some (Done (rev (List.filter (promoted (search_path e)) sys_path)
                ++ List.filter (fun q => negb (promoted (search_path e) q)) sys_path)).
Proof.
  intros Hf Hl Hn Hnd. unfold main. rewrite Hf, Hl, Hn.
  rewrite promote_fold by lia.
  exact (f_equal (fun l => Some (Done l))
           (fold_step_nodup (search_path e) sys_path [] [] Hnd (List.Forall_nil _))).
Qed.

(** The four theorems on a sample run: a script under [/opt/ldk-src/examples]
    whose parent directory holds no [ldk], and a [sys.path] of four entries. *)
Lemma bootstrap_permutes_witness :
  frozen sample_env = false /\
  listdir sample_env (search_path sample_env) = Some sample_listing /\
  existsb (String.eqb "ldk") sample_listing = false /\
  exists l',
    main (S (length sample_sys_path)) sample_env sample_sys_path = Some (Done l') /\
    Permutation sample_sys_path l'.
Proof.
  split; [reflexivity |]. split; [reflexivity |]. split; [reflexivity |].
  exact (bootstrap_permutes sample_env sample_sys_path sample_listing
           eq_refl eq_refl eq_refl).
Defined.

Lemma bootstrap_keeps_order_witness :
  frozen sample_env = false /\
  listdir sample_env (search_path sample_env) = Some sample_listing /\
  existsb (String.eqb "ldk") sample_listing = false /\
  exists l',
    main (S (length sample_sys_path)) sample_env sample_sys_path = Some (Done l') /\
    List.filter (fun q => negb (promoted (search_path sample_env) q)) l'
    = List.filter (fun q => negb (promoted (search_path sample_env) q)) sample_sys_path.
Proof.
  split; [reflexivity |]. split; [reflexivity |]. split; [reflexivity |].
  exact (bootstrap_keeps_order sample_env sample_sys_path sample_listing
           eq_refl eq_refl eq_refl).
Defined.

Lemma bootstrap_head_witness :
  frozen sample_env = false /\
  listdir sample_env (search_path sample_env) = Some sample_listing /\
  existsb (String.eqb "ldk") sample_listing = false /\
  List.filter (promoted (search_path sample_env)) sample_sys_path
  = ["/opt/ldk-src"; "/opt"]%string /\
  exists rest,
    main (S (length sample_sys_path)) sample_env sample_sys_path
    = Some (Done ("/opt"%string :: rest)) /\
    promoted (search_path sample_env) "/opt" = true.
Proof.
  split; [reflexivity |]. split; [reflexivity |]. split; [reflexivity |].
  split; [reflexivity |].
  exact (bootstrap_head sample_env sample_sys_path sample_listing
           "/opt/ldk-src" ["/opt"%string] eq_refl eq_refl eq_refl eq_refl).
Defined.

Lemma bootstrap_nodup_witness :
  frozen sample_env = false /\
  listdir sample_env (search_path sample_env) = Some sample_listing /\
  existsb (String.eqb "ldk") sample_listing = false /\
  List.NoDup sample_sys_path /\
  main (S (length sample_sys_path)) sample_env sample_sys_path
  = Some (Done ["/opt"; "/opt/ldk-src"; ""; "/usr/lib/python2.7"]%string).
Proof.
  assert (Hnd : List.NoDup sample_sys_path).
  { unfold sample_sys_path.
    repeat (constructor; [cbn [In]; intuition discriminate |]). constructor. }
  split; [reflexivity |]. split; [reflexivity |]. split; [reflexivity |].
  split; [exact Hnd |].
  exact (bootstrap_nodup sample_env sample_sys_path sample_listing
           eq_refl eq_refl eq_refl Hnd).
Defined.

End InitExampleFacts.
